(** * Stock portfolio tracker: a model of [main.py] and its properties

    The program is a single Python script.  It reads tickers and
    quantities from standard input, looks the tickers up in the fixed
    table [STOCK_PRICES], stores one dictionary per holding, sums the
    values, writes each holding's percentage weight back into its
    dictionary, prints a report and optionally writes it to a file.

    Conventions of the model:
    - Python [float] is IEEE 754 binary64 with round-to-nearest-even; it is
      the type [spec_float] of the standard library with
      [prec = 53] and [emax = 1024], and its operations are [SFadd],
      [SFmul] and [SFdiv].  Python [int] is [Z];
    - text is ASCII ([string]); a line returned by [input()] carries no
      newline; [int(text)] has no limit on the number of digits;
    - the dictionaries appended to the portfolio are objects in a store
      ([list holding], addressed by position); the portfolio is the list
      of their references, so that the in-place update of
      [calculate_portfolio_weights] is an update of the store;
    - [input()] reads from a finite list of lines and raises [EOFError]
      when it is exhausted; [print] appends to the output;
    - file operations succeed or raise [OSError] as a schedule in the
      world says; a write reaches the file at once;
    - a raised exception ends the computation it occurs in, keeping the
      world as it was when the exception was raised.

    The file has three parts: the program, the vocabulary of the
    statements, and the lemmas and theorems.  The theorems about amounts
    rest on a small theory of rounding in binary64, proved here from the
    definitions of [SpecFloat]. *)

From Stdlib Require Import ZArith QArith Qabs Qpower Lia Lqa Bool Ascii String List.
From Stdlib Require Import Floats.SpecFloat.
From stdpp Require Import base option list gmap strings.
Import ListNotations.

Local Open Scope Z_scope.

(** ** Text *)

Module Text.

Definition nl : string := String (ascii_of_nat 10) EmptyString.

(** [str.isspace] on ASCII characters: tab, line feed, vertical tab,
    form feed, carriage return, the four separators 28..31 and space. *)
Definition isspace (c : ascii) : bool :=
  let n := nat_of_ascii c in
  ((9 <=? n)%nat && (n <=? 13)%nat) || ((28 <=? n)%nat && (n <=? 32)%nat).

Fixpoint lstrip (s : string) : string :=
  match s with
  | String c s' => if isspace c then lstrip s' else s
  | EmptyString => EmptyString
  end.

Fixpoint rstrip (s : string) : string :=
  match s with
  | String c s' =>
      match rstrip s' with
      | EmptyString => if isspace c then EmptyString else String c EmptyString
      | t => String c t
      end
  | EmptyString => EmptyString
  end.

(** [s.strip()] *)
Definition strip (s : string) : string := rstrip (lstrip s).

Definition upper_char (c : ascii) : ascii :=
  let n := nat_of_ascii c in
  if ((97 <=? n)%nat && (n <=? 122)%nat) then ascii_of_nat (n - 32) else c.

Definition lower_char (c : ascii) : ascii :=
  let n := nat_of_ascii c in
  if ((65 <=? n)%nat && (n <=? 90)%nat) then ascii_of_nat (n + 32) else c.

Fixpoint map_chars (f : ascii -> ascii) (s : string) : string :=
  match s with
  | String c s' => String (f c) (map_chars f s')
  | EmptyString => EmptyString
  end.

(** [s.upper()] and [s.lower()] *)
Definition upper : string -> string := map_chars upper_char.
Definition lower : string -> string := map_chars lower_char.

(** [c * n] for a one-character string [c] *)
Fixpoint repeat_char (c : ascii) (n : nat) : string :=
  match n with
  | O => EmptyString
  | S k => String c (repeat_char c k)
  end.

(** [sep.join(items)] *)
Fixpoint join (sep : string) (items : list string) : string :=
  match items with
  | [] => EmptyString
  | [x] => x
  | x :: rest => x +:+ sep +:+ join sep rest
  end.

(** The format specification [<w]: left-justify in a field of width [w],
    padding with spaces; longer text is not cut. *)
Definition ljust (w : nat) (s : string) : string :=
  s +:+ repeat_char " "%char (w - String.length s).

Definition digit_char (d : Z) : ascii := ascii_of_nat (48 + Z.to_nat d).

(** Decimal digits of a non-negative integer, most significant first.
    The fuel is the number of binary digits, which is enough. *)
Fixpoint digits_fuel (fuel : nat) (n : Z) (acc : string) : string :=
  match fuel with
  | O => acc
  | S k =>
      let acc' := String (digit_char (n mod 10)) acc in
      if n / 10 =? 0 then acc' else digits_fuel k (n / 10) acc'
  end.

Definition digits (n : Z) : string :=
  digits_fuel (S (Z.to_nat (Z.log2 n))) n EmptyString.

(** [str(n)] for an [int] *)
Definition str_int (n : Z) : string :=
  if n <? 0 then "-" +:+ digits (- n) else digits n.

(** Grouping of the format specification [,]: a comma before every
    group of three digits, counted from the right. *)
Fixpoint group3 (s : string) : string :=
  match s with
  | String c s' =>
      if ((String.length s' mod 3 =? 0)%nat && negb (String.length s' =? 0)%nat)
      then String c (String ","%char (group3 s'))
      else String c (group3 s')
  | EmptyString => EmptyString
  end.

Definition is_digit (c : ascii) : bool :=
  let n := nat_of_ascii c in (48 <=? n)%nat && (n <=? 57)%nat.

Definition digit_val (c : ascii) : Z := Z.of_nat (nat_of_ascii c) - 48.

(** The digit part of an integer literal accepted by [int(text)]:
    digits, with single underscores allowed between two digits.
    [after_digit] tells whether the previous character was a digit. *)
Fixpoint parse_digits (s : string) (acc : Z) (after_digit : bool) : option Z :=
  match s with
  | EmptyString => if after_digit then Some acc else None
  | String c s' =>
      if is_digit c then parse_digits s' (10 * acc + digit_val c) true
      else if (Ascii.eqb c "_"%char && after_digit)%bool then
        match s' with
        | String d _ => if is_digit d then parse_digits s' acc false else None
        | EmptyString => None
        end
      else None
  end.

(** [int(text)] in base ten on already stripped text: an optional sign
    and the digit part.  [None] stands for [ValueError]. *)
Definition parse_int (s : string) : option Z :=
  match s with
  | String "+"%char s' => parse_digits s' 0 false
  | String "-"%char s' => option_map Z.opp (parse_digits s' 0 false)
  | _ => parse_digits s 0 false
  end.

End Text.

(** ** Numbers *)

(** Python's [float]: IEEE 754 binary64. *)
Module Float.

Definition prec : Z := 53.
Definition emax : Z := 1024.

Abbreviation float := spec_float.

Definition add : float -> float -> float := SFadd prec emax.
Definition mul : float -> float -> float := SFmul prec emax.
Definition div : float -> float -> float := SFdiv prec emax.
Definition eqb : float -> float -> bool := SFeqb.
Definition ltb : float -> float -> bool := SFltb.

Definition zero : float := S754_zero false.

(** The double nearest to an integer, ties to even; an infinity when the
    integer is beyond the range of binary64. *)
Definition round_int (z : Z) : float := binary_normalize prec emax z 0 false.

(** Conversion of an [int] operand to [float], as the arithmetic
    operators do it: [None] stands for
    [OverflowError: int too large to convert to float]. *)
Definition of_int (z : Z) : option float :=
  match round_int z with
  | S754_infinity _ => None
  | f => Some f
  end.

(** A decimal literal [digits * 10^-places] of the source text denotes
    the double nearest to it.  Both integers below are exact doubles and
    the division of binary64 is correctly rounded, so the quotient is
    that double. *)
Definition literal (digits : Z) (places : nat) : float :=
  div (round_int digits) (round_int (10 ^ Z.of_nat places)).

(** The value of a double multiplied by 100 and rounded to an integer,
    ties to even: the number of hundredths that the format [.2f] shows.
    Defined on finite doubles, by mantissa and exponent. *)
Definition hundredths (m : positive) (e : Z) : Z :=
  if 0 <=? e then Z.pos m * 100 * 2 ^ e
  else
    let d := 2 ^ (- e) in
    let n := Z.pos m * 100 in
    let q := n / d in
    match 2 * (n mod d) ?= d with
    | Lt => q
    | Gt => q + 1
    | Eq => if Z.even q then q else q + 1
    end.

(** The exact rational value of a finite double; 0 for the others. *)
Definition to_Q (f : float) : Q :=
  match f with
  | S754_finite s m e =>
      let v := (inject_Z (Z.pos m) * Qpower 2 e)%Q in
      if s then Qopp v else v
  | _ => 0%Q
  end.

Definition is_finite (f : float) : bool :=
  match f with
  | S754_finite _ _ _ | S754_zero _ => true
  | _ => false
  end.

(** Fixed-point text with two decimals, optionally with thousands
    separators: the format specifications [.2f] and [,.2f]. *)
Definition fixed2 (grouped : bool) (f : float) : string :=
  let render (s : bool) (h : Z) :=
    let int_part := Text.digits (h / 100) in
    (if s then "-" else "") +:+
    (if grouped then Text.group3 int_part else int_part) +:+ "." +:+
    String (Text.digit_char (h mod 100 / 10))
      (String (Text.digit_char (h mod 10)) EmptyString) in
  match f with
  | S754_nan => "nan"
  | S754_infinity s => if s then "-inf" else "inf"
  | S754_zero s => render s 0
  | S754_finite s m e => render s (hundredths m e)
  end.

End Float.

Abbreviation float := spec_float.

(** A number as the program handles them: an [int] or a [float]. *)
Inductive pynum :=
| PyInt (z : Z)
| PyFloat (f : float).

(** Exceptions that can leave a function of the program. *)
Inductive exn :=
| EOFError
| OverflowError
| ZeroDivisionError
| KeyError (key : string)
| OSError (msg : string).

Inductive result (A : Type) :=
| Ok (a : A)
| Raise (e : exn).
Arguments Ok {A} a.
Arguments Raise {A} e.

Definition bind {A B : Type} (r : result A) (k : A -> result B) : result B :=
  match r with
  | Ok a => k a
  | Raise e => Raise e
  end.

Notation "'let*' x ':=' r 'in' k" := (bind r (fun x => k))
  (at level 10, x pattern, r at level 100, k at level 200).

Module Num.

(** Operand conversion of the binary operators on a [float] and another
    number. *)
Definition as_float (n : pynum) : result float :=
  match n with
  | PyFloat f => Ok f
  | PyInt z =>
      match Float.of_int z with
      | Some f => Ok f
      | None => Raise OverflowError
      end
  end.

(** [n == 0] *)
Definition is_zero (n : pynum) : bool :=
  match n with
  | PyInt z => z =? 0
  | PyFloat f => Float.eqb f Float.zero
  end.

(** [0 < n] *)
Definition is_positive (n : pynum) : bool :=
  match n with
  | PyInt z => 0 <? z
  | PyFloat f => Float.ltb Float.zero f
  end.

(** [q * x] for an [int] [q] and a [float] [x] *)
Definition int_mul_float (q : Z) (x : float) : result float :=
  let* fq := as_float (PyInt q) in Ok (Float.mul fq x).

(** [x / n] for a [float] [x]: true division raises on a zero divisor. *)
Definition float_div (x : float) (n : pynum) : result float :=
  let* d := as_float n in
  if Float.eqb d Float.zero then Raise ZeroDivisionError
  else Ok (Float.div x d).

(** [x * q] for a [float] [x] and an [int] [q] *)
Definition float_mul_int (x : float) (q : Z) : result float :=
  let* fq := as_float (PyInt q) in Ok (Float.mul x fq).

(** [sum(xs)] for a sequence of floats: the items are added from left to
    right; the start value is the [int] 0, which is returned as it is
    for an empty sequence and enters the first addition as [0.0]. *)
Definition sum (xs : list float) : pynum :=
  match xs with
  | [] => PyInt 0
  | _ => PyFloat (fold_left Float.add xs Float.zero)
  end.

End Num.

(** ** The price table and the holdings *)

(** The decimal literals of the dictionary display [STOCK_PRICES], in its
    order, written in hundredths: 875.50 is 87550. *)
Definition PRICE_LITERALS : list (string * Z) :=
  [ ("NVDA"%string, 87550);
    ("JNJ"%string,  15830);
    ("V"%string,    27015);
    ("COST"%string, 78000);
    ("ASML"%string, 99588);
    ("RY"%string,   10545) ].

(** [STOCK_PRICES]: every literal denotes a double. *)
Definition STOCK_PRICES : list (string * float) :=
  map (fun '(t, c) => (t, Float.literal c 2)) PRICE_LITERALS.

(** [table.get(key)]; [None] when [key not in table]. *)
Fixpoint assoc_get {A : Type} (table : list (string * A)) (key : string) : option A :=
  match table with
  | [] => None
  | (k, v) :: rest => if String.eqb key k then Some v else assoc_get rest key
  end.

Definition price_of : string -> option float := assoc_get STOCK_PRICES.

(** The dictionary built for one holding. *)
Record holding := Holding {
  ticker : string;
  quantity : Z;
  price : float;
  value : float;
  weight : float
}.

Definition set_weight (w : float) (h : holding) : holding :=
  {| ticker := ticker h; quantity := quantity h; price := price h;
     value := value h; weight := w |}.

(** A reference to a holding: its position in the store. *)
Abbreviation ref := nat (only parsing).

(** ** The world: console output, object store, files *)

Record world := World {
  stdout : list string;
  heap : list holding;
  disk : gmap string string;
  (* outcome of each coming file operation, in order: [None] lets it
     succeed, [Some msg] makes it raise [OSError(msg)]; past the end of
     the list every operation succeeds *)
  faults : list (option string)
}.

Definition set_stdout (f : list string -> list string) (w : world) : world :=
  {| stdout := f (stdout w); heap := heap w; disk := disk w; faults := faults w |}.
Definition set_heap (f : list holding -> list holding) (w : world) : world :=
  {| stdout := stdout w; heap := f (heap w); disk := disk w; faults := faults w |}.
Definition set_disk (f : gmap string string -> gmap string string) (w : world) : world :=
  {| stdout := stdout w; heap := heap w; disk := f (disk w); faults := faults w |}.
Definition set_faults (f : list (option string) -> list (option string)) (w : world) : world :=
  {| stdout := stdout w; heap := heap w; disk := disk w; faults := f (faults w) |}.

(** [print(s)] *)
Definition print (s : string) : world -> world :=
  set_stdout (fun out => out ++ [s +:+ Text.nl]).

(** The prompt that [input(s)] writes before it reads. *)
Definition show_prompt (s : string) : world -> world :=
  set_stdout (fun out => out ++ [s]).

(** A new dictionary: it is placed at the end of the store. *)
Definition alloc (h : holding) (w : world) : ref * world :=
  (length (heap w), set_heap (fun hp => hp ++ [h]) w).

(** What a function that reads input leaves behind: its result or the
    exception it raised, the lines not read yet, and the world. *)
Record outcome (A : Type) := Outcome {
  res : result A;
  unread : list string;
  after : world
}.
Arguments Outcome {A} res unread after.
Arguments res {A} o.
Arguments unread {A} o.
Arguments after {A} o.

(** ** [get_user_portfolio] *)

Definition ticker_prompt : string := "Enter stock ticker (e.g., NVDA): ".

Definition quantity_prompt (t : string) : string :=
  "Enter quantity for " +:+ t +:+ ": ".

Definition unknown_ticker_msg (t : string) : string :=
  "Error: Stock '" +:+ t +:+
  "' not found in the price list. Please try one of the available options.".

Definition empty_quantity_msg : string := "Quantity cannot be empty.".
Definition not_positive_msg : string := "Quantity must be a positive whole number.".
Definition not_a_number_msg : string :=
  "Invalid input. Please enter a whole number for quantity.".

Definition added_msg (q : Z) (t : string) (p v : float) : string :=
  "-> Added " +:+ Text.str_int q +:+ " shares of " +:+ t +:+ " at $" +:+
  Float.fixed2 false p +:+ " each. Current value: $" +:+ Float.fixed2 true v.

(** Lines 52 to 63: the statements of the outer loop body that follow the
    quantity loop.  The subscript [STOCK_PRICES[ticker]] raises [KeyError]
    on a missing key and the product raises [OverflowError] when the
    quantity does not convert to [float]. *)
Definition add_holding (t : string) (q : Z) (portfolio : list ref) (w : world)
  : result (list ref) * world :=
  match price_of t with
  | None => (Raise (KeyError t), w)
  | Some p =>
      match Num.int_mul_float q p with
      | Raise e => (Raise e, w)
      | Ok v =>
          let '(r, w1) :=
            alloc {| ticker := t; quantity := q; price := p; value := v;
                     weight := Float.zero |} w in
          (Ok (portfolio ++ [r]), print (added_msg q t p v) w1)
      end
  end.

(** The two [while True] loops.  [ticker_loop] is the outer loop at the
    point where it calls [input] for a ticker, [quantity_loop] the inner
    loop at the point where it calls [input] for a quantity.  Each
    iteration reads one line, so both recurse on the lines to come. *)
Fixpoint ticker_loop (lines : list string) (portfolio : list ref) (w : world)
  {struct lines} : outcome (list ref) :=
  let w := show_prompt ticker_prompt w in
  match lines with
  | [] => Outcome (Raise EOFError) [] w
  | line :: rest =>
      let t := Text.upper (Text.strip line) in
      if String.eqb t "DONE" then Outcome (Ok portfolio) rest w
      else
        match price_of t with
        | None => ticker_loop rest portfolio (print (unknown_ticker_msg t) w)
        | Some _ => quantity_loop t rest portfolio w
        end
  end
with quantity_loop (t : string) (lines : list string) (portfolio : list ref)
  (w : world) {struct lines} : outcome (list ref) :=
  let w := show_prompt (quantity_prompt t) w in
  match lines with
  | [] => Outcome (Raise EOFError) [] w
  | line :: rest =>
      let quantity_input := Text.strip line in
      if String.eqb quantity_input EmptyString then
        quantity_loop t rest portfolio (print empty_quantity_msg w)
      else
        match Text.parse_int quantity_input with
        | None => quantity_loop t rest portfolio (print not_a_number_msg w)
        | Some q =>
            if q <=? 0 then
              quantity_loop t rest portfolio (print not_positive_msg w)
            else
              match add_holding t q portfolio w with
              | (Ok portfolio', w') => ticker_loop rest portfolio' w'
              | (Raise e, w') => Outcome (Raise e) rest w'
              end
        end
  end.

Definition get_user_portfolio (lines : list string) (w : world)
  : outcome (list ref) :=
  let w := print (Text.nl +:+ "--- Enter Your Stock Holdings ---") w in
  let w := print ("Available stocks: " +:+ Text.join ", " (map fst STOCK_PRICES)) w in
  let w := print "Type 'done' when you have finished entering your stocks." w in
  ticker_loop lines [] w.

(** ** [calculate_portfolio_value] and [calculate_portfolio_weights] *)

(** The dictionaries a portfolio refers to, in order. *)
Definition holdings (hp : list holding) (portfolio : list ref) : list holding :=
  omap (fun r => hp !! r) portfolio.

(** [sum(holding['value'] for holding in portfolio)].  Python 3.12 and
    later sum floats with a compensated algorithm; the plain
    left-to-right sum of the language reference is modelled. *)
Definition calculate_portfolio_value (hp : list holding) (portfolio : list ref)
  : pynum :=
  Num.sum (map value (holdings hp portfolio)).

(** [(holding['value'] / total_value) * 100] *)
Definition weight_of (total_value : pynum) (h : holding) : result float :=
  let* share := Num.float_div (value h) total_value in
  Num.float_mul_int share 100.

(** One iteration of the loop of lines 84 to 87 on the dictionary [r]. *)
Definition assign_weight (total_value : pynum) (hp : list holding) (r : ref)
  : result (list holding) :=
  match hp !! r with
  | None => Ok hp
  | Some h =>
      let* wt := weight_of total_value h in
      Ok (<[r := set_weight wt h]> hp)
  end.

Fixpoint assign_weights (total_value : pynum) (portfolio : list ref)
  (hp : list holding) : result (list holding) :=
  match portfolio with
  | [] => Ok hp
  | r :: rest =>
      let* hp' := assign_weight total_value hp r in
      assign_weights total_value rest hp'
  end.

(** The function returns nothing; its effect is the new store. *)
Definition calculate_portfolio_weights (portfolio : list ref) (total_value : pynum)
  (hp : list holding) : result (list holding) :=
  if Num.is_zero total_value then Ok hp
  else assign_weights total_value portfolio hp.

(** ** The report and [save_results_to_file] *)

Definition rule (c : ascii) : string := Text.repeat_char c 65.

Definition report_header : string :=
  Text.ljust 10 "Ticker" +:+ Text.ljust 10 "Quantity" +:+ Text.ljust 10 "Price" +:+
  Text.ljust 15 "Value (USD)" +:+ Text.ljust 15 "Weight (%)".

Definition report_row (h : holding) : string :=
  Text.ljust 10 (ticker h) +:+ Text.ljust 10 (Text.str_int (quantity h)) +:+
  Text.ljust 10 (Float.fixed2 false (price h)) +:+
  Text.ljust 15 (Float.fixed2 false (value h)) +:+
  Text.ljust 15 (Float.fixed2 false (weight h)).

(** [f"{total_value:,.2f}"]: an [int] is converted to [float] first. *)
Definition format_total (total_value : pynum) : result string :=
  let* f := Num.as_float total_value in Ok (Float.fixed2 true f).

(** The next file operation fails or not, as the world decides. *)
Definition file_op (action : world -> world) (w : world) : result unit * world :=
  match faults w with
  | Some msg :: coming => (Raise (OSError msg), set_faults (fun _ => coming) w)
  | None :: coming => (Ok tt, action (set_faults (fun _ => coming) w))
  | [] => (Ok tt, action w)
  end.

(** [open(filename, 'w')] creates the file or cuts it to length zero. *)
Definition file_open (filename : string) : world -> result unit * world :=
  file_op (set_disk (fun d => <[filename := EmptyString]> d)).

(** [f.write(text)] *)
Definition file_write (filename text : string) : world -> result unit * world :=
  file_op (set_disk (fun d => <[filename := default EmptyString (d !! filename) +:+ text]> d)).

(** [f.close()], which leaving the [with] block calls *)
Definition file_close : world -> result unit * world :=
  file_op (fun w => w).

Fixpoint write_all (filename : string) (texts : list string) (w : world)
  : result unit * world :=
  match texts with
  | [] => (Ok tt, w)
  | text :: rest =>
      match file_write filename text w with
      | (Ok _, w') => write_all filename rest w'
      | (Raise e, w') => (Raise e, w')
      end
  end.

(** The arguments of the [f.write] calls before the total line. *)
Definition file_rows (hs : list holding) : list string :=
  [ rule "="%char +:+ Text.nl;
    "     STOCK PORTFOLIO SUMMARY" +:+ Text.nl;
    rule "="%char +:+ Text.nl;
    report_header +:+ Text.nl;
    rule "-"%char +:+ Text.nl ] ++
  map (fun h => report_row h +:+ Text.nl) hs ++
  [ rule "-"%char +:+ Text.nl ].

(** The body of the [with] statement. *)
Definition save_body (hs : list holding) (total_value : pynum) (filename : string)
  (w : world) : result unit * world :=
  match write_all filename (file_rows hs) w with
  | (Raise e, w') => (Raise e, w')
  | (Ok _, w') =>
      match format_total total_value with
      | Raise e => (Raise e, w')
      | Ok total_text =>
          write_all filename
            [ "Total Investment Value: $" +:+ total_text +:+ Text.nl;
              rule "="%char +:+ Text.nl ] w'
      end
  end.

(** [with open(filename, 'w') as f: ...]: the file is closed on the way
    out, also when the body raised; an exception of the closing replaces
    the one of the body. *)
Definition with_open (filename : string) (body : world -> result unit * world)
  (w : world) : result unit * world :=
  match file_open filename w with
  | (Raise e, w') => (Raise e, w')
  | (Ok _, w1) =>
      let '(r, w2) := body w1 in
      match file_close w2 with
      | (Raise e, w3) => (Raise e, w3)
      | (Ok _, w3) => (r, w3)
      end
  end.

Definition saved_msg (filename : string) : string :=
  Text.nl +:+ "[SUCCESS] Report successfully saved to " +:+ filename.

Definition save_error_msg (msg : string) : string :=
  Text.nl +:+ "[ERROR] An error occurred while saving the file: " +:+ msg.

(** [IOError] is [OSError]; the handler lets any other exception pass. *)
Definition save_results_to_file (portfolio : list ref) (total_value : pynum)
  (filename : string) (w : world) : result unit * world :=
  match with_open filename (save_body (holdings (heap w) portfolio) total_value filename) w with
  | (Ok _, w') => (Ok tt, print (saved_msg filename) w')
  | (Raise (OSError msg), w') => (Ok tt, print (save_error_msg msg) w')
  | (Raise e, w') => (Raise e, w')
  end.

(** ** [main] *)

(** How the process ends: [main] returns, [sys.exit()] is called (both
    give exit status 0), or an exception reaches the top level. *)
Inductive ending :=
| Returned
| SysExit
| Uncaught (e : exn).

Definition exit_status (e : ending) : Z :=
  match e with
  | Returned | SysExit => 0
  | Uncaught _ => 1
  end.

Record run := Run {
  ending_of : ending;
  unread_of : list string;
  world_of : world
}.

Definition welcome_msg : string := "<<< Welcome to the Simple Stock Portfolio Tracker >>>".
Definition no_stocks_msg : string := Text.nl +:+ "No stocks were entered. Application closing.".
Definition save_prompt : string :=
  Text.nl +:+ "Do you want to save this report to a file (portfolio_summary.txt)? (y/n): ".
Definition skipped_msg : string := "File saving skipped.".
Definition default_filename : string := "portfolio_summary.txt".

(** Step 4 of [main]: the report on the console. *)
Definition display_report (hs : list holding) (total_text : string) (w : world) : world :=
  let w := print (Text.nl +:+ rule "="%char) w in
  let w := print "     FINAL PORTFOLIO REPORT    " w in
  let w := print (rule "="%char) w in
  let w := print report_header w in
  let w := print (rule "-"%char) w in
  let w := fold_left (fun w h => print (report_row h) w) hs w in
  let w := print (rule "-"%char) w in
  let w := print ("Total Portfolio Value: $" +:+ total_text) w in
  print (rule "="%char) w.

(** Step 5 of [main]: the question and the optional save. *)
Definition save_step (portfolio : list ref) (total_value : pynum)
  (lines : list string) (w : world) : run :=
  let w := show_prompt save_prompt w in
  match lines with
  | [] => Run (Uncaught EOFError) [] w
  | line :: rest =>
      if String.eqb (Text.lower (Text.strip line)) "y" then
        match save_results_to_file portfolio total_value default_filename w with
        | (Ok _, w') => Run Returned rest w'
        | (Raise e, w') => Run (Uncaught e) rest w'
        end
      else Run Returned rest (print skipped_msg w)
  end.

Definition main (lines : list string) (w : world) : run :=
  let w := print welcome_msg w in
  match get_user_portfolio lines w with
  | Outcome (Raise e) rest w => Run (Uncaught e) rest w
  | Outcome (Ok user_portfolio) rest w =>
      match user_portfolio with
      | [] => Run SysExit rest (print no_stocks_msg w)
      | _ =>
          let total_value := calculate_portfolio_value (heap w) user_portfolio in
          match calculate_portfolio_weights user_portfolio total_value (heap w) with
          | Raise e => Run (Uncaught e) rest w
          | Ok hp =>
              let w := set_heap (fun _ => hp) w in
              match format_total total_value with
              | Raise e => Run (Uncaught e) rest w
              | Ok total_text =>
                  let w := display_report (holdings hp user_portfolio) total_text w in
                  save_step user_portfolio total_value rest w
              end
          end
      end
  end.

(** The world in which the program starts. *)
Definition initial_world (files : gmap string string) (fs : list (option string)) : world :=
  {| stdout := []; heap := []; disk := files; faults := fs |}.

(** * Vocabulary of the statements *)

(** The definitions below are not part of the program: they name the
    notions that the lemmas and theorems are stated with. *)

(** The state of the collector between two reads of input: asking for a
    ticker, or asking for the quantity of a ticker. *)
Inductive asking :=
| AwaitingTicker
| AwaitingQuantity (t : string).

Definition resume (a : asking) : list string -> list ref -> world -> outcome (list ref) :=
  match a with
  | AwaitingTicker => ticker_loop
  | AwaitingQuantity t => quantity_loop t
  end.

Definition prompt_of (a : asking) : string :=
  match a with
  | AwaitingTicker => ticker_prompt
  | AwaitingQuantity t => quantity_prompt t
  end.

(** What "the quantity loop asks again after printing [msg]" means for a
    rejected line: same portfolio, same store, and the prompt, the
    message and the prompt again are the next three pieces of output. *)
Definition asks_again (t line : string) (rest : list string)
  (portfolio : list ref) (w : world) (msg : string) : Prop :=
  let w' := print msg (show_prompt (quantity_prompt t) w) in
  quantity_loop t (line :: rest) portfolio w = quantity_loop t rest portfolio w' /\
  heap w' = heap w /\
  (stdout w ++ [quantity_prompt t; msg +:+ Text.nl; quantity_prompt t])
    `prefix_of` stdout (after (quantity_loop t (line :: rest) portfolio w)).

(** What a sequence of at most [n] file operations may do to the world
    [w]: it touches neither the console nor the store; when it succeeds
    it has used up [n] fault-free entries of the schedule; when it fails
    the exception is an [OSError] carrying a message of the schedule. *)
Definition file_effect (n : nat) (w : world) (r : result unit * world) : Prop :=
  stdout r.2 = stdout w /\ heap r.2 = heap w /\
  match r.1 with
  | Ok _ => faults r.2 = drop n (faults w) /\ Forall (fun f => f = None) (take n (faults w))
  | Raise e =>
      exists (msg : string) (k : nat),
        e = OSError msg /\ k <= n /\ faults r.2 = drop k (faults w) /\
        Some msg ∈ take k (faults w)
  end%nat.

(** The number of file operations of a complete save: the opening, one
    write per line of the report and the closing. *)
Definition save_operations (hs : list holding) : nat :=
  1 + (length (file_rows hs) + 2) + 1.

(** Outside [OSError], the exceptions of the model. *)
Definition is_os_error (e : exn) : bool :=
  match e with
  | OSError _ => true
  | _ => false
  end.

(** The constant [100] of the weight formula converts to the double 100.0. *)
Definition hundred : float := S754_finite false 7036874417766400 (-46).

(** Every reference of the portfolio points into the store. *)
Definition valid_refs (hp : list holding) (portfolio : list ref) : Prop :=
  Forall (fun r => r < length hp)%nat portfolio.

(** The session of the example: NVDA 2, V 10, done. *)
Definition example_session : outcome (list ref) :=
  get_user_portfolio ["NVDA"; "2"; "V"; "10"; "done"]%string (initial_world ∅ []).

(** Powers of two as rationals, and the exact value of a mantissa and an
    exponent. *)
Definition bpow (e : Z) : Q := (2 ^ e)%Q.

Definition F2Q (m e : Z) : Q := (inject_Z m * bpow e)%Q.

(** The position of a number [x] with respect to the integer [shr_m] of
    a shift record: on it, in the lower half, on the middle or in the
    upper half of the unit interval that starts at it, as the round and
    sticky bits say. *)
Definition located (x : Q) (mrs : shr_record) : Prop :=
  let m := inject_Z (shr_m mrs) in
  match shr_r mrs, shr_s mrs with
  | false, false => x == m
  | false, true => m < x /\ x < m + (1 # 2)
  | true, false => x == m + (1 # 2)
  | true, true => m + (1 # 2) < x /\ x < m + 1
  end%Q.

(** A positive normal double: sign plus, a mantissa of 53 digits and an
    exponent in the range of binary64. *)
Definition pos_normal (f : float) : bool :=
  match f with
  | S754_finite false m e =>
      (Z.pos (digits2_pos m) =? 53) && (-1074 <=? e) && (e <=? 971)
  | _ => false
  end.

(** What a sum or product of positive normal doubles can be. *)
Definition pos_or_inf (f : float) : bool :=
  match f with
  | S754_infinity false => true
  | _ => pos_normal f
  end.

(** The sign given to [binary_round] only labels the result. *)
Definition with_sign (s : bool) (f : float) : float :=
  match f with
  | S754_zero _ => S754_zero s
  | S754_infinity _ => S754_infinity s
  | S754_nan => S754_nan
  | S754_finite _ m e => S754_finite s m e
  end.

(** The update that the loop applies to each dictionary when the total
    is the double [t]. *)
Definition weighted (t : float) (h : holding) : holding :=
  set_weight (Float.mul (Float.div (value h) t) hundred) h.

(** The price of a ticker as the source text writes it, in hundredths. *)
Definition cents_of : string -> option Z := assoc_get PRICE_LITERALS.

(** A price of the table: a positive normal double, not below 1 nor above
    1000, within [2^-44] of the decimal literal it was written as. *)
Definition table_price (c : Z) (p : float) : Prop :=
  pos_normal p = true /\
  (1 <= Float.to_Q p)%Q /\ (Float.to_Q p <= 1000)%Q /\
  (Qabs (Float.to_Q p - (c # 100)) <= 1 # 17592186044416)%Q /\
  0 < c <= 100000.

(** A dictionary as [get_user_portfolio] builds it. *)
Definition collected (h : holding) : Prop :=
  1 <= quantity h /\
  price_of (ticker h) = Some (price h) /\
  Num.int_mul_float (quantity h) (price h) = Ok (value h) /\
  weight h = Float.zero.

(** Every reference of [portfolio] points to a dictionary with [P]. *)
Definition all_holdings (P : holding -> Prop) (hp : list holding) (portfolio : list ref)
  : Prop :=
  Forall (fun r => exists h, hp !! r = Some h /\ P h) portfolio.

(** The unit roundoff of binary64 and the range of values and portfolio
    sizes covered below. *)
Definition u53 : Q := 1 # 9007199254740992.
Definition value_max : Q := bpow 990.
Definition size_max : Z := 1048576.

Fixpoint qpow (b : Q) (n : nat) : Q :=
  match n with
  | O => 1%Q
  | S k => (b * qpow b k)%Q
  end.

(** The exact sum of a list of rationals. *)
Definition Qsum (xs : list Q) : Q := fold_right Qplus 0%Q xs.

(** The exact sum of the weights of a portfolio. *)
Definition weight_sum (hp : list holding) (portfolio : list ref) : Q :=
  Qsum (map (fun h => Float.to_Q (weight h)) (holdings hp portfolio)).

(** The values covered: positive normal doubles from 1 to [2^990]. *)
Definition in_range (v : float) : Prop :=
  pos_normal v = true /\ (1 <= Float.to_Q v)%Q /\ (Float.to_Q v <= value_max)%Q.

(** The quantity 10^305, as typed. *)
Definition huge_quantity : string := String "1"%char (Text.repeat_char "0"%char 305).

(** An asking state that the collector can be in: it asks for the
    quantity of tickers of the price table only. *)
Definition known (a : asking) : Prop :=
  match a with
  | AwaitingTicker => True
  | AwaitingQuantity t => is_Some (price_of t)
  end.

(** The quantity 10^309, as typed: an integer beyond the range of
    binary64. *)
Definition overflowing_quantity : string :=
  String "1"%char (Text.repeat_char "0"%char 309).

(** The dictionary that lines 53 to 62 build for a ticker and a
    quantity, or the exception they raise. *)
Definition new_holding (t : string) (q : Z) : result holding :=
  match price_of t with
  | None => Raise (KeyError t)
  | Some p =>
      let* v := Num.int_mul_float q p in
      Ok {| ticker := t; quantity := q; price := p; value := v; weight := Float.zero |}
  end.

(** The input of a session in which every entry is typed once and
    accepted: a ticker line and a quantity line per entry. *)
Fixpoint entry_lines (typed : list (string * string)) : list string :=
  match typed with
  | [] => []
  | (l1, l2) :: more => l1 :: l2 :: entry_lines more
  end.

(** The two lines [typed] are accepted as the dictionary [h]: the first
    names a ticker of the table, the second reads as an integer above 0
    that converts to [float]. *)
Definition accepted (typed : string * string) (h : holding) : Prop :=
  exists q : Z,
    Text.parse_int (Text.strip typed.2) = Some q /\ 0 < q /\
    new_holding (Text.upper (Text.strip typed.1)) q = Ok h.

(** What the console gets for one accepted entry, and at the start of
    the collection. *)
Definition entry_output (h : holding) : list string :=
  [ ticker_prompt; quantity_prompt (ticker h);
    added_msg (quantity h) (ticker h) (price h) (value h) +:+ Text.nl ].

Definition intro_output : list string :=
  [ Text.nl +:+ "--- Enter Your Stock Holdings ---" +:+ Text.nl;
    "Available stocks: NVDA, JNJ, V, COST, ASML, RY" +:+ Text.nl;
    "Type 'done' when you have finished entering your stocks." +:+ Text.nl ].

(** The double 1.0. *)
Definition float_one : float := S754_finite false 4503599627370496 (-52).

(** The exact sum of the values of a list of holdings. *)
Definition exact_total (hs : list holding) : Q :=
  Qsum (map Float.to_Q (map value hs)).

(** The amount of a holding in hundredths, from the decimal price of its
    ticker, and the amount of a list of holdings. *)
Definition cents_value (h : holding) : Z :=
  quantity h * default 0 (cents_of (ticker h)).

Definition cents_total (hs : list holding) : Z :=
  fold_right Z.add 0 (map cents_value hs).

(** The content of a file after a sequence of writes, and the content of
    the report file. *)
Definition concat_text (texts : list string) : string :=
  fold_right String.append EmptyString texts.

Definition report_text (hs : list holding) (total_text : string) : string :=
  concat_text
    (file_rows hs ++
     [ "Total Investment Value: $" +:+ total_text +:+ Text.nl;
       rule "="%char +:+ Text.nl ]).

(** The files other than [filename] are the same in [w] and [w']. *)
Definition elsewhere (filename : string) (w w' : world) : Prop :=
  forall f : string, f <> filename -> disk w' !! f = disk w !! f.

(** Every character of [s] satisfies [P]. *)
Fixpoint all_chars (P : ascii -> bool) (s : string) : bool :=
  match s with
  | EmptyString => true
  | String c s' => P c && all_chars P s'
  end.

(** The report as [main] prints it, and the whole console output of a
    complete session up to the save question: the entries are echoed
    from the dictionaries [hs] as collected, the report shows the
    dictionaries [hs'] with their weights. *)
Definition report_output (hs : list holding) (total_text : string) : list string :=
  [ (Text.nl +:+ rule "="%char) +:+ Text.nl;
    "     FINAL PORTFOLIO REPORT    " +:+ Text.nl;
    rule "="%char +:+ Text.nl;
    report_header +:+ Text.nl;
    rule "-"%char +:+ Text.nl ] ++
  map (fun h => report_row h +:+ Text.nl) hs ++
  [ rule "-"%char +:+ Text.nl;
    ("Total Portfolio Value: $" +:+ total_text) +:+ Text.nl;
    rule "="%char +:+ Text.nl ].

Definition session_output (hs hs' : list holding) (total_text : string) : list string :=
  [welcome_msg +:+ Text.nl] ++ intro_output ++
  concat (map entry_output hs) ++ [ticker_prompt] ++
  report_output hs' total_text ++ [save_prompt].

(** * Properties *)

(** ** Text: the sentinel in any letter case *)

Section Sentinel.

Local Open Scope char_scope.

Lemma lower_upper_char (c lo : ascii) :
  Text.lower_char c = lo -> Text.upper_char c = Text.upper_char lo.
Proof.
  intros <-. destruct c as [[] [] [] [] [] [] [] []]; reflexivity.
Qed.

(** A text that reads "done" when put in lower case reads "DONE" when put
    in upper case. *)
Lemma done_any_case (s : string) :
  Text.lower s = "done"%string -> Text.upper s = "DONE"%string.
Proof.
  destruct s as [|c1 [|c2 [|c3 [|c4 [|c5 s]]]]]; try discriminate.
  cbn. intros H. injection H as H1 H2 H3 H4.
  rewrite (lower_upper_char c1 "d" H1).
  rewrite (lower_upper_char c2 "o" H2).
  rewrite (lower_upper_char c3 "n" H3).
  rewrite (lower_upper_char c4 "e" H4).
  reflexivity.
Qed.

End Sentinel.

(** ** The collection loops *)

Lemma heap_print (s : string) (w : world) : heap (print s w) = heap w.
Proof. reflexivity. Qed.

Lemma heap_show_prompt (s : string) (w : world) : heap (show_prompt s w) = heap w.
Proof. reflexivity. Qed.

(** Whatever follows, a loop first shows its prompt: the output it leaves
    extends the output it found by the prompt. *)
Lemma resume_shows_prompt (lines : list string) :
  forall (a : asking) (portfolio : list ref) (w : world),
    (stdout w ++ [prompt_of a]) `prefix_of`
      stdout (after (resume a lines portfolio w)).
Proof.
  induction lines as [|line rest IH]; intros a portfolio w.
  - destruct a; cbn; reflexivity.
  - assert (Hstep : forall (a' : asking) (p' : list ref) (w' : world),
               (stdout w ++ [prompt_of a]) `prefix_of` stdout w' ->
               (stdout w ++ [prompt_of a]) `prefix_of`
                 stdout (after (resume a' rest p' w'))).
    { intros a' p' w' Hw'. etransitivity; [|apply IH].
      etransitivity; [exact Hw'|]. apply prefix_app_r. reflexivity. }
    destruct a as [|t]; cbn [resume ticker_loop quantity_loop prompt_of].
    + destruct (String.eqb _ _); [cbn; reflexivity|].
      destruct (price_of _).
      * apply (Hstep (AwaitingQuantity _)). reflexivity.
      * apply (Hstep AwaitingTicker). cbn. apply prefix_app_r. reflexivity.
    + destruct (String.eqb _ _).
      { apply (Hstep (AwaitingQuantity t)). cbn. apply prefix_app_r. reflexivity. }
      destruct (Text.parse_int _) as [q|].
      2:{ apply (Hstep (AwaitingQuantity t)). cbn. apply prefix_app_r. reflexivity. }
      destruct (q <=? 0).
      { apply (Hstep (AwaitingQuantity t)). cbn. apply prefix_app_r. reflexivity. }
      unfold add_holding. destruct (price_of t) as [p|]; [|cbn; reflexivity].
      destruct (Num.int_mul_float q p) as [v|e]; [|cbn; reflexivity].
      apply (Hstep AwaitingTicker). cbn. apply prefix_app_r. reflexivity.
Qed.

(** C6, collector part and whole program: when the first line is the
    sentinel, in any letter case and with any blanks around it,
    [get_user_portfolio] returns the empty list, and [main] ends through
    [sys.exit()] with status 0 having printed only the welcome, the three
    introduction lines, one ticker prompt and the closing message: no
    report, no save question (the remaining input is untouched), no file
    operation and no change of the store. *)
Theorem sentinel_first_exits_cleanly (line : string) (rest : list string) (w : world) :
  Text.lower (Text.strip line) = "done"%string ->
  res (get_user_portfolio (line :: rest) w) = Ok [] /\
  main (line :: rest) w =
    Run SysExit rest
      (set_stdout (fun out => out ++
         [ welcome_msg +:+ Text.nl;
           Text.nl +:+ "--- Enter Your Stock Holdings ---" +:+ Text.nl;
           "Available stocks: NVDA, JNJ, V, COST, ASML, RY" +:+ Text.nl;
           "Type 'done' when you have finished entering your stocks." +:+ Text.nl;
           ticker_prompt;
           no_stocks_msg +:+ Text.nl ]) w) /\
  exit_status (ending_of (main (line :: rest) w)) = 0.
Proof.
  intros Hdone.
  assert (Hup : Text.upper (Text.strip line) = "DONE"%string)
    by (apply done_any_case; exact Hdone).
  unfold main, get_user_portfolio. cbn [ticker_loop]. rewrite Hup. cbn [String.eqb Ascii.eqb Bool.eqb].
  cbn [res]. split; [reflexivity|]. split; [|reflexivity].
  f_equal. destruct w as [out hp d fs]. unfold print, show_prompt, set_stdout. cbn.
  f_equal. repeat rewrite <- app_assoc. reflexivity.
Qed.

Lemma sentinel_first_exits_cleanly_witness :
  Text.lower (Text.strip "  DoNe ") = "done"%string /\
  main ["  DoNe "; "y"] (initial_world ∅ []) =
    Run SysExit ["y"]
      (set_stdout (fun out => out ++
         [ welcome_msg +:+ Text.nl;
           Text.nl +:+ "--- Enter Your Stock Holdings ---" +:+ Text.nl;
           "Available stocks: NVDA, JNJ, V, COST, ASML, RY" +:+ Text.nl;
           "Type 'done' when you have finished entering your stocks." +:+ Text.nl;
           ticker_prompt;
           no_stocks_msg +:+ Text.nl ]) (initial_world ∅ [])).
Proof.
  split; [reflexivity|].
  apply (sentinel_first_exits_cleanly "  DoNe " ["y"] (initial_world ∅ [])).
  reflexivity.
Defined.

(** C7: a ticker line that, stripped and put in upper case, is neither the
    sentinel nor a key of the price table leaves the portfolio and the
    store as they are; the loop prints the error line and is back at the
    ticker prompt, which is the next thing it shows. *)
Theorem unknown_ticker_reprompts (line : string) (rest : list string)
  (portfolio : list ref) (w : world) :
  let t := Text.upper (Text.strip line) in
  String.eqb t "DONE" = false ->
  price_of t = None ->
  let w' := print (unknown_ticker_msg t) (show_prompt ticker_prompt w) in
  ticker_loop (line :: rest) portfolio w = ticker_loop rest portfolio w' /\
  heap w' = heap w /\
  (stdout w ++ [ticker_prompt; unknown_ticker_msg t +:+ Text.nl; ticker_prompt])
    `prefix_of` stdout (after (ticker_loop (line :: rest) portfolio w)).
Proof.
  intros t Hsent Hprice w'.
  assert (Heq : ticker_loop (line :: rest) portfolio w = ticker_loop rest portfolio w').
  { cbn [ticker_loop]. fold t. rewrite Hsent, Hprice. reflexivity. }
  split; [exact Heq|]. split; [reflexivity|].
  rewrite Heq.
  pose proof (resume_shows_prompt rest AwaitingTicker portfolio w') as Hp.
  cbn [resume prompt_of] in Hp.
  replace (stdout w') with (stdout w ++ [ticker_prompt; unknown_ticker_msg t +:+ Text.nl]) in Hp.
  - rewrite <- app_assoc in Hp. exact Hp.
  - subst w'. destruct w. cbn. rewrite <- app_assoc. reflexivity.
Qed.

Lemma unknown_ticker_reprompts_witness :
  ticker_loop ["tsla"; "done"] [] (initial_world ∅ []) =
  ticker_loop ["done"] []
    (print (unknown_ticker_msg "TSLA") (show_prompt ticker_prompt (initial_world ∅ []))).
Proof.
  apply (unknown_ticker_reprompts "tsla" ["done"] [] (initial_world ∅ [])); reflexivity.
Defined.

Lemma asks_again_intro (t line : string) (rest : list string)
  (portfolio : list ref) (w : world) (msg : string) :
  quantity_loop t (line :: rest) portfolio w =
    quantity_loop t rest portfolio (print msg (show_prompt (quantity_prompt t) w)) ->
  asks_again t line rest portfolio w msg.
Proof.
  intros Heq. unfold asks_again. cbv zeta.
  split; [exact Heq|]. split; [reflexivity|].
  rewrite Heq.
  pose proof (resume_shows_prompt rest (AwaitingQuantity t) portfolio
                (print msg (show_prompt (quantity_prompt t) w))) as Hp.
  cbn [resume prompt_of] in Hp.
  replace (stdout (print msg (show_prompt (quantity_prompt t) w)))
    with (stdout w ++ [quantity_prompt t; msg +:+ Text.nl]) in Hp.
  - rewrite <- app_assoc in Hp. exact Hp.
  - destruct w. cbn. rewrite <- app_assoc. reflexivity.
Qed.

(** C8: in the quantity loop a line that is empty once stripped, a line
    that [int] rejects, and a line that reads as an integer not above 0
    each leave the portfolio and the store unchanged and send the loop
    back to the quantity prompt after one message; the three messages
    are pairwise different. *)
Theorem invalid_quantity_reprompts (t line : string) (rest : list string)
  (portfolio : list ref) (w : world) :
  (Text.strip line = EmptyString ->
     asks_again t line rest portfolio w empty_quantity_msg) /\
  (Text.strip line <> EmptyString -> Text.parse_int (Text.strip line) = None ->
     asks_again t line rest portfolio w not_a_number_msg) /\
  (forall q : Z, Text.parse_int (Text.strip line) = Some q -> q <= 0 ->
     asks_again t line rest portfolio w not_positive_msg) /\
  empty_quantity_msg <> not_a_number_msg /\
  empty_quantity_msg <> not_positive_msg /\
  not_a_number_msg <> not_positive_msg.
Proof.
  split; [|split; [|split; [|split; [|split]]]].
  4-6: discriminate.
  - intros Hempty. apply asks_again_intro.
    cbn [quantity_loop]. rewrite Hempty. reflexivity.
  - intros Hne Hparse. apply asks_again_intro.
    cbn [quantity_loop]. rewrite Hparse.
    destruct (String.eqb_spec (Text.strip line) EmptyString); [contradiction|reflexivity].
  - intros q Hparse Hq. apply asks_again_intro.
    cbn [quantity_loop]. rewrite Hparse.
    destruct (String.eqb_spec (Text.strip line) EmptyString) as [He|_].
    + rewrite He in Hparse. discriminate.
    + apply Z.leb_le in Hq. rewrite Hq. reflexivity.
Qed.

Lemma invalid_quantity_reprompts_witness :
  asks_again "V" "   " ["5"] [] (initial_world ∅ []) empty_quantity_msg /\
  asks_again "V" "ten" ["5"] [] (initial_world ∅ []) not_a_number_msg /\
  asks_again "V" "-3" ["5"] [] (initial_world ∅ []) not_positive_msg.
Proof.
  split; [|split].
  - destruct (invalid_quantity_reprompts "V" "   " ["5"] [] (initial_world ∅ []))
      as (Hempty & _).
    exact (Hempty eq_refl).
  - destruct (invalid_quantity_reprompts "V" "ten" ["5"] [] (initial_world ∅ []))
      as (_ & Hnan & _).
    apply Hnan; [discriminate | reflexivity].
  - destruct (invalid_quantity_reprompts "V" "-3" ["5"] [] (initial_world ∅ []))
      as (_ & _ & Hneg & _).
    apply (Hneg (-3)); [reflexivity | lia].
Defined.

(** ** Saving the report *)

Lemma file_op_effect (action : world -> world) (w : world) :
  (forall w0, stdout (action w0) = stdout w0 /\ heap (action w0) = heap w0 /\
              faults (action w0) = faults w0) ->
  file_effect 1 w (file_op action w).
Proof.
  intros Hact. unfold file_effect, file_op.
  destruct (faults w) as [|[msg|] coming] eqn:Hf; cbn.
  - destruct (Hact w) as (Ho & Hh & Hfa). rewrite Ho, Hh, Hfa, Hf. auto.
  - split; [reflexivity|]. split; [reflexivity|].
    exists msg, 1%nat. cbn. repeat split; auto. left.
  - destruct (Hact (set_faults (fun _ => coming) w)) as (Ho & Hh & Hfa).
    rewrite Ho, Hh, Hfa. cbn. rewrite take_0, drop_0. auto.
Qed.

(** Two groups of operations one after the other. *)
Lemma file_effect_seq (n m : nat) (w : world) (r1 : result unit * world)
  (c2 : world -> result unit * world) :
  file_effect n w r1 ->
  (forall w1, file_effect m w1 (c2 w1)) ->
  file_effect (n + m) w
    (match r1 with
     | (Ok _, w1) => c2 w1
     | (Raise e, w1) => (Raise e, w1)
     end).
Proof.
  intros H1 H2. destruct r1 as [[[]|e] w1]; unfold file_effect in *; cbn in *.
  - destruct H1 as (Ho1 & Hh1 & Hf1 & Hclear1).
    destruct (H2 w1) as (Ho2 & Hh2 & Hrest).
    rewrite Ho2, Hh2. split; [exact Ho1|]. split; [exact Hh1|].
    destruct (c2 w1).1 as [[]|e2].
    + destruct Hrest as (Hf2 & Hclear2). rewrite Hf2, Hf1, drop_drop.
      split; [reflexivity|]. rewrite <- take_take_drop. apply Forall_app.
      split; [exact Hclear1|]. rewrite <- Hf1. exact Hclear2.
    + destruct Hrest as (msg & k & -> & Hk & Hf2 & Hin).
      exists msg, (n + k)%nat. rewrite Hf2, Hf1, drop_drop.
      split; [reflexivity|]. split; [lia|]. split; [reflexivity|].
      rewrite <- take_take_drop. apply elem_of_app. right.
      rewrite <- Hf1. exact Hin.
  - destruct H1 as (Ho1 & Hh1 & msg & k & -> & Hk & Hf1 & Hin).
    repeat split; auto. exists msg, k. repeat split; auto. lia.
Qed.

Lemma write_all_effect (filename : string) (texts : list string) (w : world) :
  file_effect (length texts) w (write_all filename texts w).
Proof.
  revert w. induction texts as [|text rest IH]; intros w.
  - unfold file_effect. cbn. rewrite drop_0, take_0. auto.
  - cbn [write_all length].
    pose proof (file_effect_seq 1 (length rest) w (file_write filename text w)
                  (write_all filename rest)) as Hseq.
    destruct (file_write filename text w) as [[[]|e] w1] eqn:Hw;
      (apply Hseq; [rewrite <- Hw; apply file_op_effect; intros; cbn; auto | exact IH]).
Qed.

Lemma save_body_effect (hs : list holding) (total_value : pynum) (total_text filename : string)
  (w : world) :
  format_total total_value = Ok total_text ->
  file_effect (length (file_rows hs) + 2) w (save_body hs total_value filename w).
Proof.
  intros Hfmt. unfold save_body. rewrite Hfmt.
  pose proof (file_effect_seq (length (file_rows hs)) 2 w
                (write_all filename (file_rows hs) w)
                (write_all filename
                   [ "Total Investment Value: $" +:+ total_text +:+ Text.nl;
                     rule "="%char +:+ Text.nl ])) as Hseq.
  destruct (write_all filename (file_rows hs) w) as [[[]|e] w1] eqn:Hw;
    (apply Hseq; [rewrite <- Hw; apply write_all_effect | intros; apply write_all_effect]).
Qed.

Lemma with_open_effect (n : nat) (filename : string)
  (body : world -> result unit * world) (w : world) :
  (forall w1, file_effect n w1 (body w1)) ->
  file_effect (1 + n + 1) w (with_open filename body w).
Proof.
  intros Hbody. unfold with_open.
  assert (Hopen : file_effect 1 w (file_open filename w))
    by (apply file_op_effect; intros; cbn; auto).
  destruct (file_open filename w) as [[[]|e] w1].
  2:{ destruct Hopen as (Ho & Hh & msg & k & -> & Hk & Hf & Hin).
      repeat split; auto. exists msg, k. repeat split; auto. cbn in *. lia. }
  destruct Hopen as (Ho1 & Hh1 & Hf1 & Hclear1). cbn in Ho1, Hh1, Hf1, Hclear1.
  specialize (Hbody w1). destruct (body w1) as [r w2].
  destruct Hbody as (Ho2 & Hh2 & Hrest). cbn in Ho2, Hh2, Hrest.
  assert (Hclose : file_effect 1 w2 (file_close w2))
    by (apply file_op_effect; intros; cbn; auto).
  destruct (file_close w2) as [[[]|e] w3];
    destruct Hclose as (Ho3 & Hh3 & Hrest3); cbn in Ho3, Hh3, Hrest3;
    (split; [cbn; congruence|]); (split; [cbn; congruence|]); cbn.
  - destruct Hrest3 as (Hf3 & Hclear3).
    destruct r as [[]|e].
    + destruct Hrest as (Hf2 & Hclear2).
      rewrite Hf3, Hf2, Hf1, !drop_drop. split; [f_equal; lia|].
      replace (S (n + 1)) with (1 + (n + 1))%nat by lia.
      rewrite <- take_take_drop. apply Forall_app. split; [exact Hclear1|].
      rewrite <- take_take_drop. apply Forall_app. rewrite <- Hf1. split; [exact Hclear2|].
      rewrite <- Hf2. exact Hclear3.
    + destruct Hrest as (msg & k & -> & Hk & Hf2 & Hin).
      exists msg, (1 + k + 1)%nat. rewrite Hf3, Hf2, Hf1, !drop_drop.
      split; [reflexivity|]. split; [lia|]. split; [f_equal; lia|].
      rewrite <- Nat.add_assoc, <- take_take_drop. apply elem_of_app. right.
      rewrite <- take_take_drop. apply elem_of_app. left. rewrite <- Hf1. exact Hin.
  - destruct Hrest3 as (msg & k & -> & Hk & Hf3 & Hin).
    assert (Hpos : exists j, (j <= n)%nat /\ faults w2 = drop j (faults w1)).
    { destruct r as [[]|e].
      - exists n. split; [lia|]. apply Hrest.
      - destruct Hrest as (? & j & _ & Hj & Hf2 & _). exists j. auto. }
    destruct Hpos as (j & Hj & Hf2).
    exists msg, (1 + j + k)%nat. rewrite Hf3, Hf2, Hf1, !drop_drop.
    split; [reflexivity|]. split; [lia|]. split; [f_equal; lia|].
    rewrite <- take_take_drop. apply elem_of_app. right.
    rewrite <- drop_drop, <- Hf1, <- Hf2. exact Hin.
Qed.

Lemma save_results_effect (portfolio : list ref) (total_value : pynum)
  (total_text filename : string) (w : world) :
  format_total total_value = Ok total_text ->
  exists w',
    save_results_to_file portfolio total_value filename w = (Ok tt, w') /\
    heap w' = heap w /\
    ((Forall (fun f => f = None) (take (save_operations (holdings (heap w) portfolio)) (faults w)) /\
      stdout w' = stdout w ++ [saved_msg filename +:+ Text.nl]) \/
     (exists msg, Some msg ∈ faults w /\
                  stdout w' = stdout w ++ [save_error_msg msg +:+ Text.nl])).
Proof.
  intros Hfmt. unfold save_results_to_file, save_operations.
  pose proof (with_open_effect (length (file_rows (holdings (heap w) portfolio)) + 2)
                filename (save_body (holdings (heap w) portfolio) total_value filename) w
                (fun w1 => save_body_effect _ _ _ _ w1 Hfmt)) as Heff.
  destruct (with_open _ _ w) as [[[]|e] w1].
  - destruct Heff as (Ho & Hh & _ & Hclear). cbn in Ho, Hh, Hclear.
    eexists. split; [reflexivity|]. split; [exact Hh|]. left.
    split; [exact Hclear|]. cbn. rewrite Ho. reflexivity.
  - destruct Heff as (Ho & Hh & msg & k & -> & _ & _ & Hin). cbn in Ho, Hh.
    eexists. split; [reflexivity|]. split; [exact Hh|]. right.
    exists msg. split; [|cbn; rewrite Ho; reflexivity].
    eapply subseteq_take. exact Hin.
Qed.

(** The collector raises [EOFError], [KeyError] or [OverflowError], never
    [OSError]. *)
Lemma resume_no_os_error (lines : list string) :
  forall (a : asking) (portfolio : list ref) (w : world) (e : exn),
    res (resume a lines portfolio w) = Raise e -> is_os_error e = false.
Proof.
  induction lines as [|line rest IH]; intros a portfolio w e.
  - destruct a; cbn; intros [= <-]; reflexivity.
  - destruct a as [|t]; cbn [resume ticker_loop quantity_loop].
    + destruct (String.eqb _ _); [discriminate|].
      destruct (price_of _).
      * apply (IH (AwaitingQuantity _)).
      * apply (IH AwaitingTicker).
    + destruct (String.eqb _ _); [apply (IH (AwaitingQuantity t))|].
      destruct (Text.parse_int _) as [q|]; [|apply (IH (AwaitingQuantity t))].
      destruct (q <=? 0); [apply (IH (AwaitingQuantity t))|].
      unfold add_holding. destruct (price_of t) as [p|]; [|cbn; intros [= <-]; reflexivity].
      unfold Num.int_mul_float, Num.as_float.
      destruct (Float.of_int q); cbn; [apply (IH AwaitingTicker)|].
      intros [= <-]. reflexivity.
Qed.

Lemma float_mul_int_100 (x : float) :
  Num.float_mul_int x 100 = Ok (Float.mul x hundred).
Proof. reflexivity. Qed.

Lemma weight_of_no_os_error (total_value : pynum) (h : holding) (e : exn) :
  weight_of total_value h = Raise e -> is_os_error e = false.
Proof.
  unfold weight_of, Num.float_div.
  destruct (Num.as_float total_value) as [d|e1] eqn:Hd; cbn [bind].
  - destruct (Float.eqb d Float.zero); cbn [bind]; [intros [= <-]; reflexivity|].
    rewrite float_mul_int_100. discriminate.
  - intros [= <-]. destruct total_value as [z|f]; cbn in Hd; [|discriminate].
    destruct (Float.of_int z); [discriminate|]. injection Hd as <-. reflexivity.
Qed.

Lemma assign_weights_no_os_error (total_value : pynum) (portfolio : list ref) :
  forall (hp : list holding) (e : exn),
    assign_weights total_value portfolio hp = Raise e -> is_os_error e = false.
Proof.
  induction portfolio as [|r rest IH]; intros hp e; cbn [assign_weights].
  - discriminate.
  - unfold assign_weight. destruct (hp !! r) as [h|]; cbn [bind]; [|apply IH].
    destruct (weight_of total_value h) as [wt|e1] eqn:Hw; cbn [bind]; [apply IH|].
    intros [= <-]. eapply weight_of_no_os_error. exact Hw.
Qed.

(** The total that [main] computes always has a text. *)
Lemma format_total_sum (xs : list float) :
  exists text, format_total (Num.sum xs) = Ok text.
Proof.
  destruct xs; cbn; eexists; reflexivity.
Qed.

(** One file operation: it fails exactly when the next entry of the
    schedule holds a message, and uses up that entry. *)
Lemma file_op_next (action : world -> world) (w : world) :
  (forall w0, stdout (action w0) = stdout w0 /\ heap (action w0) = heap w0 /\
              faults (action w0) = faults w0) ->
  exists w' : world,
    file_op action w =
      (match faults w !! 0%nat with
       | Some (Some msg) => Raise (OSError msg)
       | _ => Ok tt
       end, w') /\
    stdout w' = stdout w /\ heap w' = heap w /\ faults w' = drop 1 (faults w).
Proof.
  intros Hact. unfold file_op. destruct (faults w) as [|[msg|] coming] eqn:Hf; cbn.
  - eexists. split; [reflexivity|]. destruct (Hact w) as (Ho & Hh & Hfa).
    rewrite Ho, Hh, Hfa. auto.
  - eexists. split; [reflexivity|]. cbn. auto.
  - eexists. split; [reflexivity|].
    destruct (Hact (set_faults (fun _ => coming) w)) as (Ho & Hh & Hfa).
    rewrite Ho, Hh, Hfa. cbn. rewrite drop_0. auto.
Qed.

Lemma file_write_next (filename text : string) (w : world) :
  exists w' : world,
    file_write filename text w =
      (match faults w !! 0%nat with
       | Some (Some msg) => Raise (OSError msg)
       | _ => Ok tt
       end, w') /\
    stdout w' = stdout w /\ heap w' = heap w /\ faults w' = drop 1 (faults w).
Proof. apply file_op_next. intros w0. cbn. auto. Qed.

(** Writes that the schedule lets succeed. *)
Lemma write_all_succeeds (filename : string) (texts : list string) :
  forall w : world,
    Forall (fun f => f = None) (take (length texts) (faults w)) ->
    exists w' : world,
      write_all filename texts w = (Ok tt, w') /\
      stdout w' = stdout w /\ heap w' = heap w /\
      faults w' = drop (length texts) (faults w).
Proof.
  induction texts as [|text rest IH]; intros w Hclear.
  - exists w. cbn. auto.
  - cbn [write_all length].
    destruct (file_write_next filename text w) as (w1 & Hw & Ho1 & Hh1 & Hf1).
    rewrite Hw. cbn [length] in Hclear.
    destruct (faults w) as [|f0 coming] eqn:Hf.
    + cbn. destruct (IH w1) as (w' & Hrun & Ho & Hh & Hf').
      { rewrite Hf1. cbn. rewrite take_nil. constructor. }
      exists w'. split; [exact Hrun|]. rewrite Ho, Hh, Hf', Hf1. cbn.
      rewrite drop_nil. auto.
    + cbn [take] in Hclear. inversion Hclear as [|? ? H0 Hrest]; subst.
      cbn. destruct (IH w1) as (w' & Hrun & Ho & Hh & Hf').
      { rewrite Hf1. cbn. rewrite drop_0. exact Hrest. }
      exists w'. split; [exact Hrun|]. rewrite Ho, Hh, Hf', Hf1. cbn.
      rewrite drop_0. auto.
Qed.

(** Writes of which the one of index [j] is the first to fail: the
    exception carries the message of that entry of the schedule, and the
    later texts are not written. *)
Lemma write_all_fails (filename : string) (texts : list string) :
  forall (w : world) (j : nat) (msg : string),
    (j < length texts)%nat ->
    Forall (fun f => f = None) (take j (faults w)) ->
    faults w !! j = Some (Some msg) ->
    exists w' : world,
      write_all filename texts w = (Raise (OSError msg), w') /\
      stdout w' = stdout w /\ heap w' = heap w /\
      faults w' = drop (S j) (faults w).
Proof.
  induction texts as [|text rest IH]; intros w j msg Hj Hclear Hat.
  - cbn in Hj. lia.
  - cbn [write_all].
    destruct (file_write_next filename text w) as (w1 & Hw & Ho1 & Hh1 & Hf1).
    rewrite Hw. destruct (faults w) as [|f0 coming] eqn:Hf; [discriminate|].
    destruct j as [|j].
    + cbn in Hat. injection Hat as ->. cbn.
      exists w1. split; [reflexivity|]. rewrite Hf1. cbn. rewrite drop_0. auto.
    + cbn [take] in Hclear. inversion Hclear as [|? ? H0 Hrest]; subst.
      cbn in Hat. cbn [lookup list_lookup].
      destruct (IH w1 j msg) as (w' & Hrun & Ho & Hh & Hf').
      { cbn [length] in Hj. lia. }
      { rewrite Hf1. cbn. rewrite drop_0. exact Hrest. }
      { rewrite Hf1. cbn. rewrite drop_0. exact Hat. }
      exists w'. split; [exact Hrun|]. rewrite Ho, Hh, Hf', Hf1. cbn.
      rewrite drop_0. auto.
Qed.

Lemma write_all_app (filename : string) (xs ys : list string) (w : world) :
  write_all filename (xs ++ ys) w =
    match write_all filename xs w with
    | (Ok _, w') => write_all filename ys w'
    | (Raise e, w') => (Raise e, w')
    end.
Proof.
  revert w. induction xs as [|x xs IH]; intros w; [reflexivity|].
  cbn [app write_all]. destruct (file_write filename x w) as [[[]|e] w1]; [apply IH | reflexivity].
Qed.

(** When the total has a text, the body of the [with] statement is the
    sequence of its [f.write] calls. *)
Lemma save_body_writes (hs : list holding) (total_value : pynum)
  (total_text filename : string) (w : world) :
  format_total total_value = Ok total_text ->
  save_body hs total_value filename w =
    write_all filename
      (file_rows hs ++
       [ "Total Investment Value: $" +:+ total_text +:+ Text.nl;
         rule "="%char +:+ Text.nl ]) w.
Proof.
  intros Hfmt. unfold save_body. rewrite write_all_app, Hfmt.
  destruct (write_all filename (file_rows hs) w) as [[[]|e] w1]; reflexivity.
Qed.

(** The save when no file operation fails: what it prints. *)
Lemma save_succeeds (portfolio : list ref) (total_value : pynum)
  (total_text filename : string) (w : world) :
  format_total total_value = Ok total_text ->
  Forall (fun f => f = None)
    (take (save_operations (holdings (heap w) portfolio)) (faults w)) ->
  exists w' : world,
    save_results_to_file portfolio total_value filename w = (Ok tt, w') /\
    heap w' = heap w /\
    stdout w' = stdout w ++ [saved_msg filename +:+ Text.nl].
Proof.
  intros Hfmt Hclear. unfold save_results_to_file, save_operations in *.
  pose proof (with_open_effect (length (file_rows (holdings (heap w) portfolio)) + 2)
                filename (save_body (holdings (heap w) portfolio) total_value filename) w
                (fun w1 => save_body_effect _ _ _ _ w1 Hfmt)) as Heff.
  destruct (with_open _ _ w) as [[[]|e] w1].
  - destruct Heff as (Ho & Hh & _). cbn in Ho, Hh.
    eexists. split; [reflexivity|]. split; [exact Hh|]. cbn. rewrite Ho. reflexivity.
  - destruct Heff as (_ & _ & msg & k & _ & Hk & _ & Hin). exfalso.
    match type of Hclear with Forall _ (take ?n _) =>
      replace k with (k `min` n)%nat in Hin by lia; rewrite <- take_take in Hin end.
    apply subseteq_take in Hin.
    rewrite Forall_forall in Hclear. specialize (Hclear _ Hin). discriminate.
Qed.

(** The save when operation [k] is the first to fail, with [msg]: the
    exception that leaves the [with] statement is an [OSError]; it
    carries [msg], unless the failed operation is a write and the
    closing of the file, which is then attempted, fails too: then it
    carries the message of the closing. *)
Lemma save_first_failure (portfolio : list ref) (total_value : pynum)
  (total_text filename : string) (w : world) (k : nat) (msg : string) :
  format_total total_value = Ok total_text ->
  (k < save_operations (holdings (heap w) portfolio))%nat ->
  Forall (fun f => f = None) (take k (faults w)) ->
  faults w !! k = Some (Some msg) ->
  exists w1 : world,
    with_open filename (save_body (holdings (heap w) portfolio) total_value filename) w =
      (Raise (OSError
         (if (0 <? k)%nat && (k <? save_operations (holdings (heap w) portfolio) - 1)%nat
          then match faults w !! (k + 1)%nat with
               | Some (Some msg2) => msg2
               | _ => msg
               end
          else msg)), w1) /\
    stdout w1 = stdout w /\ heap w1 = heap w.
Proof.
  intros Hfmt Hk Hclear Hat. unfold save_operations in *.
  set (hs := holdings (heap w) portfolio) in *.
  pose proof (fun w0 => save_body_writes hs total_value total_text filename w0 Hfmt) as Hbody.
  set (texts := file_rows hs ++
                [ "Total Investment Value: $" +:+ total_text +:+ Text.nl;
                  rule "="%char +:+ Text.nl ]) in *.
  assert (Hlen : (length (file_rows hs) + 2)%nat = length texts)
    by (unfold texts; rewrite length_app; reflexivity).
  rewrite Hlen in Hk |- *. clearbody texts. clear Hlen.
  unfold with_open.
  destruct (file_op_next (set_disk (fun d => <[filename := EmptyString]> d)) w)
    as (w1 & Hopen & Ho1 & Hh1 & Hf1); [intros w0; cbn; auto|].
  unfold file_open. rewrite Hopen.
  destruct k as [|k].
  { rewrite Hat. cbn [Nat.ltb Nat.leb andb]. exists w1. auto. }
  destruct (faults w) as [|f0 coming] eqn:Hf; [discriminate|].
  cbn [take] in Hclear. inversion Hclear as [|? ? H0 Hrest]; subst.
  cbn [lookup list_lookup]. cbn [lookup list_lookup] in Hat.
  cbn [drop] in Hf1. rewrite drop_0 in Hf1.
  change (0 <? S k)%nat with true. cbn [andb].
  rewrite Hbody. clear Hbody.
  destruct (Nat.ltb_spec (S k) (1 + length texts + 1 - 1)) as [Hin|Hlast].
  - destruct (write_all_fails filename texts w1 k msg) as (w2 & Hrun & Ho2 & Hh2 & Hf2).
    { lia. }
    { rewrite Hf1. exact Hrest. }
    { rewrite Hf1. exact Hat. }
    rewrite Hrun.
    destruct (file_op_next (fun w0 => w0) w2) as (w3 & Hclose & Ho3 & Hh3 & _);
      [intros w0; auto|].
    unfold file_close. rewrite Hclose.
    assert (Hhead : faults w2 !! 0%nat = (None :: coming) !! (S k + 1)%nat).
    { rewrite Hf2, Hf1, lookup_drop.
      replace (S k + 1)%nat with (S (S k + 0)) by lia. reflexivity. }
    rewrite Hhead. exists w3.
    split; [|split; congruence].
    destruct ((None :: coming) !! (S k + 1)%nat) as [[msg2|]|]; reflexivity.
  - assert (Hk' : k = length texts) by lia. subst k.
    destruct (write_all_succeeds filename texts w1) as (w2 & Hrun & Ho2 & Hh2 & Hf2).
    { rewrite Hf1. exact Hrest. }
    rewrite Hrun.
    destruct (file_op_next (fun w0 => w0) w2) as (w3 & Hclose & Ho3 & Hh3 & _);
      [intros w0; auto|].
    unfold file_close. rewrite Hclose.
    assert (Hhead : faults w2 !! 0%nat = Some (Some msg)).
    { rewrite Hf2, Hf1, lookup_drop. rewrite Nat.add_0_r. exact Hat. }
    rewrite Hhead. exists w3. split; [reflexivity|]. split; congruence.
Qed.

(** C9: [save_results_to_file], when the total has a text.  If no file
    operation of the save fails (the opening, the writes, the closing)
    it returns normally and prints the line labelled [SUCCESS].  If
    operation [k] is the first to fail, with message [msg], it returns
    normally as well, leaves the store untouched and prints one line,
    labelled [ERROR] and ending with the message of the exception
    caught: [msg], or the message of the closing of the file when a
    write failed and the closing, attempted on the way out of the
    [with] statement, fails too.  [main] returns normally after a save,
    whatever the file operations did, and no run of [main] ends on an
    uncaught [OSError]. *)
Theorem save_failure_is_reported :
  (forall (portfolio : list ref) (total_value : pynum) (total_text filename : string)
          (w : world),
      format_total total_value = Ok total_text ->
      (Forall (fun f => f = None)
         (take (save_operations (holdings (heap w) portfolio)) (faults w)) ->
       exists w' : world,
         save_results_to_file portfolio total_value filename w = (Ok tt, w') /\
         heap w' = heap w /\
         stdout w' =
           stdout w ++
           [Text.nl +:+ "[SUCCESS] Report successfully saved to " +:+ filename +:+ Text.nl]) /\
      (forall (k : nat) (msg : string),
         (k < save_operations (holdings (heap w) portfolio))%nat ->
         Forall (fun f => f = None) (take k (faults w)) ->
         faults w !! k = Some (Some msg) ->
         exists w' : world,
           save_results_to_file portfolio total_value filename w = (Ok tt, w') /\
           heap w' = heap w /\
           stdout w' =
             stdout w ++
             [Text.nl +:+ "[ERROR] An error occurred while saving the file: " +:+
              (if (0 <? k)%nat &&
                  (k <? save_operations (holdings (heap w) portfolio) - 1)%nat
               then match faults w !! (k + 1)%nat with
                    | Some (Some msg2) => msg2
                    | _ => msg
                    end
               else msg) +:+ Text.nl])) /\
  (forall (portfolio : list ref) (total_value : pynum) (total_text line : string)
          (rest : list string) (w : world),
      format_total total_value = Ok total_text ->
      Text.lower (Text.strip line) = "y"%string ->
      ending_of (save_step portfolio total_value (line :: rest) w) = Returned) /\
  (forall (lines : list string) (w : world) (e : exn),
      ending_of (main lines w) = Uncaught e -> is_os_error e = false).
Proof.
  split; [|split].
  - intros portfolio total_value total_text filename w Hfmt. split.
    + intros Hclear.
      destruct (save_succeeds portfolio total_value total_text filename w Hfmt Hclear)
        as (w' & Hrun & Hh & Ho).
      exists w'. split; [exact Hrun|]. split; [exact Hh|]. rewrite Ho. reflexivity.
    + intros k msg Hk Hclear Hat.
      destruct (save_first_failure portfolio total_value total_text filename w k msg
                  Hfmt Hk Hclear Hat) as (w1 & Hrun & Ho & Hh).
      unfold save_results_to_file. rewrite Hrun.
      eexists. split; [reflexivity|]. split; [exact Hh|].
      unfold print, set_stdout. cbn [stdout]. rewrite Ho. reflexivity.
  - intros portfolio total_value total_text line rest w Hfmt Hy.
    cbn [save_step]. rewrite Hy. cbn [String.eqb Ascii.eqb Bool.eqb].
    destruct (save_results_effect portfolio total_value total_text default_filename
                (show_prompt save_prompt w) Hfmt) as (w' & -> & _).
    reflexivity.
  - intros lines w e. unfold main.
    pose proof (resume_no_os_error lines AwaitingTicker []) as Hcoll.
    cbn [resume] in Hcoll. unfold get_user_portfolio.
    match goal with |- context [ticker_loop lines [] ?w0] =>
      specialize (Hcoll w0); destruct (ticker_loop lines [] w0) as [[p|e0] rest w1] end.
    2:{ cbn. intros [= <-]. apply Hcoll. reflexivity. }
    destruct p as [|r p]; [discriminate|].
    set (total := calculate_portfolio_value (heap w1) (r :: p)).
    destruct (calculate_portfolio_weights (r :: p) total (heap w1)) as [hp|e1] eqn:Hwt.
    2:{ cbn. intros [= <-]. unfold calculate_portfolio_weights in Hwt.
        destruct (Num.is_zero total); [discriminate|].
        eapply assign_weights_no_os_error. exact Hwt. }
    destruct (format_total_sum (map value (holdings (heap w1) (r :: p)))) as (text & Hfmt).
    fold (calculate_portfolio_value (heap w1) (r :: p)) in Hfmt. fold total in Hfmt.
    rewrite Hfmt. cbv zeta.
    match goal with |- context [save_step _ _ rest ?w2] => generalize w2 end.
    intros w2. destruct rest as [|line rest]; cbn [save_step].
    + cbn. intros [= <-]. reflexivity.
    + destruct (String.eqb _ _); [|discriminate].
      destruct (save_results_effect (r :: p) total text default_filename
                  (show_prompt save_prompt w2) Hfmt) as (w' & -> & _).
      discriminate.
Qed.

Lemma save_failure_is_reported_witness :
  (exists w' : world,
     save_results_to_file [] (PyFloat Float.zero) "portfolio_summary.txt"
       (initial_world ∅ [None; Some "No space left on device"; Some "Input/output error"]) =
       (Ok tt, w') /\
     stdout w' =
       [Text.nl +:+
        "[ERROR] An error occurred while saving the file: Input/output error" +:+
        Text.nl]) /\
  ending_of (save_step [] (PyFloat Float.zero) [" Y "]
               (initial_world ∅ [None; Some "No space left on device"])) = Returned.
Proof.
  destruct save_failure_is_reported as (Hsave & Hstep & _). split.
  - destruct (Hsave [] (PyFloat Float.zero) "0.00"%string "portfolio_summary.txt"%string
                (initial_world ∅ [None; Some "No space left on device";
                                  Some "Input/output error"]) eq_refl)
      as [_ Hfail].
    destruct (Hfail 1%nat "No space left on device"%string) as (w' & Hrun & _ & Hout).
    + vm_compute. lia.
    + repeat constructor.
    + reflexivity.
    + exists w'. split; [exact Hrun|]. rewrite Hout. reflexivity.
  - apply (Hstep [] (PyFloat Float.zero) "0.00"%string); reflexivity.
Defined.

(** ** The example of the specification *)

(** C5: for the entries NVDA 2 and V 10 the two values are the doubles
    1751.0 and 2701.5, the total is the double 4452.5, exactly, and the
    weights are displayed as 39.33 and 60.67; as exact numbers they lie
    within half a hundredth of 39.33 and of 60.67. *)
Theorem example_total_and_weights :
  res example_session = Ok [0; 1]%nat /\
  map (fun h => (ticker h, quantity h, Qred (Float.to_Q (value h))))
      (heap (after example_session))
    = [("NVDA"%string, 2, (1751 # 1)%Q); ("V"%string, 10, (5403 # 2)%Q)] /\
  exists (total w1 w2 : float) (hp : list holding),
    calculate_portfolio_value (heap (after example_session)) [0; 1]%nat = PyFloat total /\
    total = Float.literal 445250 2 /\
    Qred (Float.to_Q total) = (8905 # 2)%Q /\
    Float.fixed2 true total = "4,452.50"%string /\
    calculate_portfolio_weights [0; 1]%nat (PyFloat total) (heap (after example_session)) = Ok hp /\
    map weight hp = [w1; w2] /\
    map (fun h => Float.fixed2 false (weight h)) hp = ["39.33"; "60.67"]%string /\
    (Qabs (Float.to_Q w1 - (3933 # 100)) < 1 # 200)%Q /\
    (Qabs (Float.to_Q w2 - (6067 # 100)) < 1 # 200)%Q.
Proof.
  split; [vm_compute; reflexivity|].
  split; [vm_compute; reflexivity|].
  eexists _, _, _, _.
  split; [vm_compute; reflexivity|].
  split; [vm_compute; reflexivity|].
  split; [vm_compute; reflexivity|].
  split; [vm_compute; reflexivity|].
  split; [vm_compute; reflexivity|].
  split; [vm_compute; reflexivity|].
  split; [vm_compute; reflexivity|].
  split; vm_compute; reflexivity.
Qed.

(** The whole program on the session of the example, answered with [n]:
    it returns normally and the report shows these two rows and this
    total. *)
Example report_of_example :
  let r := main ["NVDA"; "2"; "V"; "10"; "done"; "n"]%string (initial_world ∅ []) in
  ending_of r = Returned /\
  map report_row (heap (world_of r)) =
    [ "NVDA      2         875.50    1751.00        39.33          ";
      "V         10        270.15    2701.50        60.67          " ]%string /\
  last (stdout (world_of r)) = Some (skipped_msg +:+ Text.nl) /\
  ("Total Portfolio Value: $4,452.50" +:+ Text.nl) ∈ stdout (world_of r).
Proof.
  cbv zeta. split; [vm_compute; reflexivity|]. split; [vm_compute; reflexivity|].
  split; [vm_compute; reflexivity|].
  apply list_elem_of_lookup. exists 19%nat. vm_compute. reflexivity.
Qed.

(** The same session answered with [y] when the second file operation
    fails: the error is reported and the program returns normally. *)
Example failed_save_of_example :
  let r := main ["NVDA"; "2"; "V"; "10"; "done"; "y"]%string
             (initial_world ∅ [None; Some "[Errno 28] No space left on device"%string]) in
  ending_of r = Returned /\
  last (stdout (world_of r)) =
    Some (Text.nl +:+
          "[ERROR] An error occurred while saving the file: [Errno 28] No space left on device" +:+
          Text.nl).
Proof.
  cbv zeta. split; vm_compute; reflexivity.
Qed.

(** ** Rounding in binary64 *)

Lemma bpow_pos (e : Z) : (0 < bpow e)%Q.
Proof. apply Qpower_0_lt. reflexivity. Qed.

Lemma bpow_add (a b : Z) : (bpow (a + b) == bpow a * bpow b)%Q.
Proof. apply Qpower_plus. discriminate. Qed.

Lemma bpow_0 : (bpow 0 == 1)%Q.
Proof. reflexivity. Qed.

Lemma bpow_1 : (bpow 1 == 2)%Q.
Proof. reflexivity. Qed.

Lemma bpow_m1 : (bpow (-1) == 1 # 2)%Q.
Proof. reflexivity. Qed.

Lemma bpow_cancel (e : Z) : (bpow e * bpow (- e) == 1)%Q.
Proof. rewrite <- bpow_add, Z.add_opp_diag_r. reflexivity. Qed.

Lemma bpow_le (a b : Z) : a <= b -> (bpow a <= bpow b)%Q.
Proof. intros H. apply Qpower_le_compat_l; [exact H | discriminate]. Qed.

Lemma bpow_lt (a b : Z) : a < b -> (bpow a < bpow b)%Q.
Proof. intros H. apply Qpower_lt_compat_l; [exact H | reflexivity]. Qed.

Lemma bpow_lt_inv (a b : Z) : (bpow a < bpow b)%Q -> a < b.
Proof. intros H. eapply Qpower_lt_compat_l_inv; [exact H | reflexivity]. Qed.

Lemma bpow_le_inv (a b : Z) : (bpow a <= bpow b)%Q -> a <= b.
Proof. intros H. eapply Qpower_le_compat_l_inv; [exact H | reflexivity]. Qed.

Lemma bpow_inject (e : Z) : 0 <= e -> (bpow e == inject_Z (2 ^ e))%Q.
Proof. intros H. unfold bpow. rewrite Zpower_Qpower by exact H. reflexivity. Qed.

Lemma inject_Z_lt_inv (a b : Z) : (inject_Z a < inject_Z b)%Q -> a < b.
Proof. rewrite <- Zlt_Qlt. auto. Qed.

Lemma inject_Z_le_inv (a b : Z) : (inject_Z a <= inject_Z b)%Q -> a <= b.
Proof. rewrite <- Zle_Qle. auto. Qed.

(** The number of binary digits of a mantissa. *)
Lemma digits2_pos_size (p : positive) : digits2_pos p = Pos.size p.
Proof. induction p; cbn; congruence. Qed.

Lemma digits_bounds (p : positive) :
  2 ^ (Z.pos (digits2_pos p) - 1) <= Z.pos p < 2 ^ Z.pos (digits2_pos p).
Proof.
  rewrite digits2_pos_size. split.
  - pose proof (Pos.size_le p) as H.
    apply Pos2Z.pos_le_pos in H. rewrite Pos2Z.inj_pow in H.
    replace (Z.pos (Pos.size p)) with (Z.pos (Pos.size p) - 1 + 1) in H by lia.
    rewrite Z.pow_add_r in H by lia. change (Z.pos p~0) with (2 * Z.pos p) in H. lia.
  - pose proof (Pos.size_gt p) as H.
    apply Pos2Z.pos_lt_pos in H. rewrite Pos2Z.inj_pow in H. exact H.
Qed.

Lemma digits_unique (p : positive) (d : Z) :
  2 ^ (d - 1) <= Z.pos p < 2 ^ d -> Z.pos (digits2_pos p) = d.
Proof.
  intros [Hlo Hhi]. pose proof (digits_bounds p) as [Hlo' Hhi'].
  assert (0 < d).
  { destruct (Z.ltb_spec 0 d) as [|Hd]; [assumption|].
    assert (2 ^ d <= 2 ^ 0) by (destruct (Z.ltb_spec d 0);
      [rewrite Z.pow_neg_r by assumption; cbn; lia | apply Z.pow_le_mono_r; lia]).
    cbn in *. lia. }
  assert (d - 1 < Z.pos (digits2_pos p)).
  { apply (Z.pow_lt_mono_r_iff 2); lia. }
  assert (Z.pos (digits2_pos p) - 1 < d).
  { apply (Z.pow_lt_mono_r_iff 2); lia. }
  lia.
Qed.

Lemma located_ext (x y : Q) (mrs : shr_record) :
  (x == y)%Q -> located x mrs -> located y mrs.
Proof.
  intros Hxy. unfold located. destruct (shr_r mrs), (shr_s mrs); cbv zeta;
    rewrite Hxy; auto.
Qed.

Lemma located_bounds (x : Q) (mrs : shr_record) :
  located x mrs -> (inject_Z (shr_m mrs) <= x < inject_Z (shr_m mrs) + 1)%Q.
Proof.
  unfold located. destruct (shr_r mrs), (shr_s mrs); cbv zeta; intros H; lra.
Qed.

Lemma inject_Z_xO (p : positive) : (inject_Z (Z.pos p~0) == 2 * inject_Z (Z.pos p))%Q.
Proof. rewrite Pos2Z.inj_xO, inject_Z_mult. reflexivity. Qed.

Lemma inject_Z_xI (p : positive) : (inject_Z (Z.pos p~1) == 2 * inject_Z (Z.pos p) + 1)%Q.
Proof. rewrite Pos2Z.inj_xI, inject_Z_plus, inject_Z_mult. reflexivity. Qed.

(** One step of right shift halves the number and keeps the record
    truthful. *)
Lemma located_shr_1 (x : Q) (mrs : shr_record) :
  0 <= shr_m mrs -> located x mrs ->
  located (x * (1 # 2)) (shr_1 mrs) /\ 0 <= shr_m (shr_1 mrs).
Proof.
  destruct mrs as [m r s]. cbn [shr_m]. intros Hm.
  destruct m as [|p|p]; [| |lia].
  - unfold located. destruct r, s; cbn; change (inject_Z 0) with 0%Q;
      intros H; (split; [lra | lia]).
  - unfold located. destruct p as [p|p|]; destruct r, s;
      cbn [shr_1 shr_m shr_r shr_s orb]; cbv zeta; intros H;
      try rewrite inject_Z_xI in H; try rewrite inject_Z_xO in H;
      change (inject_Z 1) with 1%Q in *; change (inject_Z 0) with 0%Q in *;
      (split; [lra | lia]).
Qed.

Lemma bpow_neg_xO (p : positive) :
  (bpow (Z.neg p~0) == bpow (Z.neg p) * bpow (Z.neg p))%Q.
Proof. rewrite <- bpow_add. replace (Z.neg p~0) with (Z.neg p + Z.neg p) by lia. reflexivity. Qed.

Lemma bpow_neg_xI (p : positive) :
  (bpow (Z.neg p~1) == (1 # 2) * (bpow (Z.neg p) * bpow (Z.neg p)))%Q.
Proof.
  rewrite <- bpow_add, <- bpow_m1, <- bpow_add.
  replace (Z.neg p~1) with (-1 + (Z.neg p + Z.neg p)) by lia. reflexivity.
Qed.

(** [n] steps divide by [2 ^ n]. *)
Lemma located_iter_shr (n : positive) :
  forall (x : Q) (mrs : shr_record),
    0 <= shr_m mrs -> located x mrs ->
    located (x * bpow (Z.neg n)) (SpecFloat.iter_pos shr_1 n mrs) /\
    0 <= shr_m (SpecFloat.iter_pos shr_1 n mrs).
Proof.
  induction n as [n IH|n IH|]; intros x mrs Hm Hx; cbn [SpecFloat.iter_pos].
  - destruct (located_shr_1 x mrs Hm Hx) as [H1 Hm1].
    destruct (IH _ _ Hm1 H1) as [H2 Hm2].
    destruct (IH _ _ Hm2 H2) as [H3 Hm3].
    split; [|exact Hm3]. eapply located_ext; [|exact H3].
    rewrite bpow_neg_xI. ring.
  - destruct (IH _ _ Hm Hx) as [H2 Hm2].
    destruct (IH _ _ Hm2 H2) as [H3 Hm3].
    split; [|exact Hm3]. eapply located_ext; [|exact H3].
    rewrite bpow_neg_xO. ring.
  - destruct (located_shr_1 x mrs Hm Hx) as [H1 Hm1].
    split; [|exact Hm1]. eapply located_ext; [|exact H1].
    change (bpow (Z.neg 1)) with (bpow (-1)). rewrite bpow_m1. reflexivity.
Qed.

(** [shr]: a shift by [n] places when [n] is positive, nothing otherwise. *)
Lemma located_shr (x : Q) (mrs : shr_record) (e n : Z) :
  0 <= shr_m mrs -> located (x * bpow (- e)) mrs ->
  let e' := e + Z.max n 0 in
  snd (shr mrs e n) = e' /\
  located (x * bpow (- e')) (fst (shr mrs e n)) /\
  0 <= shr_m (fst (shr mrs e n)).
Proof.
  intros Hm Hx. destruct n as [|n|n]; cbn [shr fst snd Z.max].
  - rewrite Z.add_0_r. auto.
  - destruct (located_iter_shr n _ _ Hm Hx) as [H1 Hm1].
    replace (Z.max (Z.pos n) 0) with (Z.pos n) by lia.
    split; [reflexivity|]. split; [|exact Hm1].
    eapply located_ext; [|exact H1].
    rewrite <- Qmult_assoc, <- bpow_add.
    replace (- (e + Z.pos n)) with (- e + Z.neg n) by lia. reflexivity.
  - replace (Z.max (Z.neg n) 0) with 0 by lia. rewrite Z.add_0_r. auto.
Qed.

Lemma between_integers (a k : Z) :
  (inject_Z a < inject_Z k)%Q -> (inject_Z k < inject_Z a + 1)%Q -> False.
Proof.
  intros H1 H2. apply inject_Z_lt_inv in H1.
  change 1%Q with (inject_Z 1) in H2. rewrite <- inject_Z_plus in H2.
  apply inject_Z_lt_inv in H2. lia.
Qed.

(** Rounding to nearest, ties to even, of a located number: the result is
    one of the two neighbouring integers, at most one half away, and the
    number itself when it is an integer. *)
Lemma round_located (x : Q) (mrs : shr_record) :
  located x mrs ->
  let m1 := round_nearest_even (shr_m mrs) (loc_of_shr_record mrs) in
  shr_m mrs <= m1 <= shr_m mrs + 1 /\
  (Qabs (inject_Z m1 - x) <= 1 # 2)%Q /\
  (forall k : Z, (x == inject_Z k)%Q -> m1 = k).
Proof.
  destruct mrs as [m r s]. unfold located. cbn [shr_m shr_r shr_s loc_of_shr_record].
  destruct r, s; cbn [round_nearest_even]; cbv zeta; intros H.
  - split; [lia|]. split.
    + apply Qabs_Qle_condition. rewrite inject_Z_plus. change (inject_Z 1) with 1%Q. lra.
    + intros k Hk. exfalso. rewrite Hk in H. apply (between_integers m k); lra.
  - split; [destruct (Z.even m); lia|]. split.
    + apply Qabs_Qle_condition. destruct (Z.even m);
        [|rewrite inject_Z_plus; change (inject_Z 1) with 1%Q]; lra.
    + intros k Hk. exfalso. rewrite Hk in H. apply (between_integers m k); lra.
  - split; [lia|]. split.
    + apply Qabs_Qle_condition. lra.
    + intros k Hk. exfalso. rewrite Hk in H. apply (between_integers m k); lra.
  - split; [lia|]. split.
    + apply Qabs_Qle_condition. lra.
    + intros k Hk. apply inject_Z_injective. rewrite <- H. exact Hk.
Qed.

Lemma fexp_normal (z : Z) :
  -1074 <= z - 53 -> fexp Float.prec Float.emax z = z - 53.
Proof. unfold fexp, emin, Float.prec, Float.emax. lia. Qed.

Lemma shr_m_of_loc (m : Z) (l : location) : shr_m (shr_record_of_loc m l) = m.
Proof. destruct l as [|[]]; reflexivity. Qed.

Lemma F2Q_scale (m a b : Z) : (F2Q m (a + b) == F2Q m a * bpow b)%Q.
Proof. unfold F2Q. rewrite bpow_add. ring. Qed.

(** The core of every operation: [binary_round_aux] on a mantissa of at
    least 53 digits whose rounded value is not below the normal range.
    [x] is the number that the mantissa, the exponent and the location
    describe.  The result is the infinity of the same sign when the
    exponent found is above 971, and otherwise a double with a 53-digit
    mantissa, at most half a unit of its last place from [x], and equal
    to [x] when [x] is a multiple of that unit. *)
Lemma round_aux_normal (s : bool) (m : positive) (e : Z) (l : location) (x : Q) :
  let d := Z.pos (digits2_pos m) in
  53 <= d -> -1074 <= d + e - 53 ->
  located (x * bpow (- e)) (shr_record_of_loc (Z.pos m) l) ->
  exists (m' : positive) (e' : Z),
    binary_round_aux Float.prec Float.emax s (Z.pos m) e l =
      (if e' <=? 971 then S754_finite s m' e' else S754_infinity s) /\
    Z.pos (digits2_pos m') = 53 /\
    d + e - 53 <= e' <= d + e - 52 /\
    (Qabs (F2Q (Z.pos m') e' - x) <= (1 # 2) * bpow (d + e - 53))%Q /\
    (forall k : Z, (x == F2Q k (d + e - 53))%Q -> (F2Q (Z.pos m') e' == x)%Q).
Proof.
  intros d Hd Hnorm Hloc.
  set (e1 := d + e - 53) in *.
  pose proof (digits_bounds m) as [Hmlo Hmhi]. fold d in Hmlo, Hmhi.
  (* the first shift *)
  assert (Hm0 : 0 <= shr_m (shr_record_of_loc (Z.pos m) l))
    by (rewrite shr_m_of_loc; lia).
  destruct (located_shr x _ e (e1 - e) Hm0 Hloc) as (He' & Hy & Hm').
  replace (e + Z.max (e1 - e) 0) with e1 in He', Hy by lia.
  (* the shifted number lies between 2^52 and 2^53 *)
  set (y := (x * bpow (- e1))%Q) in *.
  assert (Hybounds : (bpow 52 <= y /\ y < bpow 53)%Q).
  { apply located_bounds in Hloc. rewrite shr_m_of_loc in Hloc.
    assert (Hy' : (y == x * bpow (- e) * bpow (53 - d))%Q).
    { unfold y. rewrite <- Qmult_assoc, <- bpow_add.
      replace (- e + (53 - d)) with (- e1) by lia. reflexivity. }
    assert (Hlo : (bpow (d - 1) <= x * bpow (- e))%Q).
    { rewrite (bpow_inject (d - 1)) by lia. eapply Qle_trans; [|apply Hloc].
      rewrite <- Zle_Qle. exact Hmlo. }
    assert (Hhi : (x * bpow (- e) < bpow d)%Q).
    { rewrite (bpow_inject d) by lia. eapply Qlt_le_trans; [apply Hloc|].
      change 1%Q with (inject_Z 1). rewrite <- inject_Z_plus, <- Zle_Qle. lia. }
    pose proof (bpow_pos (53 - d)) as Hpos.
    rewrite Hy'. split.
    - replace 52 with (d - 1 + (53 - d)) by lia. rewrite bpow_add.
      apply Qmult_le_compat_r; [exact Hlo | apply Qlt_le_weak; exact Hpos].
    - replace 53 with (d + (53 - d)) at 2 by lia. rewrite bpow_add.
      apply Qmult_lt_compat_r; [exact Hpos | exact Hhi]. }
  unfold binary_round_aux, shr_fexp at 1. cbn [Zdigits2].
  rewrite fexp_normal by (fold d; lia). fold d. fold e1.
  destruct (shr (shr_record_of_loc (Z.pos m) l) e (e1 - e)) as [mrs' e'].
  cbn [fst snd] in He', Hy, Hm'. subst e'.
  destruct (round_located y mrs' Hy) as (Hm1 & Herr & Hexact).
  set (m1 := round_nearest_even (shr_m mrs') (loc_of_shr_record mrs')) in *.
  apply located_bounds in Hy.
  assert (Hm'lo : 2 ^ 52 <= shr_m mrs').
  { assert (2 ^ 52 < shr_m mrs' + 1); [|lia].
    apply inject_Z_lt_inv. rewrite <- bpow_inject by lia.
    rewrite inject_Z_plus. change (inject_Z 1) with 1%Q. lra. }
  assert (Hm'hi : shr_m mrs' < 2 ^ 53).
  { apply inject_Z_lt_inv. rewrite <- bpow_inject by lia. lra. }
  (* the value of the result, whatever the second shift does *)
  assert (Hx : (x == y * bpow e1)%Q).
  { unfold y. rewrite <- Qmult_assoc, (Qmult_comm (bpow (- e1))), bpow_cancel. ring. }
  assert (Hval : (Qabs (F2Q m1 e1 - x) <= (1 # 2) * bpow e1)%Q).
  { assert (Heq : (F2Q m1 e1 - x == (inject_Z m1 - y) * bpow e1)%Q)
      by (unfold F2Q; rewrite Hx; ring).
    rewrite Heq, Qabs_Qmult, (Qabs_pos (bpow e1)) by (apply Qlt_le_weak, bpow_pos).
    apply Qmult_le_compat_r; [exact Herr | apply Qlt_le_weak, bpow_pos]. }
  assert (Hrep : forall k : Z, (x == F2Q k e1)%Q -> (F2Q m1 e1 == x)%Q).
  { intros k Hk. assert (Hyk : (y == inject_Z k)%Q).
    { unfold y. rewrite Hk. unfold F2Q. rewrite <- Qmult_assoc, bpow_cancel. ring. }
    rewrite (Hexact k Hyk). symmetry. exact Hk. }
  destruct (Z.ltb_spec m1 (2 ^ 53)) as [Hlt|Hge].
  - (* no carry: the mantissa has 53 digits and the second shift is idle *)
    destruct m1 as [|p1|p1] eqn:Hp1; [lia| |lia].
    assert (Hdig : Z.pos (digits2_pos p1) = 53) by (apply digits_unique; lia).
    exists p1, e1. unfold shr_fexp. cbn [Zdigits2 shr_record_of_loc].
    rewrite Hdig, fexp_normal by lia.
    replace (53 + e1 - 53 - e1) with 0 by lia. cbn [shr shr_m].
    split; [reflexivity|]. split; [reflexivity|]. split; [lia|]. split; assumption.
  - (* carry: the mantissa is 2^53 and the second shift halves it *)
    assert (Hm1eq : m1 = 2 ^ 53) by lia.
    exists (2 ^ 52)%positive, (e1 + 1).
    rewrite Hm1eq in *. unfold shr_fexp.
    change (Zdigits2 (2 ^ 53)) with 54. rewrite fexp_normal by lia.
    replace (54 + e1 - 53 - e1) with 1 by lia.
    split; [reflexivity|]. split; [reflexivity|]. split; [lia|].
    assert (Hsame : (F2Q (Z.pos (2 ^ 52)) (e1 + 1) == F2Q (2 ^ 53) e1)%Q).
    { rewrite F2Q_scale. unfold F2Q. rewrite bpow_1.
      change (inject_Z (2 ^ 53)) with (inject_Z (Z.pos (2 ^ 52)) * 2)%Q at 1.
      ring. }
    split; [rewrite Hsame; exact Hval|].
    intros k Hk. rewrite Hsame. eapply Hrep. exact Hk.
Qed.

Lemma digits_ge (p : positive) (k : Z) :
  2 ^ (k - 1) <= Z.pos p -> k <= Z.pos (digits2_pos p).
Proof.
  intros H. pose proof (digits_bounds p) as [_ Hhi].
  assert (k - 1 < Z.pos (digits2_pos p)); [|lia].
  apply (Z.pow_lt_mono_r_iff 2); lia.
Qed.

Lemma digits_le (p : positive) (k : Z) :
  0 <= k -> Z.pos p < 2 ^ k -> Z.pos (digits2_pos p) <= k.
Proof.
  intros Hk H. pose proof (digits_bounds p) as [Hlo _].
  assert (Z.pos (digits2_pos p) - 1 < k); [|lia].
  apply (Z.pow_lt_mono_r_iff 2); lia.
Qed.

Lemma pos_normal_inv (f : float) :
  pos_normal f = true ->
  exists (m : positive) (e : Z),
    f = S754_finite false m e /\ Z.pos (digits2_pos m) = 53 /\ -1074 <= e <= 971.
Proof.
  destruct f as [| | |[] m e]; try discriminate. unfold pos_normal.
  intros H. apply andb_true_iff in H as [H H3]. apply andb_true_iff in H as [H1 H2].
  apply Z.eqb_eq in H1. apply Z.leb_le in H2, H3.
  exists m, e. split; [reflexivity|]. lia.
Qed.

Lemma pos_normal_intro (m : positive) (e : Z) :
  Z.pos (digits2_pos m) = 53 -> -1074 <= e <= 971 ->
  pos_normal (S754_finite false m e) = true.
Proof.
  intros Hd [He1 He2]. unfold pos_normal. rewrite Hd. change (53 =? 53) with true.
  apply andb_true_iff. split; apply Z.leb_le; assumption.
Qed.

Lemma pos_normal_pos_or_inf (f : float) : pos_normal f = true -> pos_or_inf f = true.
Proof. destruct f as [| | |[] m e]; try discriminate. auto. Qed.

Lemma to_Q_finite (m : positive) (e : Z) :
  Float.to_Q (S754_finite false m e) = F2Q (Z.pos m) e.
Proof. reflexivity. Qed.

(** A mantissa of [d] digits at exponent [e] lies in [[2^(d-1+e), 2^(d+e))]. *)
Lemma F2Q_bounds (m : positive) (e : Z) :
  let d := Z.pos (digits2_pos m) in
  (bpow (d - 1 + e) <= F2Q (Z.pos m) e /\ F2Q (Z.pos m) e < bpow (d + e))%Q.
Proof.
  intros d. pose proof (digits_bounds m) as [Hlo Hhi]. fold d in Hlo, Hhi.
  pose proof (bpow_pos e) as Hpos. unfold F2Q. rewrite !bpow_add. split.
  - apply Qmult_le_compat_r; [|lra].
    rewrite bpow_inject by lia. rewrite <- Zle_Qle. exact Hlo.
  - apply Qmult_lt_compat_r; [exact Hpos|].
    rewrite bpow_inject by lia. rewrite <- Zlt_Qlt. exact Hhi.
Qed.

Lemma pos_normal_bounds (f : float) :
  pos_normal f = true -> (bpow (-1022) <= Float.to_Q f /\ Float.to_Q f < bpow 1024)%Q.
Proof.
  intros H. destruct (pos_normal_inv f H) as (m & e & -> & Hd & He).
  rewrite to_Q_finite. pose proof (F2Q_bounds m e) as [Hlo Hhi]. rewrite Hd in Hlo, Hhi.
  split.
  - eapply Qle_trans; [|exact Hlo]. apply bpow_le. lia.
  - eapply Qlt_le_trans; [exact Hhi|]. apply bpow_le. lia.
Qed.

(** [round_aux_normal] with its conditions and conclusions stated on the
    number rounded: its result is a positive normal double or plus
    infinity; below [2^1023] it is a double, within the relative error
    [2^-53] of the number, and the number itself when that is a double. *)
Lemma round_aux_value (m : positive) (e : Z) (l : location) (x : Q) :
  53 <= Z.pos (digits2_pos m) ->
  located (x * bpow (- e)) (shr_record_of_loc (Z.pos m) l) ->
  (bpow (-1022) <= x)%Q ->
  let r := binary_round_aux Float.prec Float.emax false (Z.pos m) e l in
  pos_or_inf r = true /\
  ((x < bpow 1023)%Q ->
   pos_normal r = true /\
   (Qabs (Float.to_Q r - x) <= bpow (-53) * x)%Q /\
   (forall k e0 : Z, 0 < k < 2 ^ 53 -> (x == F2Q k e0)%Q -> (Float.to_Q r == x)%Q)).
Proof.
  intros Hd Hloc Hlo r.
  set (d := Z.pos (digits2_pos m)) in *.
  (* where the number lies with respect to the digits of the mantissa *)
  pose proof (located_bounds _ _ Hloc) as Hb. rewrite shr_m_of_loc in Hb.
  pose proof (F2Q_bounds m e) as [Hmlo Hmhi]. fold d in Hmlo, Hmhi.
  assert (Hxe : (x == x * bpow (- e) * bpow e)%Q).
  { rewrite <- Qmult_assoc, (Qmult_comm (bpow (- e))), bpow_cancel. ring. }
  pose proof (bpow_pos e) as Hpe.
  assert (Hxlo : (bpow (d - 1 + e) <= x)%Q).
  { eapply Qle_trans; [exact Hmlo|]. rewrite Hxe. unfold F2Q.
    apply Qmult_le_compat_r; [apply Hb | lra]. }
  assert (Hxhi : (x < bpow (d + e))%Q).
  { rewrite Hxe, bpow_add. apply Qmult_lt_compat_r; [exact Hpe|].
    eapply Qlt_le_trans; [apply Hb|].
    pose proof (digits_bounds m) as [_ Hhi]. fold d in Hhi.
    rewrite (bpow_inject d) by lia.
    change 1%Q with (inject_Z 1). rewrite <- inject_Z_plus, <- Zle_Qle. lia. }
  assert (Hnorm : -1074 <= d + e - 53).
  { assert (-1022 < d + e); [|lia]. apply bpow_lt_inv. lra. }
  destruct (round_aux_normal false m e l x Hd Hnorm Hloc)
    as (m' & e' & Hr & Hd' & He' & Herr & Hexact).
  fold d in He', Herr, Hexact. fold r in Hr.
  split.
  - rewrite Hr. destruct (Z.leb_spec e' 971); [|reflexivity].
    apply pos_normal_intro; [exact Hd' | lia].
  - intros Hhi.
    assert (Hfin : e' <= 971).
    { assert (d - 1 + e < 1023); [|lia]. apply bpow_lt_inv. lra. }
    apply Z.leb_le in Hfin. rewrite Hfin in Hr. rewrite Hr, to_Q_finite.
    split; [apply pos_normal_intro; [exact Hd' | lia]|]. split.
    + eapply Qle_trans; [exact Herr|].
      replace (d + e - 53) with (1 + (-53 + (d - 1 + e))) by lia.
      rewrite 2!bpow_add, bpow_1.
      setoid_replace ((1 # 2) * (2 * (bpow (-53) * bpow (d - 1 + e))))%Q
        with (bpow (-53) * bpow (d - 1 + e))%Q using relation Qeq by ring.
      apply Qmult_le_l; [apply bpow_pos | exact Hxlo].
    + intros k e0 Hk Hx. apply (Hexact (k * 2 ^ (e0 - (d + e - 53)))).
      assert (He0 : d + e - 53 <= e0).
      { assert (d - 1 + e < 53 + e0); [|lia]. apply bpow_lt_inv.
        eapply Qle_lt_trans; [exact Hxlo|]. rewrite Hx, bpow_add. unfold F2Q.
        apply Qmult_lt_compat_r; [apply bpow_pos|].
        rewrite (bpow_inject 53) by lia. rewrite <- Zlt_Qlt. lia. }
      rewrite Hx. unfold F2Q. rewrite inject_Z_mult, <- bpow_inject by lia.
      rewrite <- Qmult_assoc, <- bpow_add.
      replace (e0 - (d + e - 53) + (d + e - 53)) with e0 by lia. reflexivity.
Qed.

(** Left shifts of a mantissa, as [shl_align] does them. *)
Lemma iter_xO_pow (m k : positive) :
  Z.pos (Pos.iter xO m k) = Z.pos m * 2 ^ Z.pos k.
Proof.
  change (Pos.iter xO m k) with (shift_pos k m).
  rewrite shift_pos_correct. change (Z.pow_pos 2 k) with (2 ^ Z.pos k). lia.
Qed.

Lemma shl_align_spec (mx : positive) (ex ex' : Z) :
  snd (shl_align mx ex ex') = Z.min ex ex' /\
  Z.pos (fst (shl_align mx ex ex')) = Z.pos mx * 2 ^ (ex - Z.min ex ex').
Proof.
  unfold shl_align. destruct (ex' - ex) as [|d|d] eqn:Hd; cbn [fst snd].
  - replace (Z.min ex ex') with ex by lia. rewrite Z.sub_diag. lia.
  - replace (Z.min ex ex') with ex by lia. rewrite Z.sub_diag. lia.
  - replace (Z.min ex ex') with ex' by lia. rewrite iter_xO_pow.
    replace (ex - ex') with (Z.pos d) by lia. split; reflexivity.
Qed.

Lemma F2Q_shift (m e k : Z) : 0 <= k -> (F2Q (m * 2 ^ k) (e - k) == F2Q m e)%Q.
Proof.
  intros Hk. unfold F2Q. rewrite inject_Z_mult, <- bpow_inject by exact Hk.
  rewrite <- Qmult_assoc, <- bpow_add. replace (k + (e - k)) with e by lia. reflexivity.
Qed.

Lemma located_exact (x : Q) (m e : Z) :
  (x == F2Q m e)%Q -> located (x * bpow (- e)) (shr_record_of_loc m loc_Exact).
Proof.
  intros Hx. unfold located. cbn. rewrite Hx. unfold F2Q.
  rewrite <- Qmult_assoc, bpow_cancel. ring.
Qed.

(** [binary_round] on a mantissa that needs no left shift or gets one up
    to 53 digits: the conclusions of [round_aux_value]. *)
Lemma binary_round_value (m : positive) (e : Z) :
  -1074 <= Z.pos (digits2_pos m) + e - 53 ->
  let x := F2Q (Z.pos m) e in
  let r := binary_round Float.prec Float.emax false m e in
  pos_or_inf r = true /\
  ((x < bpow 1023)%Q ->
   pos_normal r = true /\
   (Qabs (Float.to_Q r - x) <= bpow (-53) * x)%Q /\
   (forall k e0 : Z, 0 < k < 2 ^ 53 -> (x == F2Q k e0)%Q -> (Float.to_Q r == x)%Q)).
Proof.
  intros Hnorm x r. set (d := Z.pos (digits2_pos m)) in *.
  pose proof (digits_bounds m) as [Hmlo Hmhi]. fold d in Hmlo, Hmhi.
  unfold r, binary_round. rewrite fexp_normal by (fold d; lia). fold d.
  destruct (shl_align_spec m e (d + e - 53)) as [He Hm].
  destruct (shl_align m e (d + e - 53)) as [mz ez]. cbn [fst snd] in He, Hm.
  assert (Hx : (x == F2Q (Z.pos mz) ez)%Q).
  { unfold x. rewrite Hm, He. symmetry.
    replace (Z.min e (d + e - 53)) with (e - (e - Z.min e (d + e - 53))) at 2 by lia.
    apply F2Q_shift. lia. }
  assert (Hdz : 53 <= Z.pos (digits2_pos mz)).
  { apply digits_ge. rewrite Hm. destruct (Z.le_ge_cases 53 d) as [Hge|Hlt].
    - replace (Z.min e (d + e - 53)) with e by lia. rewrite Z.sub_diag, Z.mul_1_r.
      eapply Z.le_trans; [|exact Hmlo]. apply Z.pow_le_mono_r; lia.
    - replace (e - Z.min e (d + e - 53)) with (53 - d) by lia.
      replace (53 - 1) with (d - 1 + (53 - d)) by lia. rewrite Z.pow_add_r by lia.
      apply Z.mul_le_mono_nonneg_r; [apply Z.pow_nonneg; lia | exact Hmlo]. }
  apply round_aux_value.
  - exact Hdz.
  - apply located_exact. exact Hx.
  - pose proof (F2Q_bounds m e) as [Hlo _]. fold d in Hlo. fold x in Hlo.
    eapply Qle_trans; [|exact Hlo]. apply bpow_le. lia.
Qed.

(** Multiplication of two positive normal doubles. *)
Lemma mul_value (a b : float) :
  pos_normal a = true -> pos_normal b = true ->
  (bpow (-1022) <= Float.to_Q a * Float.to_Q b)%Q ->
  let x := (Float.to_Q a * Float.to_Q b)%Q in
  let r := Float.mul a b in
  pos_or_inf r = true /\
  ((x < bpow 1023)%Q ->
   pos_normal r = true /\
   (Qabs (Float.to_Q r - x) <= bpow (-53) * x)%Q /\
   (forall k e0 : Z, 0 < k < 2 ^ 53 -> (x == F2Q k e0)%Q -> (Float.to_Q r == x)%Q)).
Proof.
  intros Ha Hb Hlo x r.
  destruct (pos_normal_inv a Ha) as (ma & ea & -> & Hda & Hea).
  destruct (pos_normal_inv b Hb) as (mb & eb & -> & Hdb & Heb).
  change r with (binary_round_aux Float.prec Float.emax false
                   (Z.pos (ma * mb)) (ea + eb) loc_Exact).
  pose proof (digits_bounds ma) as [Halo _]. rewrite Hda in Halo.
  apply round_aux_value.
  - apply digits_ge. rewrite Pos2Z.inj_mul.
    change (2 ^ (53 - 1)) with (2 ^ 52 * 1) in *. apply Z.mul_le_mono_nonneg; lia.
  - apply located_exact. unfold x. rewrite !to_Q_finite. unfold F2Q.
    rewrite Pos2Z.inj_mul, inject_Z_mult, bpow_add. ring.
  - exact Hlo.
Qed.

(** Conversion of a positive integer. *)
Lemma round_int_value (z : Z) :
  0 < z ->
  let x := inject_Z z in
  let r := Float.round_int z in
  pos_or_inf r = true /\
  ((x < bpow 1023)%Q ->
   pos_normal r = true /\
   (Qabs (Float.to_Q r - x) <= bpow (-53) * x)%Q /\
   (z < 2 ^ 53 -> (Float.to_Q r == x)%Q)).
Proof.
  intros Hz x r. destruct z as [|p|p]; try lia.
  change r with (binary_round Float.prec Float.emax false p 0).
  assert (Hx : (x == F2Q (Z.pos p) 0)%Q) by (unfold x, F2Q; rewrite bpow_0; ring).
  assert (Hnorm : -1074 <= Z.pos (digits2_pos p) + 0 - 53) by lia.
  destruct (binary_round_value p 0 Hnorm) as [Hpi Hfin].
  split; [exact Hpi|]. intros Hhi. rewrite Hx in Hhi.
  destruct (Hfin Hhi) as (Hn & Herr & Hexact).
  split; [exact Hn|]. split; [rewrite Hx; exact Herr|].
  intros Hsmall. rewrite Hx. apply (Hexact (Z.pos p) 0); [lia | reflexivity].
Qed.

(** Addition of two positive normal doubles. *)
Lemma add_value (a b : float) :
  pos_normal a = true -> pos_normal b = true ->
  let x := (Float.to_Q a + Float.to_Q b)%Q in
  let r := Float.add a b in
  pos_or_inf r = true /\
  ((x < bpow 1023)%Q ->
   pos_normal r = true /\
   (Qabs (Float.to_Q r - x) <= bpow (-53) * x)%Q /\
   (forall k e0 : Z, 0 < k < 2 ^ 53 -> (x == F2Q k e0)%Q -> (Float.to_Q r == x)%Q)).
Proof.
  intros Ha Hb x r.
  destruct (pos_normal_inv a Ha) as (ma & ea & -> & Hda & Hea).
  destruct (pos_normal_inv b Hb) as (mb & eb & -> & Hdb & Heb).
  set (ez := Z.min ea eb).
  destruct (shl_align_spec ma ea ez) as [_ HA].
  destruct (shl_align_spec mb eb ez) as [_ HB].
  replace (Z.min ea ez) with ez in HA by lia.
  replace (Z.min eb ez) with ez in HB by lia.
  change r with (binary_round Float.prec Float.emax false
                   (fst (shl_align ma ea ez) + fst (shl_align mb eb ez)) ez).
  set (A := fst (shl_align ma ea ez)) in *.
  set (B := fst (shl_align mb eb ez)) in *.
  assert (Hx : (x == F2Q (Z.pos (A + B)) ez)%Q).
  { unfold x. rewrite !to_Q_finite, Pos2Z.inj_add, HA, HB.
    rewrite <- (F2Q_shift (Z.pos ma) ea (ea - ez)) by lia.
    rewrite <- (F2Q_shift (Z.pos mb) eb (eb - ez)) by lia.
    replace (ea - (ea - ez)) with ez by lia. replace (eb - (eb - ez)) with ez by lia.
    unfold F2Q. rewrite inject_Z_plus. ring. }
  assert (Hdig : 53 <= Z.pos (digits2_pos (A + B))).
  { apply digits_ge. rewrite Pos2Z.inj_add, HA.
    pose proof (digits_bounds ma) as [Hlo _]. rewrite Hda in Hlo.
    assert (1 <= 2 ^ (ea - ez)) by (apply (Z.pow_le_mono_r 2 0); lia).
    nia. }
  assert (Hnorm : -1074 <= Z.pos (digits2_pos (A + B)) + ez - 53) by lia.
  destruct (binary_round_value (A + B) ez Hnorm) as [Hpi Hfin].
  split; [exact Hpi|]. intros Hhi. rewrite Hx in Hhi.
  destruct (Hfin Hhi) as (Hn & Herr & Hexact).
  split; [exact Hn|]. split; [rewrite Hx; exact Herr|].
  intros k e0 Hk Hxk. rewrite Hx. apply (Hexact k e0 Hk). rewrite <- Hx. exact Hxk.
Qed.

(** The location that a division step computes from the remainder. *)
Lemma new_location_spec (nb k q : Z) :
  0 < nb -> 0 <= k < nb ->
  located (inject_Z q + inject_Z k / inject_Z nb)
    (shr_record_of_loc q (new_location nb k)).
Proof.
  intros Hnb Hk.
  assert (Hn : (0 < inject_Z nb)%Q) by (change 0%Q with (inject_Z 0); rewrite <- Zlt_Qlt; lia).
  set (t := (inject_Z k / inject_Z nb)%Q).
  assert (Heq : 2 * k = nb -> (t == 1 # 2)%Q).
  { intros Hc. unfold t. rewrite <- Hc, inject_Z_mult.
    field. intros H0. change 0%Q with (inject_Z 0) in H0.
    apply (proj1 (inject_Z_injective k 0)) in H0. lia. }
  assert (Hlt : 2 * k < nb -> (t < 1 # 2)%Q).
  { intros Hc. apply Qlt_shift_div_r; [exact Hn|].
    rewrite Zlt_Qlt, inject_Z_mult in Hc. change (inject_Z 2) with 2%Q in Hc. lra. }
  assert (Hgt : nb < 2 * k -> (1 # 2 < t)%Q).
  { intros Hc. apply Qlt_shift_div_l; [exact Hn|].
    rewrite Zlt_Qlt, inject_Z_mult in Hc. change (inject_Z 2) with 2%Q in Hc. lra. }
  assert (Ht1 : (t < 1)%Q).
  { apply Qlt_shift_div_r; [exact Hn|].
    assert (inject_Z k < inject_Z nb)%Q by (rewrite <- Zlt_Qlt; lia). lra. }
  assert (Ht0 : k <> 0 -> (0 < t)%Q).
  { intros Hk0. apply Qlt_shift_div_l; [exact Hn|].
    assert (0 < inject_Z k)%Q by (change 0%Q with (inject_Z 0); rewrite <- Zlt_Qlt; lia).
    lra. }
  assert (Hzero : k = 0 -> located (inject_Z q + t) (shr_record_of_loc q loc_Exact)).
  { intros Hk0. unfold located. cbn. unfold t. rewrite Hk0. change (inject_Z 0) with 0%Q.
    unfold Qdiv. ring. }
  unfold new_location.
  destruct (IntDef.Z.even nb) eqn:Heven.
  - unfold new_location_even.
    destruct (Z.eqb_spec k 0) as [Hk0|Hk0]; [exact (Hzero Hk0)|].
    specialize (Ht0 Hk0).
    destruct (Z.compare_spec (2 * k) nb) as [Hc|Hc|Hc];
      [specialize (Heq Hc) | specialize (Hlt Hc) | specialize (Hgt Hc)];
      unfold located; cbn; fold t; lra.
  - unfold new_location_odd.
    destruct (Z.eqb_spec k 0) as [Hk0|Hk0]; [exact (Hzero Hk0)|].
    specialize (Ht0 Hk0).
    assert (Hodd : 2 * k <> nb).
    { intros Hc. change (Z.even nb = false) in Heven.
      rewrite <- Hc, Z.even_mul in Heven. discriminate. }
    destruct (Z.compare_spec (2 * k + 1) nb) as [Hc|Hc|Hc];
      [assert (Hc' : 2 * k < nb) by lia; specialize (Hlt Hc')
      |assert (Hc' : 2 * k < nb) by lia; specialize (Hlt Hc')
      |assert (Hc' : nb < 2 * k) by lia; specialize (Hgt Hc')];
      unfold located; cbn; fold t; lra.
Qed.

Lemma bpow_opp (e : Z) : (bpow (- e) == / bpow e)%Q.
Proof. apply Qpower_opp. Qed.

Lemma bpow_nonzero (e : Z) : ~ (bpow e == 0)%Q.
Proof. pose proof (bpow_pos e). lra. Qed.

Lemma inject_pos_nonzero (p : positive) : ~ (inject_Z (Z.pos p) == 0)%Q.
Proof.
  intros H. change 0%Q with (inject_Z 0) in H.
  apply (proj1 (inject_Z_injective _ _)) in H. discriminate.
Qed.

Lemma to_Q_pos (f : float) : pos_normal f = true -> (0 < Float.to_Q f)%Q.
Proof.
  intros H. apply pos_normal_bounds in H. pose proof (bpow_pos (-1022)). lra.
Qed.

(** Division of two positive normal doubles. *)
Lemma div_value (a b : float) :
  pos_normal a = true -> pos_normal b = true ->
  let x := (Float.to_Q a / Float.to_Q b)%Q in
  (bpow (-1020) <= x)%Q ->
  let r := Float.div a b in
  pos_or_inf r = true /\
  ((x < bpow 1023)%Q ->
   pos_normal r = true /\
   (Qabs (Float.to_Q r - x) <= bpow (-53) * x)%Q /\
   (forall k e0 : Z, 0 < k < 2 ^ 53 -> (x == F2Q k e0)%Q -> (Float.to_Q r == x)%Q)).
Proof.
  intros Ha Hb x Hlo r.
  pose proof (to_Q_pos b Hb) as Hbpos.
  destruct (pos_normal_inv a Ha) as (ma & ea & -> & Hda & Hea).
  destruct (pos_normal_inv b Hb) as (mb & eb & -> & Hdb & Heb).
  rewrite to_Q_finite in Hbpos. unfold x in Hlo. rewrite !to_Q_finite in Hlo.
  pose proof (F2Q_bounds ma ea) as [_ Hahi]. rewrite Hda in Hahi.
  pose proof (F2Q_bounds mb eb) as [Hblo _]. rewrite Hdb in Hblo.
  pose proof (digits_bounds ma) as [Hmalo Hmahi]. rewrite Hda in Hmalo, Hmahi.
  pose proof (digits_bounds mb) as [Hmblo Hmbhi]. rewrite Hdb in Hmblo, Hmbhi.
  (* the quotient is below 2^(ea - eb + 1) *)
  assert (Hexp : -1020 <= ea - eb).
  { assert (-1020 < ea - eb + 1); [|lia]. apply bpow_lt_inv.
    eapply Qle_lt_trans; [exact Hlo|].
    apply Qlt_shift_div_r; [exact Hbpos|].
    eapply Qlt_le_trans; [exact Hahi|].
    replace (53 + ea) with (ea - eb + 1 + (53 - 1 + eb)) by lia. rewrite bpow_add.
    apply Qmult_le_l; [apply bpow_pos | exact Hblo]. }
  (* the integer division that [SFdiv_core_binary] performs *)
  set (e' := ea - eb - 53).
  assert (Hcore : SFdiv_core_binary Float.prec Float.emax (Z.pos ma) ea (Z.pos mb) eb =
                  (let '(q, k) := Z.div_eucl (Z.pos ma * 2 ^ 53) (Z.pos mb) in
                   (q, e', new_location (Z.pos mb) k))).
  { unfold SFdiv_core_binary. cbn [Zdigits2]. rewrite Hda, Hdb.
    rewrite fexp_normal by lia.
    replace (Z.min (53 + ea - (53 + eb) - 53) (ea - eb)) with e' by lia.
    replace (ea - eb - e') with 53 by lia.
    rewrite Z.shiftl_mul_pow2 by lia. reflexivity. }
  change r with (let '(mz, ez, lz) :=
                   SFdiv_core_binary Float.prec Float.emax (Z.pos ma) ea (Z.pos mb) eb in
                 binary_round_aux Float.prec Float.emax false mz ez lz).
  rewrite Hcore.
  pose proof (Z_div_mod (Z.pos ma * 2 ^ 53) (Z.pos mb) eq_refl) as Hdiv.
  destruct (Z.div_eucl (Z.pos ma * 2 ^ 53) (Z.pos mb)) as [q k].
  destruct Hdiv as [Hdiv Hk].
  assert (Hq : 2 ^ 52 <= q) by nia.
  destruct q as [|pq|pq]; try lia.
  apply round_aux_value.
  - apply digits_ge. exact Hq.
  - eapply located_ext; [|apply new_location_spec; [reflexivity | exact Hk]].
    unfold x. rewrite !to_Q_finite. unfold F2Q.
    replace (- e') with (53 + eb + - ea) by lia.
    rewrite !bpow_add, bpow_opp, (bpow_inject 53) by lia.
    assert (Hm : (inject_Z (Z.pos ma) * inject_Z (2 ^ 53) ==
                  inject_Z (Z.pos mb) * inject_Z (Z.pos pq) + inject_Z k)%Q)
      by (rewrite <- !inject_Z_mult, <- inject_Z_plus, Hdiv; reflexivity).
    pose proof (bpow_nonzero ea). pose proof (bpow_nonzero eb).
    pose proof (inject_pos_nonzero mb).
    setoid_replace (inject_Z (Z.pos ma) * bpow ea / (inject_Z (Z.pos mb) * bpow eb) *
                    (inject_Z (2 ^ 53) * bpow eb * / bpow ea))%Q
      with ((inject_Z (Z.pos ma) * inject_Z (2 ^ 53)) / inject_Z (Z.pos mb))%Q
      using relation Qeq by (field; auto).
    rewrite Hm. field. auto.
  - eapply Qle_trans; [|unfold x; rewrite !to_Q_finite; exact Hlo]. apply bpow_le. lia.
Qed.

(** ** The weight pass *)

Lemma binary_round_sign (s : bool) (m : positive) (e : Z) :
  binary_round Float.prec Float.emax s m e =
  with_sign s (binary_round Float.prec Float.emax false m e).
Proof.
  unfold binary_round. destruct (shl_align m e _) as [mz ez].
  unfold binary_round_aux. destruct (shr_fexp _ _ _ _ _) as [mrs' e'].
  destruct (shr_fexp _ _ _ _ _) as [mrs'' e''].
  destruct (shr_m mrs''); [reflexivity| |reflexivity].
  destruct (e'' <=? _); reflexivity.
Qed.

Lemma pos_or_inf_nonzero (f : float) :
  pos_or_inf f = true -> Float.eqb f Float.zero = false /\ Float.ltb Float.zero f = true.
Proof.
  destruct f as [s|[]| |[] m e]; try discriminate; intros _; split; reflexivity.
Qed.

(** An integer other than 0 does not convert to a zero. *)
Lemma round_int_nonzero (z : Z) :
  z <> 0 -> Float.eqb (Float.round_int z) Float.zero = false.
Proof.
  intros Hz. destruct z as [|p|p]; [contradiction| |].
  - apply pos_or_inf_nonzero. apply (round_int_value (Z.pos p)). lia.
  - pose proof (round_int_value (Z.pos p) eq_refl) as [Hp _]. cbv zeta in Hp.
    change (Float.round_int (Z.neg p))
      with (binary_round Float.prec Float.emax true p 0).
    rewrite binary_round_sign.
    change (binary_round Float.prec Float.emax false p 0)
      with (Float.round_int (Z.pos p)).
    destruct (Float.round_int (Z.pos p)) as [s|[]| |[] m e]; try discriminate; reflexivity.
Qed.

Lemma as_float_nonzero (total_value : pynum) (t : float) :
  Num.is_zero total_value = false -> Num.as_float total_value = Ok t ->
  Float.eqb t Float.zero = false.
Proof.
  destruct total_value as [z|f]; cbn [Num.is_zero Num.as_float].
  - intros Hz Ht. apply Z.eqb_neq in Hz. pose proof (round_int_nonzero z Hz) as Hnz.
    unfold Float.of_int in Ht.
    destruct (Float.round_int z); try discriminate; injection Ht as <-; exact Hnz.
  - intros Hz [= <-]. exact Hz.
Qed.

Lemma weight_of_value (total_value : pynum) (t : float) (h : holding) :
  Num.as_float total_value = Ok t -> Float.eqb t Float.zero = false ->
  weight_of total_value h = Ok (Float.mul (Float.div (value h) t) hundred).
Proof.
  intros Ht Hnz. unfold weight_of, Num.float_div. rewrite Ht. cbn [bind].
  rewrite Hnz. cbn [bind]. apply float_mul_int_100.
Qed.

Lemma assign_weights_spec (total_value : pynum) (t : float) (portfolio : list ref) :
  Num.as_float total_value = Ok t -> Float.eqb t Float.zero = false ->
  forall hp : list holding,
  exists hp' : list holding,
    assign_weights total_value portfolio hp = Ok hp' /\
    length hp' = length hp /\
    forall (r : ref) (h : holding), hp !! r = Some h ->
      hp' !! r = Some (if bool_decide (r ∈ portfolio) then weighted t h else h).
Proof.
  intros Ht Hnz. induction portfolio as [|a rest IH]; intros hp.
  - exists hp. split; [reflexivity|]. split; [reflexivity|]. intros r h Hr. exact Hr.
  - cbn [assign_weights]. unfold assign_weight.
    destruct (hp !! a) as [ha|] eqn:Ha; cbn [bind].
    + rewrite (weight_of_value _ t ha Ht Hnz). cbn [bind]. fold (weighted t ha).
      destruct (IH (<[a := weighted t ha]> hp)) as (hp' & Hrun & Hlen & Hlook).
      exists hp'. split; [exact Hrun|]. split; [rewrite Hlen; apply length_insert|].
      intros r h Hr. destruct (decide (r = a)) as [->|Hne].
      * rewrite Ha in Hr. injection Hr as <-.
        rewrite (Hlook a (weighted t ha)).
        2:{ apply list_lookup_insert_eq. eapply lookup_lt_Some. exact Ha. }
        rewrite (bool_decide_eq_true_2 (a ∈ a :: rest)) by left.
        destruct (bool_decide (a ∈ rest)); reflexivity.
      * rewrite (Hlook r h) by (rewrite list_lookup_insert_ne by congruence; exact Hr).
        assert (Hb : bool_decide (r ∈ a :: rest) = bool_decide (r ∈ rest))
          by (apply bool_decide_ext; rewrite elem_of_cons; tauto).
        rewrite Hb. reflexivity.
    + destruct (IH hp) as (hp' & Hrun & Hlen & Hlook).
      exists hp'. split; [exact Hrun|]. split; [exact Hlen|].
      intros r h Hr. rewrite (Hlook r h Hr).
      assert (Hne : r <> a) by congruence.
      assert (Hb : bool_decide (r ∈ a :: rest) = bool_decide (r ∈ rest))
        by (apply bool_decide_ext; rewrite elem_of_cons; tauto).
      rewrite Hb. reflexivity.
Qed.

(** The weight pass when the guard does not fire. *)
Lemma weights_pass (hp : list holding) (portfolio : list ref)
  (total_value : pynum) (t : float) :
  Num.is_zero total_value = false -> Num.as_float total_value = Ok t ->
  exists hp' : list holding,
    calculate_portfolio_weights portfolio total_value hp = Ok hp' /\
    length hp' = length hp /\
    forall (r : ref) (h : holding), hp !! r = Some h ->
      hp' !! r = Some (if bool_decide (r ∈ portfolio) then weighted t h else h).
Proof.
  intros Hz Ht. unfold calculate_portfolio_weights. rewrite Hz.
  apply (assign_weights_spec total_value t portfolio Ht).
  eapply as_float_nonzero; eassumption.
Qed.

(** What [weighted] stores: the formula under the key [weight], the
    other four keys as they were. *)
Lemma weighted_fields (t : float) (h : holding) :
  weight (weighted t h) = Float.mul (Float.div (value h) t) hundred /\
  ticker (weighted t h) = ticker h /\ quantity (weighted t h) = quantity h /\
  price (weighted t h) = price h /\ value (weighted t h) = value h.
Proof. repeat split; reflexivity. Qed.

(** The weight pass when the guard does not fire, read key by key. *)
Lemma weights_pass_keys (hp : list holding) (portfolio : list ref)
  (total_value : pynum) (t : float) :
  Num.is_zero total_value = false -> Num.as_float total_value = Ok t ->
  exists hp' : list holding,
    calculate_portfolio_weights portfolio total_value hp = Ok hp' /\
    length hp' = length hp /\
    forall (r : ref) (h : holding), hp !! r = Some h ->
      exists h' : holding,
        hp' !! r = Some h' /\
        ticker h' = ticker h /\ quantity h' = quantity h /\
        price h' = price h /\ value h' = value h /\
        (r ∈ portfolio -> weight h' = Float.mul (Float.div (value h) t) hundred) /\
        (r ∉ portfolio -> h' = h).
Proof.
  intros Hz Ht.
  destruct (weights_pass hp portfolio total_value t Hz Ht) as (hp' & Hrun & Hlen & Hlook).
  exists hp'. split; [exact Hrun|]. split; [exact Hlen|].
  intros r h Hr. specialize (Hlook r h Hr).
  destruct (decide (r ∈ portfolio)) as [Hin|Hout].
  - rewrite (bool_decide_eq_true_2 _ Hin) in Hlook.
    exists (weighted t h). destruct (weighted_fields t h) as (Hw & Htk & Hq & Hp & Hv).
    repeat (split; [assumption|]). split; [intros _; exact Hw | intros Hno; contradiction].
  - rewrite (bool_decide_eq_false_2 _ Hout) in Hlook.
    exists h. split; [exact Hlook|]. repeat (split; [reflexivity|]).
    split; [intros Hin; contradiction | reflexivity].
Qed.

(** C3: when the total equals 0 the function returns at once and the
    store is the one it was given, so every [weight] keeps the value it
    had.  Otherwise, with [t] the total as a double, the function
    completes, and in the store it leaves every dictionary of the
    portfolio holds under [weight] the double [(value / t) * 100], where
    [100] is the double of the integer 100, and its other four keys are
    as they were; dictionaries outside the portfolio are unchanged. *)
Theorem weights_guard_and_formula (hp : list holding) (portfolio : list ref)
  (total_value : pynum) :
  (Num.is_zero total_value = true ->
     calculate_portfolio_weights portfolio total_value hp = Ok hp) /\
  (Num.is_zero total_value = false ->
     forall t : float, Num.as_float total_value = Ok t ->
     exists hp' : list holding,
       calculate_portfolio_weights portfolio total_value hp = Ok hp' /\
       length hp' = length hp /\
       forall (r : ref) (h : holding), hp !! r = Some h ->
         exists h' : holding,
           hp' !! r = Some h' /\
           ticker h' = ticker h /\ quantity h' = quantity h /\
           price h' = price h /\ value h' = value h /\
           (r ∈ portfolio ->
              weight h' = Float.mul (Float.div (value h) t) hundred) /\
           (r ∉ portfolio -> h' = h)) /\
  Float.of_int 100 = Some hundred /\ (Float.to_Q hundred == 100)%Q.
Proof.
  split; [|split; [|split]].
  - unfold calculate_portfolio_weights. intros ->. reflexivity.
  - intros Hz t Ht. exact (weights_pass_keys hp portfolio total_value t Hz Ht).
  - reflexivity.
  - reflexivity.
Qed.

Lemma weights_guard_and_formula_witness :
  calculate_portfolio_weights [0; 1]%nat (PyFloat Float.zero)
    (heap (after example_session)) = Ok (heap (after example_session)) /\
  exists (hp' : list holding) (h1 h2 : holding),
    calculate_portfolio_weights [0; 1]%nat (PyFloat (Float.literal 445250 2))
      (heap (after example_session)) = Ok hp' /\
    hp' !! 0%nat = Some h1 /\ hp' !! 1%nat = Some h2 /\
    (ticker h1, quantity h1, Float.fixed2 false (weight h1)) =
      ("NVDA"%string, 2, "39.33"%string) /\
    (ticker h2, quantity h2, Float.fixed2 false (weight h2)) =
      ("V"%string, 10, "60.67"%string).
Proof.
  split.
  - apply (weights_guard_and_formula (heap (after example_session)) [0; 1]%nat
             (PyFloat Float.zero)). reflexivity.
  - destruct (weights_guard_and_formula (heap (after example_session)) [0; 1]%nat
                (PyFloat (Float.literal 445250 2))) as (_ & Hpass & _).
    destruct (Hpass eq_refl (Float.literal 445250 2) eq_refl) as (hp' & Hrun & _ & Hlook).
    destruct (Hlook 0%nat
                {| ticker := "NVDA"; quantity := 2; price := Float.literal 87550 2;
                   value := Float.literal 175100 2; weight := Float.zero |})
      as (h1 & H1 & Ht1 & Hq1 & _ & _ & Hw1 & _); [vm_compute; reflexivity|].
    destruct (Hlook 1%nat
                {| ticker := "V"; quantity := 10; price := Float.literal 27015 2;
                   value := Float.literal 270150 2; weight := Float.zero |})
      as (h2 & H2 & Ht2 & Hq2 & _ & _ & Hw2 & _); [vm_compute; reflexivity|].
    exists hp', h1, h2. split; [exact Hrun|]. split; [exact H1|]. split; [exact H2|].
    rewrite Ht1, Hq1, Hw1, Ht2, Hq2, Hw2.
    + split; vm_compute; reflexivity.
    + apply elem_of_cons; right; apply elem_of_cons; left; reflexivity.
    + apply elem_of_cons; left; reflexivity.
Defined.

(** ** What the collector stores *)

Lemma price_of_table (t : string) (p : float) :
  price_of t = Some p -> exists c : Z, cents_of t = Some c /\ table_price c p.
Proof.
  unfold price_of, cents_of, STOCK_PRICES, PRICE_LITERALS. cbn [map assoc_get].
  repeat (destruct (String.eqb t _);
          [intros [= <-]; eexists; split; [reflexivity|];
           repeat split; vm_compute; congruence |]).
  discriminate.
Qed.

Lemma all_holdings_grow (P : holding -> Prop) (hp more : list holding)
  (portfolio : list ref) :
  all_holdings P hp portfolio -> all_holdings P (hp ++ more) portfolio.
Proof.
  unfold all_holdings. intros Hall. eapply Forall_impl; [exact Hall|].
  intros r (h & Hr & HP).
  exists h. split; [|exact HP]. apply lookup_app_l_Some. exact Hr.
Qed.

Lemma all_holdings_holdings (P : holding -> Prop) (hp : list holding)
  (portfolio : list ref) :
  all_holdings P hp portfolio ->
  Forall P (holdings hp portfolio) /\ length (holdings hp portfolio) = length portfolio.
Proof.
  unfold all_holdings, holdings. induction 1 as [|r rest (h & Hr & HP) _ [IH1 IH2]]; cbn.
  - split; [constructor | reflexivity].
  - rewrite Hr. cbn. split; [constructor; assumption | congruence].
Qed.

Lemma add_holding_collected (t : string) (q : Z) (portfolio portfolio' : list ref)
  (w w' : world) :
  0 < q ->
  add_holding t q portfolio w = (Ok portfolio', w') ->
  all_holdings collected (heap w) portfolio ->
  all_holdings collected (heap w') portfolio'.
Proof.
  intros Hq. unfold add_holding.
  destruct (price_of t) as [p|] eqn:Hp; [|discriminate].
  destruct (Num.int_mul_float q p) as [v|] eqn:Hv; [|discriminate].
  cbn. intros [= <- <-] Hall. cbn.
  apply Forall_app. split; [apply all_holdings_grow; exact Hall|].
  constructor; [|constructor]. eexists. split.
  - rewrite lookup_app_r by reflexivity. rewrite Nat.sub_diag. reflexivity.
  - unfold collected. cbn. repeat split; auto. lia.
Qed.

(** The collector returns references to dictionaries it built. *)
Lemma resume_collected (lines : list string) :
  forall (a : asking) (portfolio portfolio' : list ref) (rest : list string) (w w' : world),
    resume a lines portfolio w = Outcome (Ok portfolio') rest w' ->
    all_holdings collected (heap w) portfolio ->
    all_holdings collected (heap w') portfolio'.
Proof.
  induction lines as [|line lines IH]; intros a portfolio portfolio' rest w w'.
  - destruct a; cbn; discriminate.
  - assert (Hnext : forall (a' : asking) (p1 : list ref) (w1 : world),
               heap w1 = heap w ->
               resume a' lines p1 w1 = Outcome (Ok portfolio') rest w' ->
               all_holdings collected (heap w) p1 ->
               all_holdings collected (heap w') portfolio').
    { intros a' p1 w1 Hheap Hrun Hall. rewrite <- Hheap in Hall.
      exact (IH a' _ _ _ _ _ Hrun Hall). }
    destruct a as [|t]; cbn [resume ticker_loop quantity_loop].
    + destruct (String.eqb _ _).
      { intros [= <- <- <-]. auto. }
      destruct (price_of _).
      * apply (Hnext (AwaitingQuantity _)). reflexivity.
      * apply (Hnext AwaitingTicker). reflexivity.
    + destruct (String.eqb _ _); [apply (Hnext (AwaitingQuantity t)); reflexivity|].
      destruct (Text.parse_int _) as [q|]; [|apply (Hnext (AwaitingQuantity t)); reflexivity].
      destruct (Z.leb_spec q 0) as [|Hq]; [apply (Hnext (AwaitingQuantity t)); reflexivity|].
      destruct (add_holding t q portfolio _) as [[p1|e] w1] eqn:Hadd; [|discriminate].
      intros Hrun Hall. apply (IH AwaitingTicker _ _ _ _ _ Hrun).
      eapply add_holding_collected; [exact Hq | exact Hadd | exact Hall].
Qed.

(** A positive integer that converts gives a positive normal double. *)
Lemma of_int_pos_normal (q : Z) (fq : float) :
  0 < q -> Float.of_int q = Some fq ->
  pos_normal fq = true /\ fq = Float.round_int q.
Proof.
  intros Hq. unfold Float.of_int.
  pose proof (round_int_value q Hq) as [Hr _]. cbv zeta in Hr.
  destruct (Float.round_int q) as [s|[]| |[] m e]; try discriminate;
    intros [= <-]; split; [exact Hr | reflexivity].
Qed.

(** The value of a collected dictionary is a positive normal double or
    plus infinity. *)
Lemma collected_value (h : holding) : collected h -> pos_or_inf (value h) = true.
Proof.
  intros (Hq & Hp & Hv & _).
  destruct (price_of_table _ _ Hp) as (c & _ & Hpn & Hp1 & _).
  unfold Num.int_mul_float, Num.as_float in Hv.
  destruct (Float.of_int (quantity h)) as [fq|] eqn:Hof; [|discriminate].
  cbn [bind] in Hv. injection Hv as <-.
  assert (Hq0 : 0 < quantity h) by lia.
  destruct (of_int_pos_normal _ _ Hq0 Hof) as [Hfq _].
  assert (Hbound : (bpow (-1022) <= Float.to_Q fq * Float.to_Q (price h))%Q).
  { pose proof (pos_normal_bounds _ Hfq) as [Hlo _].
    pose proof (bpow_pos (-1022)) as Hpos.
    setoid_replace (bpow (-1022)) with (bpow (-1022) * 1)%Q using relation Qeq by ring.
    apply Qmult_le_compat_nonneg; split; lra. }
  destruct (mul_value fq (price h) Hfq Hpn Hbound) as [Hres _]. exact Hres.
Qed.

Lemma add_pos_or_inf (a b : float) :
  pos_or_inf a = true -> pos_or_inf b = true -> pos_or_inf (Float.add a b) = true.
Proof.
  intros Ha Hb.
  destruct a as [sa|[]| |[] ma ea]; try discriminate;
    destruct b as [sb|[]| |[] mb eb]; try discriminate; try reflexivity.
  apply add_value; assumption.
Qed.

Lemma sum_pos_or_inf (vs : list float) (acc : float) :
  pos_or_inf acc = true -> Forall (fun v => pos_or_inf v = true) vs ->
  pos_or_inf (fold_left Float.add vs acc) = true.
Proof.
  intros Hacc Hvs. revert acc Hacc.
  induction Hvs as [|v vs Hv _ IH]; intros acc Hacc; cbn; [exact Hacc|].
  apply IH. apply add_pos_or_inf; assumption.
Qed.

Lemma add_zero_l (v : float) : pos_or_inf v = true -> Float.add Float.zero v = v.
Proof. destruct v as [s|[]| |[] m e]; try discriminate; reflexivity. Qed.

(** C10: every price of the table is above 0; a non-empty portfolio
    returned by the collector refers to dictionaries with a quantity of
    at least 1, a price of the table and their product as value; its
    total is a double above 0 (possibly plus infinity), so the guard of
    [calculate_portfolio_weights] does not fire, the function completes
    and in the store it leaves every dictionary of the portfolio holds
    under [weight] the double [(value / total) * 100], its other four
    keys being as they were. *)
Theorem collected_total_is_positive (lines rest : list string) (w w' : world)
  (portfolio : list ref) :
  get_user_portfolio lines w = Outcome (Ok portfolio) rest w' ->
  portfolio <> [] ->
  (forall (t : string) (p : float),
     price_of t = Some p -> Num.is_positive (PyFloat p) = true) /\
  all_holdings collected (heap w') portfolio /\
  exists total : float,
    calculate_portfolio_value (heap w') portfolio = PyFloat total /\
    Num.is_positive (PyFloat total) = true /\
    Num.is_zero (PyFloat total) = false /\
    exists hp' : list holding,
      calculate_portfolio_weights portfolio (PyFloat total) (heap w') = Ok hp' /\
      forall (r : ref) (h : holding), r ∈ portfolio -> heap w' !! r = Some h ->
        exists h' : holding,
          hp' !! r = Some h' /\
          weight h' = Float.mul (Float.div (value h) total) hundred /\
          ticker h' = ticker h /\ quantity h' = quantity h /\
          price h' = price h /\ value h' = value h.
Proof.
  intros Hrun Hne.
  assert (Hall : all_holdings collected (heap w') portfolio).
  { unfold get_user_portfolio in Hrun.
    eapply (resume_collected lines AwaitingTicker); [exact Hrun | constructor]. }
  split.
  { intros t p Hp. destruct (price_of_table t p Hp) as (c & _ & Hpn & _).
    apply (pos_or_inf_nonzero p). apply pos_normal_pos_or_inf. exact Hpn. }
  split; [exact Hall|].
  destruct (all_holdings_holdings _ _ _ Hall) as [Hcoll Hlen].
  assert (Hvals : Forall (fun v => pos_or_inf v = true) (map value (holdings (heap w') portfolio))).
  { apply Forall_map. eapply Forall_impl; [exact Hcoll|]. apply collected_value. }
  unfold calculate_portfolio_value, Num.sum.
  destruct (map value (holdings (heap w') portfolio)) as [|v vs] eqn:Hmap.
  { apply (f_equal length) in Hmap. rewrite length_map, Hlen in Hmap.
    destruct portfolio; [contradiction | discriminate]. }
  eexists. split; [reflexivity|].
  assert (Hpos : pos_or_inf (fold_left Float.add (v :: vs) Float.zero) = true).
  { cbn [fold_left]. inversion Hvals as [|? ? Hv Hrest]; subst.
    rewrite add_zero_l by exact Hv. apply sum_pos_or_inf; assumption. }
  destruct (pos_or_inf_nonzero _ Hpos) as [Hnz Hgt].
  split; [exact Hgt|]. split; [exact Hnz|].
  destruct (weights_pass_keys (heap w') portfolio
              (PyFloat (fold_left Float.add (v :: vs) Float.zero)) _ Hnz eq_refl)
    as (hp' & Hrun' & _ & Hlook).
  exists hp'. split; [exact Hrun'|].
  intros r h Hr Hh.
  destruct (Hlook r h Hh) as (h' & Hh' & Htk & Hq & Hp & Hv & Hw & _).
  exists h'. split; [exact Hh'|]. split; [exact (Hw Hr)|].
  repeat split; assumption.
Qed.

Lemma collected_total_is_positive_witness :
  get_user_portfolio ["NVDA"; "2"; "V"; "10"; "done"]%string (initial_world ∅ []) =
    Outcome (Ok [0; 1]%nat) [] (after example_session) /\
  exists (total : float) (hp' : list holding) (h1 h2 : holding),
    calculate_portfolio_value (heap (after example_session)) [0; 1]%nat = PyFloat total /\
    Num.is_positive (PyFloat total) = true /\
    calculate_portfolio_weights [0; 1]%nat (PyFloat total)
      (heap (after example_session)) = Ok hp' /\
    hp' !! 0%nat = Some h1 /\ hp' !! 1%nat = Some h2 /\
    Float.fixed2 false (weight h1) = "39.33"%string /\
    Float.fixed2 false (weight h2) = "60.67"%string.
Proof.
  assert (Hrun : get_user_portfolio ["NVDA"; "2"; "V"; "10"; "done"]%string
                   (initial_world ∅ []) =
                 Outcome (Ok [0; 1]%nat) [] (after example_session))
    by (vm_compute; reflexivity).
  split; [exact Hrun|].
  destruct (collected_total_is_positive _ _ _ _ _ Hrun)
    as (_ & _ & total & Htotal & Hpos & _ & hp' & Hpass & Hlook).
  - discriminate.
  - destruct (Hlook 0%nat
                {| ticker := "NVDA"; quantity := 2; price := Float.literal 87550 2;
                   value := Float.literal 175100 2; weight := Float.zero |})
      as (h1 & H1 & Hw1 & _);
      [apply elem_of_cons; left; reflexivity | vm_compute; reflexivity |].
    destruct (Hlook 1%nat
                {| ticker := "V"; quantity := 10; price := Float.literal 27015 2;
                   value := Float.literal 270150 2; weight := Float.zero |})
      as (h2 & H2 & Hw2 & _);
      [apply elem_of_cons; right; apply elem_of_cons; left; reflexivity
      | vm_compute; reflexivity |].
    exists total, hp', h1, h2.
    split; [exact Htotal|]. split; [exact Hpos|]. split; [exact Hpass|].
    split; [exact H1|]. split; [exact H2|].
    rewrite Hw1, Hw2. vm_compute in Htotal. injection Htotal as <-.
    split; vm_compute; reflexivity.
Defined.

(** ** Values to the cent *)

(** [hundredths] is the nearest integer to one hundred times the double:
    when that product is less than one half away from an integer, the
    integer is the number of hundredths. *)
Lemma hundredths_spec (m : positive) (e c : Z) :
  (Qabs (F2Q (Z.pos m) e * 100 - inject_Z c) < 1 # 2)%Q ->
  Float.hundredths m e = c.
Proof.
  intros H. apply Qabs_Qlt_condition in H. unfold Float.hundredths.
  destruct (Z.leb_spec 0 e) as [He|He].
  - (* the double is an integer *)
    assert (Hv : (F2Q (Z.pos m) e * 100 == inject_Z (Z.pos m * 100 * 2 ^ e))%Q).
    { unfold F2Q. rewrite (bpow_inject e He), !inject_Z_mult. ring. }
    rewrite Hv in H. set (n := Z.pos m * 100 * 2 ^ e) in *.
    destruct (Z.lt_trichotomy n c) as [Hlt|[Heq|Hgt]]; [exfalso|exact Heq|exfalso].
    + assert (inject_Z (n + 1) <= inject_Z c)%Q by (rewrite <- Zle_Qle; lia).
      rewrite inject_Z_plus in *. change (inject_Z 1) with 1%Q in *. lra.
    + assert (inject_Z (c + 1) <= inject_Z n)%Q by (rewrite <- Zle_Qle; lia).
      rewrite inject_Z_plus in *. change (inject_Z 1) with 1%Q in *. lra.
  - (* the double has a fractional part: [n / d] with [d] a power of two *)
    set (d := 2 ^ (- e)). set (n := Z.pos m * 100).
    assert (Hd : 0 < d) by (apply Z.pow_pos_nonneg; lia).
    assert (HdQ : (0 < inject_Z d)%Q)
      by (change 0%Q with (inject_Z 0); rewrite <- Zlt_Qlt; exact Hd).
    assert (Hv : (F2Q (Z.pos m) e * 100 * inject_Z d == inject_Z n)%Q).
    { unfold F2Q, d, n. rewrite <- (bpow_inject (- e)) by lia. rewrite inject_Z_mult.
      setoid_replace (inject_Z (Z.pos m) * bpow e * 100 * bpow (- e))%Q
        with (inject_Z (Z.pos m) * inject_Z 100 * (bpow e * bpow (- e)))%Q
        using relation Qeq by (change (inject_Z 100) with 100%Q; ring).
      rewrite bpow_cancel. ring. }
    (* the hypothesis on integers: |2 n - 2 c d| < d *)
    assert (Hz : - d < 2 * n - 2 * c * d < d).
    { set (y := (F2Q (Z.pos m) e * 100)%Q) in *. destruct H as [H1 H2].
      assert (Hlo : (- (1 # 2) * inject_Z d < (y - inject_Z c) * inject_Z d)%Q)
        by (apply Qmult_lt_compat_r; assumption).
      assert (Hhi : ((y - inject_Z c) * inject_Z d < (1 # 2) * inject_Z d)%Q)
        by (apply Qmult_lt_compat_r; assumption).
      assert (Heq : ((y - inject_Z c) * inject_Z d == inject_Z n - inject_Z c * inject_Z d)%Q)
        by (rewrite <- Hv; ring).
      rewrite Heq in Hlo, Hhi.
      split; apply inject_Z_lt_inv;
        rewrite ?inject_Z_opp, ?inject_Z_plus, ?inject_Z_opp, ?inject_Z_mult;
        unfold Z.sub; rewrite ?inject_Z_plus, ?inject_Z_opp, ?inject_Z_mult;
        change (inject_Z 2) with 2%Q; lra. }
    pose proof (Z_div_mod n d ltac:(lia)) as Hdm.
    unfold Z.modulo, Z.div. destruct (Z.div_eucl n d) as [q r]. destruct Hdm as [Hn Hr].
    assert (Hk : 2 * n - 2 * c * d = 2 * d * (q - c) + 2 * r) by (rewrite Hn; ring).
    rewrite Hk in Hz.
    destruct (Z.compare_spec (2 * r) d) as [Hc|Hc|Hc].
    + exfalso. destruct (Z.lt_trichotomy q c) as [Hqc|[Hqc|Hqc]]; nia.
    + destruct (Z.lt_trichotomy q c) as [Hqc|[Hqc|Hqc]]; [exfalso; nia | exact Hqc | exfalso; nia].
    + destruct (Z.lt_trichotomy (q + 1) c) as [Hqc|[Hqc|Hqc]]; [exfalso; nia | exact Hqc | exfalso; nia].
Qed.

Lemma cents_of_table (t : string) (c : Z) :
  cents_of t = Some c ->
  String.eqb t "DONE" = false /\
  exists p : float, price_of t = Some p /\ table_price c p.
Proof.
  unfold cents_of, PRICE_LITERALS. cbn [assoc_get]. intros H.
  repeat match type of H with
         | context [String.eqb t ?s] =>
             destruct (String.eqb_spec t s) as [->|_];
             [injection H as <-; split; [reflexivity|]; eexists; split; [reflexivity|];
              repeat split; vm_compute; congruence |]
         end.
  discriminate.
Qed.

(** A product of a bounded non-negative factor and a small factor. *)
Lemma Qmult_small (a x A X : Q) :
  (0 <= a /\ a <= A)%Q -> (- X <= x /\ x <= X)%Q ->
  (- (A * X) <= a * x /\ a * x <= A * X)%Q.
Proof.
  intros [Ha0 HaA] [Hx1 Hx2].
  assert (HAX : (0 <= A * X)%Q) by (apply Qmult_le_0_compat; lra).
  destruct (Qlt_le_dec x 0) as [Hneg|Hpos].
  - assert (H1 : (0 <= a * - x)%Q) by (apply Qmult_le_0_compat; lra).
    assert (H2 : (a * - x <= A * X)%Q) by (apply Qmult_le_compat_nonneg; split; lra).
    setoid_replace (a * x)%Q with (- (a * - x))%Q using relation Qeq by ring. lra.
  - assert (H1 : (0 <= a * x)%Q) by (apply Qmult_le_0_compat; lra).
    assert (H2 : (a * x <= A * X)%Q) by (apply Qmult_le_compat_nonneg; split; lra).
    lra.
Qed.

(** The product of a quantity up to [10^10] and a price of the table, in
    doubles, against the product of the quantity and the decimal
    literal. *)
Lemma small_product_to_the_cent (q c : Z) (p : float) :
  1 <= q <= 10 ^ 10 -> table_price c p ->
  exists v : float,
    Num.int_mul_float q p = Ok v /\
    pos_normal v = true /\
    (Qabs (Float.to_Q v - (q * c # 100)) < 1 # 200)%Q.
Proof.
  intros Hq (Hpn & Hp1 & Hp1000 & Hpc & Hc).
  (* the quantity converts exactly *)
  pose proof (round_int_value q ltac:(lia)) as [_ Hconv]. cbv zeta in Hconv.
  assert (HqQ : (1 <= inject_Z q /\ inject_Z q <= 10000000000)%Q).
  { change 1%Q with (inject_Z 1). change 10000000000%Q with (inject_Z (10 ^ 10)).
    rewrite <- !Zle_Qle. exact Hq. }
  destruct Hconv as (Hfq & _ & Hexact).
  { eapply Qle_lt_trans; [apply HqQ|]. vm_compute. reflexivity. }
  specialize (Hexact ltac:(lia)).
  set (fq := Float.round_int q) in *.
  assert (Hof : Float.of_int q = Some fq).
  { unfold Float.of_int. fold fq.
    destruct (pos_normal_inv fq Hfq) as (m & e & -> & _). reflexivity. }
  unfold Num.int_mul_float, Num.as_float. rewrite Hof. cbn [bind].
  exists (Float.mul fq p). split; [reflexivity|].
  (* the product is rounded once *)
  set (P := Float.to_Q p) in *.
  assert (Hprod : (inject_Z q * P <= 10000000000000)%Q).
  { setoid_replace 10000000000000%Q with (10000000000 * 1000)%Q
      using relation Qeq by reflexivity.
    apply Qmult_le_compat_nonneg; split; lra. }
  assert (Hprod1 : (1 <= inject_Z q * P)%Q).
  { setoid_replace 1%Q with (1 * 1)%Q using relation Qeq by reflexivity.
    apply Qmult_le_compat_nonneg; split; lra. }
  destruct (mul_value fq p Hfq Hpn) as [_ Hmul].
  { rewrite Hexact. fold P. eapply Qle_trans; [|exact Hprod1]. vm_compute. discriminate. }
  cbv zeta in Hmul. rewrite Hexact in Hmul. fold P in Hmul.
  destruct Hmul as (Hvn & Herr & _).
  { eapply Qle_lt_trans; [exact Hprod|]. vm_compute. reflexivity. }
  split; [exact Hvn|].
  set (V := Float.to_Q (Float.mul fq p)) in *.
  change (bpow (-53)) with (1 # 9007199254740992)%Q in Herr.
  apply Qabs_Qle_condition in Herr. apply Qabs_Qle_condition in Hpc.
  (* the literal against the double of the price, times the quantity *)
  assert (Hlit : (q * c # 100 == inject_Z q * (c # 100))%Q).
  { unfold Qeq, Qmult, inject_Z. cbn. lia. }
  assert (Hdiff : (- (10000000000 * (1 # 17592186044416)) <= inject_Z q * (P - (c # 100)) /\
                   inject_Z q * (P - (c # 100)) <= 10000000000 * (1 # 17592186044416))%Q)
    by (apply Qmult_small; lra).
  apply Qabs_Qlt_condition. rewrite Hlit.
  setoid_replace (V - inject_Z q * (c # 100))%Q
    with ((V - inject_Z q * P) + inject_Z q * (P - (c # 100)))%Q using relation Qeq by ring.
  lra.
Qed.

(** C1, on the code: entering a ticker of the table and a quantity [q]
    from 1 to [10^10] appends one dictionary with that ticker, that
    quantity, the price of the table, weight 0.0 and, as value, the
    product of the quantity and the price in doubles; that double is less
    than half a cent away from [q] times the decimal price, so that
    rounded to the cent, as the report shows it, it is [q] times the
    price exactly. *)
Theorem value_exact_to_the_cent (t line1 line2 : string) (c q : Z)
  (rest : list string) (portfolio : list ref) (w : world) :
  Text.upper (Text.strip line1) = t ->
  cents_of t = Some c ->
  Text.parse_int (Text.strip line2) = Some q ->
  1 <= q <= 10 ^ 10 ->
  exists (p v : float) (m : positive) (e : Z) (w' : world),
    price_of t = Some p /\
    ticker_loop (line1 :: line2 :: rest) portfolio w =
      ticker_loop rest (portfolio ++ [length (heap w)]) w' /\
    heap w' = heap w ++ [{| ticker := t; quantity := q; price := p; value := v;
                            weight := Float.zero |}] /\
    Num.int_mul_float q p = Ok v /\
    v = S754_finite false m e /\
    Float.hundredths m e = q * c /\
    (Qabs (Float.to_Q v - (q * c # 100)) < 1 # 200)%Q.
Proof.
  intros Ht Hc Hparse Hq.
  destruct (cents_of_table t c Hc) as (Hsent & p & Hp & Htable).
  destruct (small_product_to_the_cent q c p Hq Htable) as (v & Hv & Hvn & Herr).
  destruct (pos_normal_inv v Hvn) as (m & e & Hve & _).
  exists p, v, m, e.
  eexists. split; [exact Hp|]. split; [|split; [|split; [exact Hv|split; [exact Hve|split]]]].
  - cbn [ticker_loop]. rewrite Ht, Hsent, Hp. cbn [quantity_loop]. rewrite Hparse.
    destruct (String.eqb_spec (Text.strip line2) EmptyString) as [Hempty|_].
    { rewrite Hempty in Hparse. discriminate. }
    destruct (Z.leb_spec q 0) as [|_]; [lia|].
    unfold add_holding. rewrite Hp, Hv. cbn. reflexivity.
  - reflexivity.
  - apply hundredths_spec. subst v. rewrite to_Q_finite in Herr.
    apply Qabs_Qlt_condition in Herr. apply Qabs_Qlt_condition.
    assert (Hcents : (inject_Z (q * c) == (q * c # 100) * 100)%Q).
    { unfold Qeq, Qmult, inject_Z. cbn. lia. }
    rewrite Hcents. lra.
  - exact Herr.
Qed.

Lemma value_exact_to_the_cent_witness :
  exists (p v : float) (m : positive) (e : Z) (w' : world),
    price_of "JNJ" = Some p /\
    ticker_loop [" jnj"; "3"; "done"]%string [] (initial_world ∅ []) =
      ticker_loop ["done"]%string ([] ++ [length (heap (initial_world ∅ []))]) w' /\
    heap w' = heap (initial_world ∅ []) ++
              [{| ticker := "JNJ"; quantity := 3; price := p; value := v;
                  weight := Float.zero |}] /\
    Num.int_mul_float 3 p = Ok v /\
    v = S754_finite false m e /\
    Float.hundredths m e = 3 * 15830 /\
    (Qabs (Float.to_Q v - (3 * 15830 # 100)) < 1 # 200)%Q.
Proof.
  apply (value_exact_to_the_cent "JNJ" " jnj" "3" 15830 3 ["done"]%string []
           (initial_world ∅ [])); [reflexivity | reflexivity | reflexivity | lia].
Defined.

(** C1 as stated fails for large quantities.  A thousand billion and one
    shares of V: the quantity converts exactly, the product of the two
    doubles is rounded, and the value stored is 270,150,000,000,270.12,
    three cents below [q] times 270.15. *)
Lemma value_off_by_three_cents :
  exists (v : float) (m : positive) (e : Z) (w' : world),
    cents_of "V" = Some 27015 /\
    ticker_loop ["V"; "1000000000001"; "done"]%string [] (initial_world ∅ []) =
      ticker_loop ["done"]%string [0%nat] w' /\
    heap w' = [{| ticker := "V"; quantity := 1000000000001;
                  price := Float.literal 27015 2; value := v; weight := Float.zero |}] /\
    v = S754_finite false m e /\
    Float.hundredths m e = 27015000000027012 /\
    1000000000001 * 27015 = 27015000000027015 /\
    Float.fixed2 true v = "270,150,000,000,270.12"%string.
Proof.
  eexists _, _, _, _. repeat split; vm_compute; reflexivity.
Qed.

(** ** The sum of the weights *)

Lemma inject_nat_succ (n : nat) :
  (inject_Z (Z.of_nat (S n)) == inject_Z (Z.of_nat n) + 1)%Q.
Proof. rewrite Nat2Z.inj_succ. unfold Z.succ. rewrite inject_Z_plus. reflexivity. Qed.

Lemma inject_nat_bounds (n : nat) :
  Z.of_nat n <= size_max ->
  (0 <= inject_Z (Z.of_nat n) /\ inject_Z (Z.of_nat n) <= 1048576)%Q.
Proof.
  intros H. split.
  - change 0%Q with (inject_Z 0). rewrite <- Zle_Qle. lia.
  - change 1048576%Q with (inject_Z size_max). rewrite <- Zle_Qle. exact H.
Qed.

(** Accumulated rounding factors stay close to 1 for up to [size_max]
    operations. *)
Lemma qpow_up (n : nat) :
  Z.of_nat n <= size_max ->
  (1 <= qpow (1 + u53) n /\ qpow (1 + u53) n <= 1 + 2 * inject_Z (Z.of_nat n) * u53)%Q.
Proof.
  induction n as [|n IH]; intros Hn.
  - cbn [qpow]. change (inject_Z (Z.of_nat 0)) with 0%Q. unfold u53. lra.
  - destruct IH as [IH1 IH2]; [lia|].
    pose proof (inject_nat_bounds n ltac:(lia)) as [Hn0 Hn1].
    cbn [qpow]. rewrite inject_nat_succ. unfold u53 in *. lra.
Qed.

Lemma qpow_lo (n : nat) :
  Z.of_nat n <= size_max ->
  (1 - inject_Z (Z.of_nat n) * u53 <= qpow (1 - u53) n /\ qpow (1 - u53) n <= 1)%Q.
Proof.
  induction n as [|n IH]; intros Hn.
  - cbn [qpow]. change (inject_Z (Z.of_nat 0)) with 0%Q. unfold u53. lra.
  - destruct IH as [IH1 IH2]; [lia|].
    pose proof (inject_nat_bounds n ltac:(lia)) as [Hn0 Hn1].
    cbn [qpow]. rewrite inject_nat_succ. unfold u53 in *. lra.
Qed.

Lemma qpow_up_const (n : nat) :
  Z.of_nat n <= size_max ->
  (1 <= qpow (1 + u53) n /\ qpow (1 + u53) n <= 1 + (1 # 4294967296))%Q.
Proof.
  intros Hn. destruct (qpow_up n Hn) as [H1 H2].
  pose proof (inject_nat_bounds n Hn) as [Hn0 Hn1].
  unfold u53 in *. lra.
Qed.

Lemma qpow_lo_const (n : nat) :
  Z.of_nat n <= size_max ->
  (1 - (1 # 8589934592) <= qpow (1 - u53) n /\ qpow (1 - u53) n <= 1)%Q.
Proof.
  intros Hn. destruct (qpow_lo n Hn) as [H1 H2].
  pose proof (inject_nat_bounds n Hn) as [Hn0 Hn1].
  unfold u53 in *. lra.
Qed.

(** One rounded addition inside a running sum: the factors by which
    the sum may be off grow by one rounding. *)
Lemma add_step_up (T S x U T' : Q) :
  (0 <= x)%Q -> (1 <= U)%Q -> (T <= S * U)%Q -> (T' <= (T + x) * (1 + u53))%Q ->
  (T' <= (S + x) * ((1 + u53) * U))%Q.
Proof.
  intros Hx HU HT HT'.
  assert (H1 : (x * 1 <= x * U)%Q) by (apply Qmult_le_compat_nonneg; split; lra).
  setoid_replace ((S + x) * ((1 + u53) * U))%Q with ((S * U + x * U) * (1 + u53))%Q
    using relation Qeq by ring.
  eapply Qle_trans; [exact HT'|]. apply Qmult_le_compat_r; [lra | unfold u53; lra].
Qed.

Lemma add_step_lo (T S x L T' : Q) :
  (0 <= x)%Q -> (L <= 1)%Q -> (S * L <= T)%Q -> ((T + x) * (1 - u53) <= T')%Q ->
  ((S + x) * ((1 - u53) * L) <= T')%Q.
Proof.
  intros Hx HL HT HT'.
  assert (H1 : (x * L <= x * 1)%Q).
  { rewrite (Qmult_comm x L), (Qmult_comm x 1). apply Qmult_le_compat_r; lra. }
  setoid_replace ((S + x) * ((1 - u53) * L))%Q with ((S * L + x * L) * (1 - u53))%Q
    using relation Qeq by ring.
  eapply Qle_trans; [|exact HT']. apply Qmult_le_compat_r; [lra | unfold u53; lra].
Qed.

(** A relative error bound read as two bounds. *)
Lemma relative_error_bounds (r x : Q) :
  (Qabs (r - x) <= bpow (-53) * x)%Q ->
  (x * (1 - u53) <= r /\ r <= x * (1 + u53))%Q.
Proof.
  intros H. change (bpow (-53)) with u53 in H. apply Qabs_Qle_condition in H.
  split; lra.
Qed.

Lemma value_max_pos : (0 < value_max)%Q.
Proof. apply bpow_pos. Qed.

Lemma bpow_1023 : (bpow 1023 == 8589934592 * value_max)%Q.
Proof.
  unfold value_max. change 1023 with (33 + 990). rewrite bpow_add. reflexivity.
Qed.

(** The running sum of [sum()]: after [k] items the accumulator is a
    positive normal double that differs from the exact sum [S] by at
    most [k] roundings, and this goes on through the items still to be
    added. *)
Lemma running_sum (vs : list float) :
  forall (acc : float) (k : nat) (S : Q),
    Forall in_range vs ->
    (1 <= k)%nat -> Z.of_nat (k + length vs) <= size_max ->
    pos_normal acc = true ->
    (S * qpow (1 - u53) k <= Float.to_Q acc)%Q ->
    (Float.to_Q acc <= S * qpow (1 + u53) k)%Q ->
    (inject_Z (Z.of_nat k) <= S)%Q ->
    (S <= inject_Z (Z.of_nat k) * value_max)%Q ->
    pos_normal (fold_left Float.add vs acc) = true /\
    ((S + Qsum (map Float.to_Q vs)) * qpow (1 - u53) (k + length vs)
       <= Float.to_Q (fold_left Float.add vs acc))%Q /\
    (Float.to_Q (fold_left Float.add vs acc)
       <= (S + Qsum (map Float.to_Q vs)) * qpow (1 + u53) (k + length vs))%Q /\
    (inject_Z (Z.of_nat (k + length vs)) <= S + Qsum (map Float.to_Q vs))%Q /\
    (S + Qsum (map Float.to_Q vs)
       <= inject_Z (Z.of_nat (k + length vs)) * value_max)%Q.
Proof.
  induction vs as [|v vs IH]; intros acc k S Hvs Hk Hsize Hacc Hlo Hhi HS1 HS2.
  - cbn [fold_left map Qsum fold_right length]. rewrite Nat.add_0_r.
    setoid_replace (S + 0)%Q with S using relation Qeq by ring. auto.
  - inversion Hvs as [|? ? (Hv & Hv1 & HvM) Hrest]; subst.
    cbn [length] in Hsize.
    pose proof value_max_pos as HM.
    pose proof (inject_nat_bounds k ltac:(lia)) as [HN0 HN1].
    destruct (qpow_up_const k ltac:(lia)) as [HU1 HU2].
    destruct (qpow_lo_const k ltac:(lia)) as [HL1 HL2].
    set (N := inject_Z (Z.of_nat k)) in *.
    set (U := qpow (1 + u53) k) in *. set (L := qpow (1 - u53) k) in *.
    set (A := Float.to_Q acc) in *. set (x := Float.to_Q v) in *.
    (* no overflow *)
    assert (HNM : (N * value_max <= 1048576 * value_max)%Q)
      by (apply Qmult_le_compat_r; lra).
    assert (HSU : (S * U <= (N * value_max) * 2)%Q)
      by (apply Qmult_le_compat_nonneg; split; lra).
    assert (Hfin : (A + x < bpow 1023)%Q) by (rewrite bpow_1023; lra).
    destruct (add_value acc v Hacc Hv) as [_ Hadd]. fold A x in Hadd.
    destruct (Hadd Hfin) as (Hacc1 & Herr & _).
    apply relative_error_bounds in Herr. destruct Herr as [Herr1 Herr2].
    set (A1 := Float.to_Q (Float.add acc v)) in *.
    assert (Hx0 : (0 <= x)%Q) by lra.
    pose proof (add_step_up A S x U A1 Hx0 HU1 Hhi Herr2) as Hup.
    pose proof (add_step_lo A S x L A1 Hx0 HL2 Hlo Herr1) as Hdown.
    (* the remaining items *)
    cbn [fold_left map Qsum fold_right length].
    replace (k + Datatypes.S (length vs))%nat with (Datatypes.S k + length vs)%nat by lia.
    assert (HSx : (S + (x + Qsum (map Float.to_Q vs)) == (S + x) + Qsum (map Float.to_Q vs))%Q)
      by ring.
    fold (Qsum (map Float.to_Q vs)). fold x. rewrite !HSx.
    apply IH.
    + exact Hrest.
    + lia.
    + lia.
    + exact Hacc1.
    + exact Hdown.
    + exact Hup.
    + rewrite inject_nat_succ. fold N. lra.
    + rewrite inject_nat_succ. fold N.
      setoid_replace ((N + 1) * value_max)%Q with (N * value_max + value_max)%Q
        using relation Qeq by ring.
      lra.
Qed.

(** The total of a non-empty list of values in range. *)
Lemma total_bounds (vs : list float) :
  vs <> [] -> Forall in_range vs -> Z.of_nat (length vs) <= size_max ->
  let T := fold_left Float.add vs Float.zero in
  let S := Qsum (map Float.to_Q vs) in
  pos_normal T = true /\
  (S * (1 - (1 # 8589934592)) <= Float.to_Q T)%Q /\
  (Float.to_Q T <= S * (1 + (1 # 4294967296)))%Q /\
  (1 <= S)%Q /\ (S <= 1048576 * value_max)%Q.
Proof.
  intros Hne Hvs Hsize T S. destruct vs as [|v vs]; [contradiction|].
  inversion Hvs as [|? ? (Hv & Hv1 & HvM) Hrest]; subst.
  cbn [length] in Hsize.
  assert (Hk : Z.of_nat (1 + length vs) <= size_max) by lia.
  pose proof value_max_pos as HM.
  destruct (running_sum vs v 1 (Float.to_Q v) Hrest (le_n 1) Hk Hv)
    as (HT & Hlo & Hhi & Hn1 & Hn2).
  { cbn [qpow]. unfold u53. lra. }
  { cbn [qpow]. unfold u53. lra. }
  { exact Hv1. }
  { change (inject_Z (Z.of_nat 1)) with 1%Q. lra. }
  unfold T, S. cbn [fold_left map Qsum fold_right].
  rewrite (add_zero_l v) by (apply pos_normal_pos_or_inf; exact Hv).
  fold (Qsum (map Float.to_Q vs)).
  set (S' := (Float.to_Q v + Qsum (map Float.to_Q vs))%Q) in *.
  set (t := Float.to_Q (fold_left Float.add vs v)) in *.
  destruct (qpow_up_const (1 + length vs) Hk) as [HU1 HU2].
  destruct (qpow_lo_const (1 + length vs) Hk) as [HL1 HL2].
  pose proof (inject_nat_bounds (1 + length vs) Hk) as [HN0 HN1].
  assert (HN : (1 <= inject_Z (Z.of_nat (1 + length vs)))%Q)
    by (change 1%Q with (inject_Z 1); rewrite <- Zle_Qle; lia).
  assert (HS0 : (0 <= S')%Q) by lra.
  split; [exact HT|]. split; [|split; [|split]].
  - eapply Qle_trans; [|exact Hlo].
    rewrite (Qmult_comm S' (1 - _)), (Qmult_comm S' (qpow _ _)).
    apply Qmult_le_compat_r; assumption.
  - eapply Qle_trans; [exact Hhi|].
    rewrite (Qmult_comm S' (qpow _ _)), (Qmult_comm S' (1 + _)).
    apply Qmult_le_compat_r; assumption.
  - lra.
  - eapply Qle_trans; [exact Hn2|]. apply Qmult_le_compat_r; lra.
Qed.

Lemma to_Q_hundred : (Float.to_Q hundred == 100)%Q.
Proof. reflexivity. Qed.

(** The weight of one holding: [(value / total) * 100] in doubles, times
    the total, against one hundred times the value. *)
Lemma weight_bounds (v T : float) :
  in_range v -> pos_normal T = true ->
  (1 # 2 <= Float.to_Q T)%Q -> (Float.to_Q T <= 2097152 * value_max)%Q ->
  let w := Float.mul (Float.div v T) hundred in
  (100 * (1 - u53) * (1 - u53) * Float.to_Q v <= Float.to_Q w * Float.to_Q T)%Q /\
  (Float.to_Q w * Float.to_Q T <= 100 * (1 + u53) * (1 + u53) * Float.to_Q v)%Q.
Proof.
  intros (Hv & Hv1 & HvM) HT HT1 HT2 w.
  pose proof value_max_pos as HM.
  set (a := Float.to_Q v) in *. set (t := Float.to_Q T) in *.
  assert (Ht0 : (0 < t)%Q) by lra.
  assert (Hxt : (a / t * t == a)%Q) by (field; lra).
  (* the quotient *)
  assert (Hxlo : (bpow (-1020) <= a / t)%Q).
  { apply Qle_shift_div_l; [exact Ht0|].
    assert (Hc : (bpow (-1020) * (2097152 * value_max) <= 1)%Q)
      by (unfold value_max; vm_compute; discriminate).
    assert (Hm : (bpow (-1020) * t <= bpow (-1020) * (2097152 * value_max))%Q)
      by (apply Qmult_le_l; [apply bpow_pos | exact HT2]).
    lra. }
  assert (Hxhi : (a / t <= 2 * value_max)%Q).
  { apply Qle_shift_div_r; [exact Ht0|].
    assert (Hm : (2 * value_max * (1 # 2) <= 2 * value_max * t)%Q)
      by (apply Qmult_le_l; lra).
    lra. }
  destruct (div_value v T Hv HT Hxlo) as [_ Hdiv]. fold a t in Hdiv.
  destruct Hdiv as (Hq & Hqerr & _).
  { rewrite bpow_1023. lra. }
  apply relative_error_bounds in Hqerr. destruct Hqerr as [Hq1 Hq2].
  set (q := Float.to_Q (Float.div v T)) in *.
  assert (Hx0 : (0 <= a / t)%Q) by (pose proof (bpow_pos (-1020)); lra).
  (* the product with 100 *)
  assert (Hh : pos_normal hundred = true) by reflexivity.
  pose proof (pos_normal_bounds _ Hq) as [Hqlo _]. fold q in Hqlo.
  pose proof (bpow_pos (-1022)) as Hpos.
  assert (Hylo : (bpow (-1022) <= q * Float.to_Q hundred)%Q).
  { rewrite to_Q_hundred. lra. }
  destruct (mul_value (Float.div v T) hundred Hq Hh Hylo) as [_ Hmul].
  fold q in Hmul. rewrite to_Q_hundred in Hmul.
  destruct Hmul as (_ & Hwerr & _).
  { rewrite bpow_1023. unfold u53 in Hq2. lra. }
  apply relative_error_bounds in Hwerr. destruct Hwerr as [Hw1 Hw2].
  fold w in Hw1, Hw2. set (W := Float.to_Q w) in *.
  (* everything times the total *)
  assert (Hqt1 : (a / t * (1 - u53) * t <= q * t)%Q)
    by (apply Qmult_le_compat_r; lra).
  assert (Hqt2 : (q * t <= a / t * (1 + u53) * t)%Q)
    by (apply Qmult_le_compat_r; lra).
  assert (Hwt1 : (q * 100 * (1 - u53) * t <= W * t)%Q)
    by (apply Qmult_le_compat_r; lra).
  assert (Hwt2 : (W * t <= q * 100 * (1 + u53) * t)%Q)
    by (apply Qmult_le_compat_r; lra).
  setoid_replace (a / t * (1 - u53) * t)%Q with (a / t * t * (1 - u53))%Q
    using relation Qeq in Hqt1 by ring.
  setoid_replace (a / t * (1 + u53) * t)%Q with (a / t * t * (1 + u53))%Q
    using relation Qeq in Hqt2 by ring.
  rewrite Hxt in Hqt1, Hqt2.
  setoid_replace (q * 100 * (1 - u53) * t)%Q with (q * t * (100 * (1 - u53)))%Q
    using relation Qeq in Hwt1 by ring.
  setoid_replace (q * 100 * (1 + u53) * t)%Q with (q * t * (100 * (1 + u53)))%Q
    using relation Qeq in Hwt2 by ring.
  unfold u53 in *. split; lra.
Qed.

(** The weights of a list of holdings, summed exactly and multiplied by
    the total, against one hundred times the exact sum of the values. *)
Lemma weights_times_total (T : float) (hs : list holding) :
  Forall (fun h => in_range (value h)) hs -> pos_normal T = true ->
  (1 # 2 <= Float.to_Q T)%Q -> (Float.to_Q T <= 2097152 * value_max)%Q ->
  let W := Qsum (map (fun h => Float.to_Q (weight (weighted T h))) hs) in
  let S := Qsum (map Float.to_Q (map value hs)) in
  (100 * (1 - u53) * (1 - u53) * S <= W * Float.to_Q T)%Q /\
  (W * Float.to_Q T <= 100 * (1 + u53) * (1 + u53) * S)%Q.
Proof.
  intros Hhs HT HT1 HT2. induction Hhs as [|h hs Hh _ IH]; cbv zeta.
  - cbn. lra.
  - cbv zeta in IH. cbn [map]. unfold Qsum in *. cbn [fold_right].
    destruct (weight_bounds (value h) T Hh HT HT1 HT2) as [Hw1 Hw2].
    change (Float.mul (Float.div (value h) T) hundred)
      with (weight (weighted T h)) in Hw1, Hw2.
    set (W := fold_right Qplus 0%Q (map (fun h => Float.to_Q (weight (weighted T h))) hs)) in *.
    set (S := fold_right Qplus 0%Q (map Float.to_Q (map value hs))) in *.
    set (w := Float.to_Q (weight (weighted T h))) in *.
    setoid_replace ((w + W) * Float.to_Q T)%Q with (w * Float.to_Q T + W * Float.to_Q T)%Q
      using relation Qeq by ring.
    unfold u53 in *. split; lra.
Qed.

(** After the weight pass, the dictionaries of the portfolio are the old
    ones with their weights set. *)
Lemma holdings_weighted (t : float) (hp hp' : list holding) (portfolio : list ref) :
  (forall (r : ref) (h : holding), hp !! r = Some h ->
     hp' !! r = Some (if bool_decide (r ∈ portfolio) then weighted t h else h)) ->
  forall part : list ref,
    part ⊆ portfolio -> valid_refs hp part ->
    holdings hp' part = map (weighted t) (holdings hp part).
Proof.
  intros Hlook part. induction part as [|r part IH]; intros Hsub Hvalid; [reflexivity|].
  inversion Hvalid as [|? ? Hr Hrest]; subst.
  destruct (lookup_lt_is_Some_2 hp r Hr) as [h Hh].
  unfold holdings in *. cbn [omap list_omap]. rewrite Hh, (Hlook r h Hh).
  rewrite bool_decide_eq_true_2 by (apply Hsub; left). cbn.
  f_equal. apply IH; [|exact Hrest].
  intros x Hx. apply Hsub. right. exact Hx.
Qed.

Lemma all_holdings_valid (P : holding -> Prop) (hp : list holding) (portfolio : list ref) :
  all_holdings P hp portfolio -> valid_refs hp portfolio.
Proof.
  unfold all_holdings, valid_refs. intros H. eapply Forall_impl; [exact H|].
  intros r (h & Hr & _). eapply lookup_lt_Some. exact Hr.
Qed.

(** C2, on the code: for a portfolio of at least one and at most
    1,048,576 holdings whose values are positive normal doubles between 1
    and [2^990], the total is a double other than 0, the weight pass
    completes, and the exact sum of the weights it stores differs from
    100 by at most one millionth, far below half a unit of the second
    decimal. *)
Theorem weights_sum_to_100 (hp : list holding) (portfolio : list ref) :
  portfolio <> [] ->
  Z.of_nat (length portfolio) <= size_max ->
  all_holdings (fun h => in_range (value h)) hp portfolio ->
  exists (total : float) (hp' : list holding),
    calculate_portfolio_value hp portfolio = PyFloat total /\
    Num.is_zero (PyFloat total) = false /\
    calculate_portfolio_weights portfolio (PyFloat total) hp = Ok hp' /\
    (Qabs (weight_sum hp' portfolio - 100) <= 1 # 1000000)%Q.
Proof.
  intros Hne Hsize Hall.
  destruct (all_holdings_holdings _ _ _ Hall) as [Hhs Hlen].
  pose proof (all_holdings_valid _ _ _ Hall) as Hvalid.
  set (hs := holdings hp portfolio) in *.
  assert (Hvs : Forall in_range (map value hs)) by (apply Forall_map; exact Hhs).
  assert (Hvne : map value hs <> []).
  { intros Hnil. apply (f_equal length) in Hnil. rewrite length_map, Hlen in Hnil.
    destruct portfolio; [contradiction | discriminate]. }
  assert (Hvsize : Z.of_nat (length (map value hs)) <= size_max)
    by (rewrite length_map, Hlen; exact Hsize).
  destruct (total_bounds (map value hs) Hvne Hvs Hvsize) as (HT & Hlo & Hhi & HS1 & HS2).
  set (T := fold_left Float.add (map value hs) Float.zero) in *.
  set (S := Qsum (map Float.to_Q (map value hs))) in *.
  pose proof value_max_pos as HM.
  assert (HT1 : (1 # 2 <= Float.to_Q T)%Q) by lra.
  assert (HT2 : (Float.to_Q T <= 2097152 * value_max)%Q) by lra.
  assert (Htotal : calculate_portfolio_value hp portfolio = PyFloat T).
  { unfold calculate_portfolio_value, Num.sum. fold hs.
    destruct (map value hs); [contradiction | reflexivity]. }
  destruct (pos_or_inf_nonzero T (pos_normal_pos_or_inf T HT)) as [Hnz _].
  destruct (weights_pass hp portfolio (PyFloat T) T Hnz eq_refl)
    as (hp' & Hrun & _ & Hlook).
  exists T, hp'. split; [exact Htotal|]. split; [exact Hnz|]. split; [exact Hrun|].
  unfold weight_sum.
  rewrite (holdings_weighted T hp hp' portfolio Hlook portfolio) by (auto; set_solver).
  fold hs. rewrite map_map.
  destruct (weights_times_total T hs Hhs HT HT1 HT2) as [HW1 HW2].
  set (W := Qsum (map (fun h => Float.to_Q (weight (weighted T h))) hs)) in *.
  fold S in HW1, HW2.
  set (t := Float.to_Q T) in *.
  assert (Ht0 : (0 < t)%Q) by lra.
  apply Qabs_Qle_condition. split.
  - apply (Qmult_le_r _ _ t Ht0).
    setoid_replace ((W - 100) * t)%Q with (W * t - 100 * t)%Q using relation Qeq by ring.
    unfold u53 in *. lra.
  - apply (Qmult_le_r _ _ t Ht0).
    setoid_replace ((W - 100) * t)%Q with (W * t - 100 * t)%Q using relation Qeq by ring.
    unfold u53 in *. lra.
Qed.

Lemma weights_sum_to_100_witness :
  exists (total : float) (hp' : list holding),
    calculate_portfolio_value (heap (after example_session)) [0; 1]%nat = PyFloat total /\
    Num.is_zero (PyFloat total) = false /\
    calculate_portfolio_weights [0; 1]%nat (PyFloat total) (heap (after example_session))
      = Ok hp' /\
    (Qabs (weight_sum hp' [0; 1]%nat - 100) <= 1 # 1000000)%Q.
Proof.
  apply (weights_sum_to_100 (heap (after example_session)) [0; 1]%nat).
  - discriminate.
  - vm_compute. discriminate.
  - constructor; [|constructor; [|constructor]];
      (eexists; split; [reflexivity|]; repeat split; vm_compute; congruence).
Defined.

(** C2 as stated fails when the total overflows.  Two entries of 10^305
    shares of ASML: each value is a finite double near 9.96e307, their
    sum is plus infinity, which is not 0, and every weight is
    [(value / inf) * 100 = 0.0]: the weights sum to 0, not to 100. *)
Lemma weights_sum_to_zero_on_overflow :
  exists (w' : world) (hp' : list holding),
    get_user_portfolio ["ASML"; huge_quantity; "ASML"; huge_quantity; "done"]%string
      (initial_world ∅ []) = Outcome (Ok [0; 1]%nat) [] w' /\
    map (fun h => Float.is_finite (value h)) (heap w') = [true; true] /\
    calculate_portfolio_value (heap w') [0; 1]%nat = PyFloat (S754_infinity false) /\
    Num.is_zero (PyFloat (S754_infinity false)) = false /\
    calculate_portfolio_weights [0; 1]%nat (PyFloat (S754_infinity false)) (heap w') = Ok hp' /\
    map weight hp' = [Float.zero; Float.zero] /\
    weight_sum hp' [0; 1]%nat = 0%Q /\
    map (fun h => Float.fixed2 false (weight h)) hp' = ["0.00"; "0.00"]%string.
Proof.
  eexists _, _.
  split; [vm_compute; reflexivity|].
  split; [vm_compute; reflexivity|].
  split; [vm_compute; reflexivity|].
  split; [vm_compute; reflexivity|].
  split; [vm_compute; reflexivity|].
  split; [vm_compute; reflexivity|].
  split; vm_compute; reflexivity.
Qed.

(** ** Valuation: the total and the exact sum *)

(** The total of a portfolio with values in range, against the exact
    sum. *)
Lemma in_range_total (hp : list holding) (portfolio : list ref) :
  portfolio <> [] ->
  Z.of_nat (length portfolio) <= size_max ->
  all_holdings (fun h => in_range (value h)) hp portfolio ->
  exists T : float,
    calculate_portfolio_value hp portfolio = PyFloat T /\
    pos_normal T = true /\
    (exact_total (holdings hp portfolio) * (1 - (1 # 8589934592)) <= Float.to_Q T)%Q /\
    (Float.to_Q T <= exact_total (holdings hp portfolio) * (1 + (1 # 4294967296)))%Q /\
    (1 <= exact_total (holdings hp portfolio))%Q /\
    (exact_total (holdings hp portfolio) <= 1048576 * value_max)%Q.
Proof.
  intros Hne Hsize Hall.
  destruct (all_holdings_holdings _ _ _ Hall) as [Hhs Hlen].
  set (hs := holdings hp portfolio) in *.
  assert (Hvs : Forall in_range (map value hs)) by (apply Forall_map; exact Hhs).
  assert (Hvne : map value hs <> []).
  { intros Hnil. apply (f_equal length) in Hnil. rewrite length_map, Hlen in Hnil.
    destruct portfolio; [contradiction | discriminate]. }
  assert (Hvsize : Z.of_nat (length (map value hs)) <= size_max)
    by (rewrite length_map, Hlen; exact Hsize).
  destruct (total_bounds (map value hs) Hvne Hvs Hvsize) as (HT & Hlo & Hhi & HS1 & HS2).
  exists (fold_left Float.add (map value hs) Float.zero).
  split; [|split; [exact HT|split; [exact Hlo|split; [exact Hhi|split; assumption]]]].
  unfold calculate_portfolio_value, Num.sum. fold hs.
  destruct (map value hs); [contradiction | reflexivity].
Qed.







(** * Further properties *)

(** ** The collector: what it touches, how it ends *)

(** What the two loops leave alone and what they add. *)
Lemma resume_frame (lines : list string) :
  forall (a : asking) (portfolio : list ref) (w : world),
    disk (after (resume a lines portfolio w)) = disk w /\
    faults (after (resume a lines portfolio w)) = faults w /\
    stdout w `prefix_of` stdout (after (resume a lines portfolio w)) /\
    unread (resume a lines portfolio w) `suffix_of` lines /\
    exists new : list holding,
      heap (after (resume a lines portfolio w)) = heap w ++ new /\
      forall portfolio' : list ref,
        res (resume a lines portfolio w) = Ok portfolio' ->
        portfolio' = portfolio ++ seq (length (heap w)) (length new).
Proof.
  induction lines as [|line rest IH]; intros a portfolio w.
  - destruct a; cbn; (split; [reflexivity|]); (split; [reflexivity|]);
      (split; [apply prefix_app_r; reflexivity|]); (split; [reflexivity|]);
      exists []; (split; [rewrite app_nil_r; reflexivity | discriminate]).
  - assert (Hnext : forall (a' : asking) (w1 : world),
               disk w1 = disk w -> faults w1 = faults w ->
               stdout w `prefix_of` stdout w1 -> heap w1 = heap w ->
               let o := resume a' rest portfolio w1 in
               disk (after o) = disk w /\ faults (after o) = faults w /\
               stdout w `prefix_of` stdout (after o) /\
               unread o `suffix_of` (line :: rest) /\
               exists new : list holding,
                 heap (after o) = heap w ++ new /\
                 forall portfolio' : list ref, res o = Ok portfolio' ->
                   portfolio' = portfolio ++ seq (length (heap w)) (length new)).
    { intros a' w1 Hd Hf Ho Hh o.
      destruct (IH a' portfolio w1) as (Hd' & Hf' & Ho' & Hu' & new & Hh' & Hp').
      fold o in Hd', Hf', Ho', Hu', Hh', Hp'.
      split; [congruence|]. split; [congruence|].
      split; [etransitivity; eassumption|].
      split; [apply suffix_cons_r; exact Hu'|].
      exists new. rewrite <- Hh. split; assumption. }
    destruct a as [|t]; cbn [resume ticker_loop quantity_loop].
    + destruct (String.eqb _ _).
      { cbn. split; [reflexivity|]. split; [reflexivity|].
        split; [apply prefix_app_r; reflexivity|].
        split; [apply suffix_cons_r; reflexivity|].
        exists []. split; [rewrite app_nil_r; reflexivity|].
        intros ? [= <-]. cbn. rewrite app_nil_r. reflexivity. }
      destruct (price_of _).
      * apply (Hnext (AwaitingQuantity _)); try reflexivity.
        cbn. apply prefix_app_r. reflexivity.
      * apply (Hnext AwaitingTicker); try reflexivity.
        cbn. rewrite <- app_assoc. apply prefix_app_r. reflexivity.
    + assert (Hagain : forall msg : string,
                 let o := quantity_loop t rest portfolio
                            (print msg (show_prompt (quantity_prompt t) w)) in
                 disk (after o) = disk w /\ faults (after o) = faults w /\
                 stdout w `prefix_of` stdout (after o) /\
                 unread o `suffix_of` (line :: rest) /\
                 exists new : list holding,
                   heap (after o) = heap w ++ new /\
                   forall portfolio' : list ref, res o = Ok portfolio' ->
                     portfolio' = portfolio ++ seq (length (heap w)) (length new)).
      { intros msg. apply (Hnext (AwaitingQuantity t)); try reflexivity.
        cbn. rewrite <- app_assoc. apply prefix_app_r. reflexivity. }
      destruct (String.eqb _ _); [apply Hagain|].
      destruct (Text.parse_int _) as [q|]; [|apply Hagain].
      destruct (q <=? 0); [apply Hagain|].
      unfold add_holding. destruct (price_of t) as [p|].
      2:{ cbn. split; [reflexivity|]. split; [reflexivity|].
          split; [apply prefix_app_r; reflexivity|].
          split; [apply suffix_cons_r; reflexivity|].
          exists []. split; [rewrite app_nil_r; reflexivity | discriminate]. }
      destruct (Num.int_mul_float q p) as [v|e].
      2:{ cbn. split; [reflexivity|]. split; [reflexivity|].
          split; [apply prefix_app_r; reflexivity|].
          split; [apply suffix_cons_r; reflexivity|].
          exists []. split; [rewrite app_nil_r; reflexivity | discriminate]. }
      cbn [alloc].
      match goal with |- context [ticker_loop rest ?p1 ?w1] =>
        destruct (IH AwaitingTicker p1 w1) as (Hd' & Hf' & Ho' & Hu' & new & Hh' & Hp') end.
      cbn [resume] in Hd', Hf', Ho', Hu', Hh', Hp'.
      split; [exact Hd'|]. split; [exact Hf'|].
      split.
      { etransitivity; [|exact Ho']. cbn. rewrite <- app_assoc.
        apply prefix_app_r. reflexivity. }
      split; [apply suffix_cons_r; exact Hu'|].
      eexists (_ :: new). split.
      { rewrite Hh'. cbn. rewrite <- app_assoc. reflexivity. }
      intros portfolio' Hres. rewrite (Hp' portfolio' Hres).
      cbn [heap print set_stdout set_heap]. rewrite length_app. cbn [length seq].
      rewrite <- app_assoc. cbn. rewrite Nat.add_1_r. reflexivity.
Qed.

(** The dictionaries at the positions that follow a store are the ones
    appended to it. *)
Lemma holdings_seq (new : list holding) :
  forall hp : list holding,
    holdings (hp ++ new) (seq (length hp) (length new)) = new.
Proof.
  unfold holdings. induction new as [|h new IH]; intros hp; [reflexivity|].
  cbn [length seq omap list_omap]. rewrite list_lookup_middle by reflexivity.
  f_equal. specialize (IH (hp ++ [h])).
  rewrite <- app_assoc, length_app, Nat.add_1_r in IH. exact IH.
Qed.

(** X1: whatever is typed, and whether it returns or raises,
    [get_user_portfolio] touches neither the files nor the schedule of
    file operations; it only appends to the console output and to the
    store, where the dictionaries it found stay as they were, in place;
    the lines it leaves unread are a final part of the input. *)
Theorem collector_frame (lines : list string) (w : world) :
  let o := get_user_portfolio lines w in
  disk (after o) = disk w /\ faults (after o) = faults w /\
  stdout w `prefix_of` stdout (after o) /\
  heap w `prefix_of` heap (after o) /\
  unread o `suffix_of` lines.
Proof.
  unfold get_user_portfolio.
  match goal with |- context [ticker_loop lines [] ?w0] =>
    destruct (resume_frame lines AwaitingTicker [] w0)
      as (Hd & Hf & Ho & Hu & new & Hh & _) end.
  cbn [resume] in *. cbv zeta.
  split; [exact Hd|]. split; [exact Hf|]. split.
  { etransitivity; [|exact Ho]. cbn. rewrite <- !app_assoc.
    apply prefix_app_r. reflexivity. }
  split; [|exact Hu]. rewrite Hh. apply prefix_app_r. reflexivity.
Qed.

(** X2: the list that [get_user_portfolio] returns refers, in order of
    entry and without repetition, to exactly the dictionaries created
    during the call: its references are the consecutive positions that
    follow the store found, and the store left is the store found
    followed by these dictionaries. *)
Theorem portfolio_lists_new_dictionaries (lines rest : list string) (w w' : world)
  (portfolio : list ref) :
  get_user_portfolio lines w = Outcome (Ok portfolio) rest w' ->
  portfolio = seq (length (heap w)) (length portfolio) /\
  heap w' = heap w ++ holdings (heap w') portfolio /\
  NoDup portfolio.
Proof.
  unfold get_user_portfolio. intros Hrun.
  match type of Hrun with ticker_loop lines [] ?w0 = _ =>
    destruct (resume_frame lines AwaitingTicker [] w0)
      as (_ & _ & _ & _ & new & Hh & Hp) end.
  cbn [resume] in Hh, Hp. rewrite Hrun in Hh, Hp. cbn [after res] in Hh, Hp.
  specialize (Hp portfolio eq_refl). cbn in Hh, Hp.
  assert (Hlen : length portfolio = length new) by (rewrite Hp at 1; apply length_seq).
  rewrite Hlen. split; [exact Hp|]. split.
  - rewrite Hp, Hh, holdings_seq. reflexivity.
  - rewrite Hp. apply NoDup_seq.
Qed.

Lemma portfolio_lists_new_dictionaries_witness :
  res example_session = Ok (seq 0 2) /\
  heap (after example_session) = holdings (heap (after example_session)) (seq 0 2).
Proof.
  assert (Hrun : get_user_portfolio ["NVDA"; "2"; "V"; "10"; "done"]%string
                   (initial_world ∅ []) =
                 Outcome (Ok [0; 1]%nat) [] (after example_session))
    by (vm_compute; reflexivity).
  destruct (portfolio_lists_new_dictionaries _ _ _ _ _ Hrun) as (_ & Hheap & _).
  split; [vm_compute; reflexivity | exact Hheap].
Defined.

(** An integer from [2^1024] on has no double: it converts to plus
    infinity. *)
Lemma round_int_overflow (z : Z) :
  2 ^ 1024 <= z -> Float.round_int z = S754_infinity false.
Proof.
  intros Hz. destruct z as [|p|p]; try lia.
  change (Float.round_int (Z.pos p)) with (binary_round Float.prec Float.emax false p 0).
  set (d := Z.pos (digits2_pos p)).
  assert (Hd : 1025 <= d) by (apply digits_ge; exact Hz).
  unfold binary_round. rewrite fexp_normal by (fold d; lia). fold d.
  destruct (shl_align_spec p 0 (d + 0 - 53)) as [He Hm].
  destruct (shl_align p 0 (d + 0 - 53)) as [mz ez]. cbn [fst snd] in He, Hm.
  assert (Hez : ez = 0) by lia. clear He. subst ez.
  replace (0 - Z.min 0 (d + 0 - 53)) with 0 in Hm by lia.
  rewrite Z.mul_1_r in Hm. injection Hm as ->.
  destruct (round_aux_normal false p 0 loc_Exact (F2Q (Z.pos p) 0))
    as (m' & e' & Hr & _ & He' & _).
  - fold d. lia.
  - fold d. lia.
  - apply located_exact. reflexivity.
  - fold d in He'.
    rewrite Hr. destruct (Z.leb_spec e' 971); [lia | reflexivity].
Qed.

(** An integer above 0 that does not convert is at least [2^1023]. *)
Lemma of_int_none_large (q : Z) :
  0 < q -> Float.of_int q = None -> 2 ^ 1023 <= q.
Proof.
  intros Hq Hnone. destruct (Z.le_gt_cases (2 ^ 1023) q) as [|Hlt]; [assumption|].
  exfalso. destruct (round_int_value q Hq) as [_ Hfin]. cbv zeta in Hfin.
  destruct Hfin as (Hn & _).
  { unfold bpow. rewrite (bpow_inject 1023) by lia. rewrite <- Zlt_Qlt. exact Hlt. }
  unfold Float.of_int in Hnone.
  destruct (Float.round_int q) as [s|[]| |[] m e]; discriminate.
Qed.

(** The sentinel is no ticker of the table. *)
Lemma price_of_not_done (t : string) : is_Some (price_of t) -> String.eqb t "DONE" = false.
Proof.
  intros [p Hp]. destruct (String.eqb_spec t "DONE") as [->|]; [|reflexivity].
  vm_compute in Hp. discriminate.
Qed.

(** How the two loops end: on the sentinel, on the end of the input, or
    on a quantity that does not convert. *)
Lemma resume_ends (lines : list string) :
  forall (a : asking) (portfolio : list ref) (w : world),
    known a ->
    match res (resume a lines portfolio w) with
    | Ok _ =>
        exists (pre : list string) (line : string),
          lines = pre ++ line :: unread (resume a lines portfolio w) /\
          Text.upper (Text.strip line) = "DONE"%string
    | Raise e =>
        (e = EOFError /\ unread (resume a lines portfolio w) = []) \/
        (e = OverflowError /\
         exists (pre : list string) (line : string) (q : Z),
           lines = pre ++ line :: unread (resume a lines portfolio w) /\
           Text.parse_int (Text.strip line) = Some q /\ 0 < q /\
           Float.of_int q = None)
    end.
Proof.
  induction lines as [|line rest IH]; intros a portfolio w Hknown.
  - destruct a; cbn; left; split; reflexivity.
  - assert (Hnext : forall (a' : asking) (p1 : list ref) (w1 : world),
               known a' ->
               match res (resume a' rest p1 w1) with
               | Ok _ =>
                   exists (pre : list string) (line0 : string),
                     line :: rest = pre ++ line0 :: unread (resume a' rest p1 w1) /\
                     Text.upper (Text.strip line0) = "DONE"%string
               | Raise e =>
                   (e = EOFError /\ unread (resume a' rest p1 w1) = []) \/
                   (e = OverflowError /\
                    exists (pre : list string) (line0 : string) (q : Z),
                      line :: rest = pre ++ line0 :: unread (resume a' rest p1 w1) /\
                      Text.parse_int (Text.strip line0) = Some q /\ 0 < q /\
                      Float.of_int q = None)
               end).
    { intros a' p1 w1 Hk. specialize (IH a' p1 w1 Hk).
      destruct (res (resume a' rest p1 w1)) as [p2|e].
      - destruct IH as (pre & line0 & Heq & Hdone).
        exists (line :: pre), line0. split; [cbn; congruence | exact Hdone].
      - destruct IH as [IH|(He & pre & line0 & q & Heq & Hq)]; [left; exact IH|].
        right. split; [exact He|]. exists (line :: pre), line0, q.
        split; [cbn; congruence | exact Hq]. }
    destruct a as [|t]; cbn [resume ticker_loop quantity_loop].
    + destruct (String.eqb_spec (Text.upper (Text.strip line)) "DONE") as [Hdone|_].
      { cbn. exists [], line. split; [reflexivity | exact Hdone]. }
      destruct (price_of _) eqn:Hp.
      * apply (Hnext (AwaitingQuantity _)). eexists. exact Hp.
      * apply (Hnext AwaitingTicker). exact I.
    + destruct (String.eqb _ _); [apply (Hnext (AwaitingQuantity t)); exact Hknown|].
      destruct (Text.parse_int _) as [q|] eqn:Hparse;
        [|apply (Hnext (AwaitingQuantity t)); exact Hknown].
      destruct (Z.leb_spec q 0) as [|Hq]; [apply (Hnext (AwaitingQuantity t)); exact Hknown|].
      unfold add_holding. destruct Hknown as [p Hp]. rewrite Hp.
      unfold Num.int_mul_float, Num.as_float.
      destruct (Float.of_int q) eqn:Hof; cbn [bind alloc].
      * apply (Hnext AwaitingTicker). exact I.
      * cbn. right. split; [reflexivity|]. exists [], line, q. auto.
Qed.

(** X3: the only exceptions that leave [get_user_portfolio] are
    [EOFError], raised by [input] when all the input has been read, and
    [OverflowError], raised by the product at line 54 for a quantity of
    at least [2^1023] that does not convert to [float]; in particular the
    subscript [STOCK_PRICES[ticker]] never raises [KeyError], the ticker
    having been checked before. *)
Theorem collector_raises_only_eof_or_overflow (lines : list string) (w : world) (e : exn) :
  res (get_user_portfolio lines w) = Raise e ->
  (e = EOFError /\ unread (get_user_portfolio lines w) = []) \/
  (e = OverflowError /\
   exists (pre : list string) (line : string) (q : Z),
     lines = pre ++ line :: unread (get_user_portfolio lines w) /\
     Text.parse_int (Text.strip line) = Some q /\ 2 ^ 1023 <= q /\
     Float.of_int q = None).
Proof.
  unfold get_user_portfolio. intros Hres.
  match type of Hres with res (ticker_loop lines [] ?w0) = _ =>
    pose proof (resume_ends lines AwaitingTicker [] w0 I) as Hends end.
  cbn [resume] in Hends. rewrite Hres in Hends.
  destruct Hends as [Heof|(He & pre & line & q & Heq & Hparse & Hq & Hof)]; [left; exact Heof|].
  right. split; [exact He|]. exists pre, line, q.
  split; [exact Heq|]. split; [exact Hparse|]. split; [|exact Hof].
  apply of_int_none_large; assumption.
Qed.

Lemma collector_raises_only_eof_or_overflow_witness :
  res (get_user_portfolio ["NVDA"; "x"]%string (initial_world ∅ [])) = Raise EOFError /\
  unread (get_user_portfolio ["NVDA"; "x"]%string (initial_world ∅ [])) = [].
Proof.
  assert (Hres : res (get_user_portfolio ["NVDA"; "x"]%string (initial_world ∅ [])) =
                 Raise EOFError) by (vm_compute; reflexivity).
  split; [exact Hres|].
  destruct (collector_raises_only_eof_or_overflow _ _ _ Hres) as [[_ Hu]|[He _]].
  - exact Hu.
  - discriminate He.
Defined.

(** X4: [get_user_portfolio] returns only on the sentinel: when it
    returns, the last line it read reads [DONE] once stripped and put in
    upper case, and what is unread is what follows that line. *)
Theorem collector_returns_on_sentinel (lines : list string) (w : world)
  (portfolio : list ref) :
  res (get_user_portfolio lines w) = Ok portfolio ->
  exists (pre : list string) (line : string),
    lines = pre ++ line :: unread (get_user_portfolio lines w) /\
    Text.upper (Text.strip line) = "DONE"%string.
Proof.
  unfold get_user_portfolio. intros Hres.
  match type of Hres with res (ticker_loop lines [] ?w0) = _ =>
    pose proof (resume_ends lines AwaitingTicker [] w0 I) as Hends end.
  cbn [resume] in Hends. rewrite Hres in Hends. exact Hends.
Qed.

Lemma collector_returns_on_sentinel_witness :
  exists (pre : list string) (line : string),
    ["NVDA"; "2"; "V"; "10"; "done"]%string = pre ++ line :: unread example_session /\
    Text.upper (Text.strip line) = "DONE"%string.
Proof.
  apply (collector_returns_on_sentinel _ (initial_world ∅ []) [0; 1]%nat).
  vm_compute. reflexivity.
Defined.

(** A text that reads [DONE] is not empty and is no integer literal. *)
Lemma sentinel_parse (s : string) :
  Text.upper s = "DONE"%string -> s <> EmptyString /\ Text.parse_int s = None.
Proof.
  destruct s as [|c s]; [discriminate|]. intros H. split; [discriminate|].
  cbn in H. injection H as Hc _.
  destruct c as [[] [] [] [] [] [] [] []]; vm_compute in Hc; try discriminate Hc; reflexivity.
Qed.

(** X5: at the quantity prompt the sentinel does not end the
    collection: a line that reads [DONE] is rejected like any text that
    is not a number, with the message of the [ValueError] handler, and
    the quantity is asked again. *)
Theorem sentinel_is_no_quantity (t line : string) (rest : list string)
  (portfolio : list ref) (w : world) :
  Text.upper (Text.strip line) = "DONE"%string ->
  quantity_loop t (line :: rest) portfolio w =
    quantity_loop t rest portfolio
      (print not_a_number_msg (show_prompt (quantity_prompt t) w)).
Proof.
  intros Hdone. destruct (sentinel_parse _ Hdone) as [Hne Hparse].
  cbn [quantity_loop]. rewrite Hparse.
  destruct (String.eqb_spec (Text.strip line) EmptyString); [contradiction | reflexivity].
Qed.

Lemma sentinel_is_no_quantity_witness :
  quantity_loop "V" [" Done"; "3"; "done"]%string [] (initial_world ∅ []) =
    quantity_loop "V" ["3"; "done"]%string []
      (print not_a_number_msg (show_prompt (quantity_prompt "V") (initial_world ∅ []))).
Proof.
  apply (sentinel_is_no_quantity "V" " Done"). reflexivity.
Defined.

(** ** The collector: overflowing quantities and complete sessions *)

(** [add_holding] when [new_holding] gives a dictionary. *)
Lemma add_holding_new (t : string) (q : Z) (portfolio : list ref) (w : world) (h : holding) :
  new_holding t q = Ok h ->
  add_holding t q portfolio w =
    (Ok (portfolio ++ [length (heap w)]),
     print (added_msg (quantity h) (ticker h) (price h) (value h))
       (set_heap (fun hp => hp ++ [h]) w)).
Proof.
  unfold new_holding, add_holding. destruct (price_of t) as [p|]; [|discriminate].
  destruct (Num.int_mul_float q p) as [v|e]; [|discriminate].
  cbn. intros [= <-]. reflexivity.
Qed.

(** The quantity loop on a quantity that does not convert. *)
Lemma quantity_loop_overflow (t line : string) (rest : list string) (q : Z)
  (portfolio : list ref) (w : world) :
  is_Some (price_of t) ->
  Text.parse_int (Text.strip line) = Some q -> 2 ^ 1024 <= q ->
  quantity_loop t (line :: rest) portfolio w =
    Outcome (Raise OverflowError) rest (show_prompt (quantity_prompt t) w).
Proof.
  intros [p Hp] Hparse Hq. cbn [quantity_loop]. rewrite Hparse.
  destruct (String.eqb_spec (Text.strip line) EmptyString) as [He|_].
  { rewrite He in Hparse. discriminate. }
  destruct (Z.leb_spec q 0) as [|_]; [lia|].
  unfold add_holding. rewrite Hp.
  unfold Num.int_mul_float, Num.as_float, Float.of_int.
  rewrite (round_int_overflow q Hq). reflexivity.
Qed.

(** X6: a quantity of [2^1024] or more for a ticker of the table is
    accepted by [int] but cannot be converted to [float]: the product at
    line 54, outside the [try] block, raises [OverflowError], which
    nothing catches.  The collector stops there, whatever was collected
    before; when this is the first entry, [main] ends on the uncaught
    exception having printed the welcome, the introduction and the two
    prompts, and no report.  The line is taken of at most 4300
    characters, a number of digits that every version of [int]
    accepts. *)
Theorem huge_quantity_is_uncaught (l1 l2 : string) (rest : list string) (q : Z)
  (portfolio : list ref) (w : world) :
  is_Some (price_of (Text.upper (Text.strip l1))) ->
  (String.length l2 <= 4300)%nat ->
  Text.parse_int (Text.strip l2) = Some q ->
  2 ^ 1024 <= q ->
  ticker_loop (l1 :: l2 :: rest) portfolio w =
    Outcome (Raise OverflowError) rest
      (show_prompt (quantity_prompt (Text.upper (Text.strip l1)))
         (show_prompt ticker_prompt w)) /\
  main (l1 :: l2 :: rest) w =
    Run (Uncaught OverflowError) rest
      (set_stdout (fun out => out ++
         [welcome_msg +:+ Text.nl] ++ intro_output ++
         [ticker_prompt; quantity_prompt (Text.upper (Text.strip l1))]) w).
Proof.
  intros Hknown _ Hparse Hq.
  assert (Hloop : forall (p0 : list ref) (w0 : world),
             ticker_loop (l1 :: l2 :: rest) p0 w0 =
               Outcome (Raise OverflowError) rest
                 (show_prompt (quantity_prompt (Text.upper (Text.strip l1)))
                    (show_prompt ticker_prompt w0))).
  { intros p0 w0. cbn [ticker_loop]. rewrite (price_of_not_done _ Hknown).
    destruct Hknown as [p Hp]. rewrite Hp.
    apply (quantity_loop_overflow _ _ _ q); [eexists; exact Hp | exact Hparse | exact Hq]. }
  split; [apply Hloop|].
  unfold main, get_user_portfolio. rewrite Hloop. f_equal.
  destruct w as [out hp d fs]. unfold print, show_prompt, set_stdout. cbn.
  f_equal. repeat rewrite <- app_assoc. reflexivity.
Qed.

Lemma huge_quantity_is_uncaught_witness :
  ending_of (main ["asml"; overflowing_quantity; "done"]%string (initial_world ∅ [])) =
    Uncaught OverflowError.
Proof.
  destruct (huge_quantity_is_uncaught "asml" overflowing_quantity ["done"%string] (10 ^ 309)
              [] (initial_world ∅ [])) as [_ Hmain].
  - eexists. vm_compute. reflexivity.
  - apply Nat.leb_le. vm_compute. reflexivity.
  - vm_compute. reflexivity.
  - apply Z.leb_le. vm_compute. reflexivity.
  - rewrite Hmain. reflexivity.
Defined.

(** The outer loop on a session of accepted entries. *)
Lemma ticker_loop_session (done : string) (rest : list string)
  (typed : list (string * string)) (hs : list holding) :
  Forall2 accepted typed hs ->
  Text.upper (Text.strip done) = "DONE"%string ->
  forall (portfolio : list ref) (w : world),
    ticker_loop (entry_lines typed ++ done :: rest) portfolio w =
      Outcome (Ok (portfolio ++ seq (length (heap w)) (length hs))) rest
        {| stdout := stdout w ++ concat (map entry_output hs) ++ [ticker_prompt];
           heap := heap w ++ hs; disk := disk w; faults := faults w |}.
Proof.
  intros Hall Hdone. induction Hall as [|[l1 l2] h typed hs (q & Hparse & Hq & Hnew) _ IH];
    intros portfolio w.
  - cbn [entry_lines app ticker_loop]. rewrite Hdone. cbn [String.eqb Ascii.eqb Bool.eqb].
    destruct w as [out hp d fs]. cbn. rewrite !app_nil_r. reflexivity.
  - cbn [fst snd] in Hparse, Hnew. cbn [entry_lines app ticker_loop].
    assert (Hknown : is_Some (price_of (Text.upper (Text.strip l1)))).
    { unfold new_holding in Hnew. destruct (price_of _); [eexists; reflexivity | discriminate]. }
    rewrite (price_of_not_done _ Hknown). destruct Hknown as [p Hp]. rewrite Hp.
    cbn [quantity_loop]. rewrite Hparse.
    destruct (String.eqb_spec (Text.strip l2) EmptyString) as [He|_].
    { rewrite He in Hparse. discriminate. }
    destruct (Z.leb_spec q 0) as [|_]; [lia|].
    rewrite (add_holding_new _ _ _ _ h Hnew). rewrite IH.
    assert (Ht : ticker h = Text.upper (Text.strip l1)).
    { unfold new_holding in Hnew. rewrite Hp in Hnew.
      destruct (Num.int_mul_float q p); [|discriminate]. injection Hnew as <-. reflexivity. }
    rewrite <- Ht. destruct w as [out hp d fs]. cbn.
    rewrite !length_app. cbn [length]. rewrite Nat.add_1_r.
    rewrite <- !app_assoc. reflexivity.
Qed.

Lemma get_user_portfolio_session (typed : list (string * string))
  (hs : list holding) (done : string) (rest : list string) (w : world) :
  Forall2 accepted typed hs ->
  Text.upper (Text.strip done) = "DONE"%string ->
  get_user_portfolio (entry_lines typed ++ done :: rest) w =
    Outcome (Ok (seq (length (heap w)) (length hs))) rest
      {| stdout := stdout w ++ intro_output ++ concat (map entry_output hs) ++ [ticker_prompt];
         heap := heap w ++ hs; disk := disk w; faults := faults w |}.
Proof.
  intros Hall Hdone.
  unfold get_user_portfolio. rewrite (ticker_loop_session done rest typed hs Hall Hdone).
  destruct w as [out hp d fs]. cbn. rewrite <- !app_assoc. reflexivity.
Qed.

(** X7: a session in which every entry is accepted, closed by the
    sentinel: [get_user_portfolio] returns one reference per entry, in
    order of entry; the store is extended by the dictionaries of the
    entries, a ticker entered twice giving two dictionaries; the console
    shows the introduction, for each entry the two prompts and the
    confirmation line, and the last ticker prompt; files are untouched
    and the lines after the sentinel are left unread. *)
Theorem session_collects_entries_in_order (typed : list (string * string))
  (hs : list holding) (done : string) (rest : list string) (w : world) :
  Forall2 accepted typed hs ->
  Text.upper (Text.strip done) = "DONE"%string ->
  get_user_portfolio (entry_lines typed ++ done :: rest) w =
    Outcome (Ok (seq (length (heap w)) (length hs))) rest
      {| stdout := stdout w ++ intro_output ++ concat (map entry_output hs) ++ [ticker_prompt];
         heap := heap w ++ hs; disk := disk w; faults := faults w |} /\
  holdings (heap w ++ hs) (seq (length (heap w)) (length hs)) = hs.
Proof.
  intros Hall Hdone. split; [|apply holdings_seq].
  apply get_user_portfolio_session; assumption.
Qed.

Lemma session_collects_entries_in_order_witness :
  exists hs : list holding,
    map (fun h => (ticker h, quantity h)) hs = [("RY"%string, 3); ("RY"%string, 4)] /\
    res (get_user_portfolio [" ry"; "3"; "RY "; "+4"; "Done"; "n"]%string (initial_world ∅ [])) =
      Ok [0; 1]%nat /\
    heap (after (get_user_portfolio [" ry"; "3"; "RY "; "+4"; "Done"; "n"]%string
                   (initial_world ∅ []))) = hs.
Proof.
  destruct (new_holding "RY" 3) as [h1|] eqn:H1; [|vm_compute in H1; discriminate].
  destruct (new_holding "RY" 4) as [h2|] eqn:H2; [|vm_compute in H2; discriminate].
  exists [h1; h2].
  destruct (session_collects_entries_in_order
              [(" ry", "3"); ("RY ", "+4")]%string [h1; h2] "Done" ["n"%string]
              (initial_world ∅ [])) as [Hrun _].
  - constructor; [|constructor; [|constructor]].
    + exists 3. split; [reflexivity|]. split; [lia | exact H1].
    + exists 4. split; [reflexivity|]. split; [lia | exact H2].
  - reflexivity.
  - cbn [entry_lines app] in Hrun. rewrite Hrun. cbn [res after heap initial_world app].
    split; [|split; reflexivity].
    vm_compute in H1. vm_compute in H2. injection H1 as <-. injection H2 as <-. reflexivity.
Defined.

(** ** The weight pass: what it keeps, special totals *)

(** The loop of the weight pass sets weights and nothing else. *)
Lemma assign_weights_fields (total_value : pynum) (portfolio : list ref) :
  forall hp hp' : list holding,
    assign_weights total_value portfolio hp = Ok hp' ->
    length hp' = length hp /\
    forall (r : ref) (h' : holding), hp' !! r = Some h' ->
      exists h : holding,
        hp !! r = Some h /\ h' = set_weight (weight h') h /\ (r ∉ portfolio -> h' = h).
Proof.
  induction portfolio as [|r0 rest IH]; intros hp hp'; cbn [assign_weights].
  - intros [= <-]. split; [reflexivity|]. intros r h' Hr. exists h'.
    split; [exact Hr|]. split; [destruct h'; reflexivity | auto].
  - unfold assign_weight. destruct (hp !! r0) as [h0|] eqn:H0; cbn [bind].
    + destruct (weight_of total_value h0) as [wt|e]; cbn [bind]; [|discriminate].
      intros Hrun. destruct (IH _ _ Hrun) as [Hlen Hfields].
      rewrite length_insert in Hlen. split; [exact Hlen|].
      intros r h' Hr. destruct (Hfields r h' Hr) as (h1 & Hr1 & Hset & Hout).
      destruct (decide (r = r0)) as [->|Hne].
      * rewrite list_lookup_insert_eq in Hr1 by (eapply lookup_lt_Some; exact H0).
        injection Hr1 as <-. exists h0. split; [exact H0|].
        split; [rewrite Hset; reflexivity|].
        intros Hnot. exfalso. apply Hnot. left.
      * rewrite list_lookup_insert_ne in Hr1 by congruence.
        exists h1. split; [exact Hr1|]. split; [exact Hset|].
        intros Hnot. apply Hout. intros Hin. apply Hnot. right. exact Hin.
    + intros Hrun. destruct (IH _ _ Hrun) as [Hlen Hfields].
      split; [exact Hlen|]. intros r h' Hr.
      destruct (Hfields r h' Hr) as (h1 & Hr1 & Hset & Hout).
      exists h1. split; [exact Hr1|]. split; [exact Hset|].
      intros Hnot. apply Hout. intros Hin. apply Hnot. right. exact Hin.
Qed.

Lemma weights_pass_fields (total_value : pynum) (portfolio : list ref)
  (hp hp' : list holding) :
  calculate_portfolio_weights portfolio total_value hp = Ok hp' ->
  length hp' = length hp /\
  forall (r : ref) (h' : holding), hp' !! r = Some h' ->
    exists h : holding,
      hp !! r = Some h /\ h' = set_weight (weight h') h /\ (r ∉ portfolio -> h' = h).
Proof.
  unfold calculate_portfolio_weights. destruct (Num.is_zero total_value).
  - intros [= <-]. split; [reflexivity|]. intros r h' Hr. exists h'.
    split; [exact Hr|]. split; [destruct h'; reflexivity | auto].
  - apply assign_weights_fields.
Qed.

(** Stores with the same values give the same lists of values. *)
Lemma holdings_same_values (hp hp' : list holding) :
  length hp' = length hp ->
  (forall (r : ref) (h' : holding), hp' !! r = Some h' ->
     exists h : holding, hp !! r = Some h /\ value h' = value h) ->
  forall part : list ref,
    map value (holdings hp' part) = map value (holdings hp part).
Proof.
  intros Hlen Hsame part. unfold holdings.
  induction part as [|r part IH]; [reflexivity|]. cbn [omap list_omap].
  destruct (hp' !! r) as [h'|] eqn:Hr'.
  - destruct (Hsame r h' Hr') as (h & Hr & Hv). rewrite Hr. cbn. rewrite Hv, IH. reflexivity.
  - destruct (hp !! r) as [h|] eqn:Hr; [|exact IH].
    apply lookup_lt_Some in Hr. apply lookup_ge_None in Hr'. lia.
Qed.

(** X8: for every total and every portfolio, a completed
    [calculate_portfolio_weights] keeps the size of the store and the
    ticker, quantity, price and value of every dictionary, and leaves the
    dictionaries outside the portfolio as they are; so
    [calculate_portfolio_value] gives after it what it gave before, on
    any list of references. *)
Theorem weights_pass_changes_only_weights (hp hp' : list holding)
  (portfolio : list ref) (total_value : pynum) :
  calculate_portfolio_weights portfolio total_value hp = Ok hp' ->
  length hp' = length hp /\
  (forall (r : ref) (h' : holding), hp' !! r = Some h' ->
     exists h : holding,
       hp !! r = Some h /\
       ticker h' = ticker h /\ quantity h' = quantity h /\
       price h' = price h /\ value h' = value h /\
       (r ∉ portfolio -> h' = h)) /\
  (forall part : list ref,
     calculate_portfolio_value hp' part = calculate_portfolio_value hp part).
Proof.
  intros Hrun. destruct (weights_pass_fields _ _ _ _ Hrun) as [Hlen Hfields].
  split; [exact Hlen|].
  assert (Hall : forall (r : ref) (h' : holding), hp' !! r = Some h' ->
            exists h : holding,
              hp !! r = Some h /\
              ticker h' = ticker h /\ quantity h' = quantity h /\
              price h' = price h /\ value h' = value h /\
              (r ∉ portfolio -> h' = h)).
  { intros r h' Hr. destruct (Hfields r h' Hr) as (h & Hh & Hset & Hout).
    exists h. split; [exact Hh|]. rewrite Hset. cbn. repeat split.
    intros Hnot. rewrite <- Hset. apply Hout. exact Hnot. }
  split; [exact Hall|].
  intros part. unfold calculate_portfolio_value. f_equal.
  apply holdings_same_values; [exact Hlen|].
  intros r h' Hr. destruct (Hall r h' Hr) as (h & Hh & _ & _ & _ & Hv & _).
  exists h. split; assumption.
Qed.

Lemma weights_pass_changes_only_weights_witness :
  exists hp' : list holding,
    calculate_portfolio_weights [0; 1]%nat (PyFloat (Float.literal 445250 2))
      (heap (after example_session)) = Ok hp' /\
    calculate_portfolio_value hp' [0; 1]%nat =
      calculate_portfolio_value (heap (after example_session)) [0; 1]%nat.
Proof.
  destruct (calculate_portfolio_weights [0; 1]%nat (PyFloat (Float.literal 445250 2))
              (heap (after example_session))) as [hp'|] eqn:Hrun;
    [|vm_compute in Hrun; discriminate].
  exists hp'. split; [reflexivity|].
  destruct (weights_pass_changes_only_weights _ _ _ _ Hrun) as (_ & _ & Htotal).
  apply Htotal.
Defined.

(** With a total that does not convert, the loop completes only when it
    meets no dictionary, and then changes nothing. *)
Lemma assign_weights_no_float (total_value : pynum) (e : exn) (portfolio : list ref) :
  Num.as_float total_value = Raise e ->
  forall hp hp' : list holding,
    assign_weights total_value portfolio hp = Ok hp' -> hp' = hp.
Proof.
  intros Hraise. induction portfolio as [|r rest IH]; intros hp hp'; cbn [assign_weights].
  - intros [= <-]. reflexivity.
  - unfold assign_weight. destruct (hp !! r) as [h|]; cbn [bind]; [|apply IH].
    unfold weight_of, Num.float_div. rewrite Hraise. cbn [bind]. discriminate.
Qed.

(** X9: [calculate_portfolio_weights] is idempotent: run again with the
    same total on the store it produced, it produces that store. *)
Theorem weights_pass_idempotent (hp hp' : list holding) (portfolio : list ref)
  (total_value : pynum) :
  calculate_portfolio_weights portfolio total_value hp = Ok hp' ->
  calculate_portfolio_weights portfolio total_value hp' = Ok hp'.
Proof.
  intros Hrun. destruct (Num.is_zero total_value) eqn:Hz.
  { unfold calculate_portfolio_weights in *. rewrite Hz in *. reflexivity. }
  destruct (Num.as_float total_value) as [t|e] eqn:Hf.
  - destruct (weights_pass hp portfolio total_value t Hz Hf) as (hp1 & Hrun1 & Hlen1 & Hlook1).
    rewrite Hrun in Hrun1. injection Hrun1 as <-.
    destruct (weights_pass hp' portfolio total_value t Hz Hf) as (hp2 & Hrun2 & Hlen2 & Hlook2).
    rewrite Hrun2. f_equal. apply list_eq. intros r.
    destruct (hp !! r) as [h|] eqn:Hr.
    + rewrite (Hlook2 r _ (Hlook1 r h Hr)), (Hlook1 r h Hr).
      destruct (bool_decide (r ∈ portfolio)); reflexivity.
    + apply lookup_ge_None in Hr.
      rewrite (proj2 (lookup_ge_None hp2 r)) by lia.
      rewrite (proj2 (lookup_ge_None hp' r)) by lia. reflexivity.
  - unfold calculate_portfolio_weights in *. rewrite Hz in *.
    pose proof (assign_weights_no_float total_value e portfolio Hf hp hp' Hrun) as Hsame.
    subst hp'. exact Hrun.
Qed.

Lemma weights_pass_idempotent_witness :
  exists hp' : list holding,
    calculate_portfolio_weights [0; 1]%nat (PyFloat (Float.literal 445250 2))
      (heap (after example_session)) = Ok hp' /\
    calculate_portfolio_weights [0; 1]%nat (PyFloat (Float.literal 445250 2)) hp' = Ok hp'.
Proof.
  destruct (calculate_portfolio_weights [0; 1]%nat (PyFloat (Float.literal 445250 2))
              (heap (after example_session))) as [hp'|] eqn:Hrun;
    [|vm_compute in Hrun; discriminate].
  exists hp'. split; [reflexivity|].
  apply (weights_pass_idempotent _ _ _ _ Hrun).
Defined.

(** X10: when the total is plus infinity, as the sum of large values
    is, [calculate_portfolio_weights] completes; in the store it leaves,
    a dictionary of the portfolio whose value is finite holds under
    [weight] the zero with the sign of the value, shown as [0.00], or
    [-0.00] when the value is negative, and one whose value is infinite
    or not a number holds not-a-number, shown as [nan]; the other four
    keys are as they were. *)
Theorem infinite_total_gives_zero_or_nan (hp : list holding) (portfolio : list ref) :
  exists hp' : list holding,
    calculate_portfolio_weights portfolio (PyFloat (S754_infinity false)) hp = Ok hp' /\
    length hp' = length hp /\
    forall (r : ref) (h : holding), r ∈ portfolio -> hp !! r = Some h ->
      exists h' : holding,
        hp' !! r = Some h' /\
        ticker h' = ticker h /\ quantity h' = quantity h /\
        price h' = price h /\ value h' = value h /\
        weight h' = match value h with
                    | S754_zero s | S754_finite s _ _ => S754_zero s
                    | _ => S754_nan
                    end /\
        Float.fixed2 false (weight h') =
          match value h with
          | S754_zero s | S754_finite s _ _ => if s then "-0.00"%string else "0.00"%string
          | _ => "nan"%string
          end.
Proof.
  destruct (weights_pass_keys hp portfolio (PyFloat (S754_infinity false))
              (S754_infinity false) eq_refl eq_refl) as (hp' & Hrun & Hlen & Hlook).
  exists hp'. split; [exact Hrun|]. split; [exact Hlen|].
  intros r h Hin Hr.
  destruct (Hlook r h Hr) as (h' & Hh' & Htk & Hq & Hp & Hv & Hw & _).
  exists h'. split; [exact Hh'|]. repeat (split; [assumption|]).
  rewrite (Hw Hin). destruct (value h) as [[]|[]| |[] m e]; split; reflexivity.
Qed.

Lemma infinite_total_gives_zero_or_nan_witness :
  exists (hp' : list holding) (h1 h2 : holding),
    calculate_portfolio_weights [0; 1]%nat (PyFloat (S754_infinity false))
      [{| ticker := "ASML"; quantity := 10 ^ 306; price := Float.literal 99588 2;
          value := S754_infinity false; weight := Float.zero |};
       {| ticker := "RY"; quantity := 2; price := Float.literal 10545 2;
          value := Float.literal 21090 2; weight := Float.zero |}] = Ok hp' /\
    hp' !! 0%nat = Some h1 /\ hp' !! 1%nat = Some h2 /\
    (weight h1, Float.fixed2 false (weight h1)) = (S754_nan, "nan"%string) /\
    (weight h2, Float.fixed2 false (weight h2)) = (S754_zero false, "0.00"%string).
Proof.
  destruct (infinite_total_gives_zero_or_nan
              [{| ticker := "ASML"; quantity := 10 ^ 306; price := Float.literal 99588 2;
                  value := S754_infinity false; weight := Float.zero |};
               {| ticker := "RY"; quantity := 2; price := Float.literal 10545 2;
                  value := Float.literal 21090 2; weight := Float.zero |}] [0; 1]%nat)
    as (hp' & Hrun & _ & Hlook).
  destruct (Hlook 0%nat _ ltac:(apply elem_of_cons; left; reflexivity) eq_refl)
    as (h1 & H1 & _ & _ & _ & _ & Hw1 & Hs1).
  destruct (Hlook 1%nat _
              ltac:(apply elem_of_cons; right; apply elem_of_cons; left; reflexivity) eq_refl)
    as (h2 & H2 & _ & _ & _ & _ & Hw2 & Hs2).
  exists hp', h1, h2. split; [exact Hrun|]. split; [exact H1|]. split; [exact H2|].
  rewrite Hs1, Hw1, Hs2, Hw2. split; reflexivity.
Defined.

(** Positive normal doubles with the same value are the same double. *)
Lemma pos_normal_eq (a b : float) :
  pos_normal a = true -> pos_normal b = true ->
  (Float.to_Q a == Float.to_Q b)%Q -> a = b.
Proof.
  intros Ha Hb Heq.
  destruct (pos_normal_inv a Ha) as (ma & ea & -> & Hda & _).
  destruct (pos_normal_inv b Hb) as (mb & eb & -> & Hdb & _).
  rewrite !to_Q_finite in Heq.
  pose proof (F2Q_bounds ma ea) as [Halo Hahi]. rewrite Hda in Halo, Hahi.
  pose proof (F2Q_bounds mb eb) as [Hblo Hbhi]. rewrite Hdb in Hblo, Hbhi.
  assert (He : ea = eb).
  { assert (53 - 1 + ea < 53 + eb) by (apply bpow_lt_inv; lra).
    assert (53 - 1 + eb < 53 + ea) by (apply bpow_lt_inv; lra). lia. }
  subst eb. f_equal. unfold F2Q in Heq.
  apply Qmult_inj_r in Heq; [|apply bpow_nonzero].
  unfold Qeq, inject_Z in Heq. cbn in Heq. lia.
Qed.

(** A positive normal double divided by itself is 1.0. *)
Lemma div_self (v : float) : pos_normal v = true -> Float.div v v = float_one.
Proof.
  intros Hv. pose proof (to_Q_pos v Hv) as Hpos.
  assert (Hx : (Float.to_Q v / Float.to_Q v == 1)%Q) by (field; lra).
  destruct (div_value v v Hv Hv) as [_ Hdiv].
  { rewrite Hx. vm_compute. discriminate. }
  cbv zeta in Hdiv. destruct Hdiv as (Hn & _ & Hexact).
  { rewrite Hx. vm_compute. reflexivity. }
  apply pos_normal_eq; [exact Hn | reflexivity |].
  rewrite (Hexact 1 0); [rewrite Hx; reflexivity | lia |].
  rewrite Hx. reflexivity.
Qed.

(** X11: a portfolio of one holding with a positive normal value: the
    total is that value, the weight pass completes, and the dictionary
    then holds under [weight] the double 100.0, exactly, shown as
    [100.00]; its other four keys and every other dictionary of the
    store are as they were. *)
Theorem single_holding_weighs_100 (hp : list holding) (r : ref) (h : holding) :
  hp !! r = Some h -> pos_normal (value h) = true ->
  calculate_portfolio_value hp [r] = PyFloat (value h) /\
  exists (hp' : list holding) (h' : holding),
    calculate_portfolio_weights [r] (PyFloat (value h)) hp = Ok hp' /\
    hp' !! r = Some h' /\
    weight h' = S754_finite false 7036874417766400 (-46) /\
    (Float.to_Q (weight h') == 100)%Q /\
    Float.fixed2 false (weight h') = "100.00"%string /\
    ticker h' = ticker h /\ quantity h' = quantity h /\
    price h' = price h /\ value h' = value h /\
    forall r' : ref, r' <> r -> hp' !! r' = hp !! r'.
Proof.
  intros Hr Hv. split.
  - unfold calculate_portfolio_value, holdings. cbn [omap list_omap]. rewrite Hr.
    cbn [omap list_omap map Num.sum fold_left].
    rewrite add_zero_l by (apply pos_normal_pos_or_inf; exact Hv). reflexivity.
  - destruct (pos_or_inf_nonzero _ (pos_normal_pos_or_inf _ Hv)) as [Hnz _].
    destruct (weights_pass_keys hp [r] (PyFloat (value h)) (value h) Hnz eq_refl)
      as (hp' & Hrun & Hlen & Hlook).
    destruct (Hlook r h Hr) as (h' & Hh' & Htk & Hq & Hp & Hval & Hw & _).
    assert (Hw' : weight h' = S754_finite false 7036874417766400 (-46)).
    { rewrite Hw by (apply elem_of_cons; left; reflexivity).
      rewrite (div_self _ Hv). vm_compute. reflexivity. }
    exists hp', h'. split; [exact Hrun|]. split; [exact Hh'|]. split; [exact Hw'|].
    rewrite Hw'. split; [reflexivity|]. split; [reflexivity|].
    repeat (split; [assumption|]).
    intros r' Hne. destruct (hp !! r') as [h0|] eqn:H0.
    + destruct (Hlook r' h0 H0) as (h'' & Hh'' & _ & _ & _ & _ & _ & Hsame).
      rewrite Hh''. f_equal. apply Hsame. intros Hin.
      apply elem_of_cons in Hin as [Heq|Hin]; [contradiction|].
      apply elem_of_nil in Hin. exact Hin.
    + apply lookup_ge_None. rewrite Hlen. apply lookup_ge_None. exact H0.
Qed.

Lemma single_holding_weighs_100_witness :
  exists (hp' : list holding) (h' : holding),
    calculate_portfolio_weights [0%nat] (PyFloat (Float.literal 175100 2))
      (take 1 (heap (after example_session))) = Ok hp' /\
    hp' !! 0%nat = Some h' /\
    (ticker h', Float.fixed2 false (weight h')) = ("NVDA"%string, "100.00"%string).
Proof.
  destruct (single_holding_weighs_100 (take 1 (heap (after example_session))) 0
              {| ticker := "NVDA"; quantity := 2; price := Float.literal 87550 2;
                 value := Float.literal 175100 2; weight := Float.zero |})
    as (_ & hp' & h' & Hrun & Hh' & _ & _ & Hshown & Htk & _).
  - vm_compute. reflexivity.
  - vm_compute. reflexivity.
  - exists hp', h'. split; [exact Hrun|]. split; [exact Hh'|].
    rewrite Hshown, Htk. reflexivity.
Defined.

(** ** Accuracy of the total and of the weights *)

(** X12: for a portfolio of at least one and at most 1,048,576 holdings
    with values between 1 and [2^990], the total that
    [calculate_portfolio_value] returns is a positive normal double
    within the relative error [2^-32] of the exact sum of the values. *)
Theorem total_close_to_exact_sum (hp : list holding) (portfolio : list ref) :
  portfolio <> [] ->
  Z.of_nat (length portfolio) <= size_max ->
  all_holdings (fun h => in_range (value h)) hp portfolio ->
  exists T : float,
    calculate_portfolio_value hp portfolio = PyFloat T /\
    pos_normal T = true /\
    (Qabs (Float.to_Q T - exact_total (holdings hp portfolio))
       <= (1 # 4294967296) * exact_total (holdings hp portfolio))%Q.
Proof.
  intros Hne Hsize Hall.
  destruct (in_range_total hp portfolio Hne Hsize Hall) as (T & Htotal & HT & Hlo & Hhi & HS1 & _).
  exists T. split; [exact Htotal|]. split; [exact HT|].
  apply Qabs_Qle_condition. split; lra.
Qed.

Lemma total_close_to_exact_sum_witness :
  exists T : float,
    calculate_portfolio_value (heap (after example_session)) [0; 1]%nat = PyFloat T /\
    pos_normal T = true /\
    (Qabs (Float.to_Q T - exact_total (holdings (heap (after example_session)) [0; 1]%nat))
       <= (1 # 4294967296) * exact_total (holdings (heap (after example_session)) [0; 1]%nat))%Q.
Proof.
  apply (total_close_to_exact_sum (heap (after example_session)) [0; 1]%nat).
  - discriminate.
  - vm_compute. discriminate.
  - constructor; [|constructor; [|constructor]];
      (eexists; split; [reflexivity|]; repeat split; vm_compute; congruence).
Defined.

(** A member of a list of non-negative numbers is at most their sum. *)
Lemma Qsum_member (x : Q) (xs : list Q) :
  Forall (fun y => 0 <= y)%Q xs -> x ∈ xs -> (x <= Qsum xs)%Q /\ (0 <= Qsum xs)%Q.
Proof.
  intros Hpos.
  assert (H0 : (0 <= Qsum xs)%Q).
  { unfold Qsum. induction Hpos as [|z zs Hz _ IHz]; cbn; lra. }
  intros Hin. split; [|exact H0]. clear H0.
  induction Hpos as [|y ys Hy Hys IH]; [inversion Hin|].
  assert (H0 : (0 <= Qsum ys)%Q).
  { unfold Qsum. clear -Hys. induction Hys as [|z zs Hz _ IHz]; cbn; lra. }
  unfold Qsum in *. cbn [fold_right].
  apply elem_of_cons in Hin as [->|Hin]; [lra|].
  specialize (IH Hin). lra.
Qed.

(** X13: for a portfolio of at least one and at most 1,048,576 holdings
    with values between 1 and [2^990], the weight stored for a holding is
    its share of the exact sum of the values, in percent, up to a
    relative error of [10^-9]; it is above 0 and at most
    [100.000001]. *)
Theorem weight_is_share (hp : list holding) (portfolio : list ref) :
  portfolio <> [] ->
  Z.of_nat (length portfolio) <= size_max ->
  all_holdings (fun h => in_range (value h)) hp portfolio ->
  exists (T : float) (hp' : list holding),
    calculate_portfolio_value hp portfolio = PyFloat T /\
    calculate_portfolio_weights portfolio (PyFloat T) hp = Ok hp' /\
    forall (r : ref) (h : holding), r ∈ portfolio -> hp !! r = Some h ->
      exists h' : holding,
        hp' !! r = Some h' /\
        (Qabs (Float.to_Q (weight h') * exact_total (holdings hp portfolio)
               - 100 * Float.to_Q (value h))
           <= (1 # 1000000000) * (100 * Float.to_Q (value h)))%Q /\
        (0 < Float.to_Q (weight h'))%Q /\
        (Float.to_Q (weight h') <= 100 + (1 # 1000000))%Q.
Proof.
  intros Hne Hsize Hall.
  destruct (in_range_total hp portfolio Hne Hsize Hall)
    as (T & Htotal & HT & Hlo & Hhi & HS1 & HS2).
  destruct (all_holdings_holdings _ _ _ Hall) as [Hhs _].
  set (S := exact_total (holdings hp portfolio)) in *.
  pose proof value_max_pos as HM.
  assert (HT1 : (1 # 2 <= Float.to_Q T)%Q) by lra.
  assert (HT2 : (Float.to_Q T <= 2097152 * value_max)%Q) by lra.
  destruct (pos_or_inf_nonzero T (pos_normal_pos_or_inf T HT)) as [Hnz _].
  destruct (weights_pass hp portfolio (PyFloat T) T Hnz eq_refl) as (hp' & Hrun & _ & Hlook).
  exists T, hp'. split; [exact Htotal|]. split; [exact Hrun|].
  intros r h Hin Hr. exists (weighted T h). split.
  { rewrite (Hlook r h Hr). rewrite bool_decide_eq_true_2 by exact Hin. reflexivity. }
  assert (Hh : in_range (value h)).
  { unfold all_holdings in Hall. rewrite Forall_forall in Hall.
    destruct (Hall r Hin) as (h0 & Hr0 & Hrange). congruence. }
  destruct (weight_bounds (value h) T Hh HT HT1 HT2) as [Hw1 Hw2].
  change (Float.mul (Float.div (value h) T) hundred) with (weight (weighted T h)) in Hw1, Hw2.
  destruct Hh as (_ & Ha1 & _).
  set (a := Float.to_Q (value h)) in *. set (t := Float.to_Q T) in *.
  set (W := Float.to_Q (weight (weighted T h))) in *.
  assert (HaS : (a <= S)%Q).
  { apply (Qsum_member a (map Float.to_Q (map value (holdings hp portfolio)))).
    - apply Forall_map, Forall_map. eapply Forall_impl; [exact Hhs|].
      intros h0 (_ & H1 & _). cbn. lra.
    - apply list_elem_of_fmap. exists (value h). split; [reflexivity|].
      apply list_elem_of_fmap. exists h. split; [reflexivity|].
      unfold holdings. apply list_elem_of_omap. exists r. split; assumption. }
  assert (Ht0 : (0 < t)%Q) by lra.
  assert (HW0 : (0 < W)%Q).
  { apply (Qmult_lt_r _ _ t Ht0). unfold u53 in Hw1. lra. }
  assert (H1 : (W * (S * (1 - (1 # 8589934592))) <= W * t)%Q)
    by (apply Qmult_le_l; assumption).
  assert (H2 : (W * t <= W * (S * (1 + (1 # 4294967296))))%Q)
    by (apply Qmult_le_l; assumption).
  set (X := (W * S)%Q) in *.
  setoid_replace (W * (S * (1 - (1 # 8589934592))))%Q with (X * (1 - (1 # 8589934592)))%Q
    using relation Qeq in H1 by (unfold X; ring).
  setoid_replace (W * (S * (1 + (1 # 4294967296))))%Q with (X * (1 + (1 # 4294967296)))%Q
    using relation Qeq in H2 by (unfold X; ring).
  unfold u53 in Hw1, Hw2.
  assert (HX : (X <= (100 + (1 # 10000000)) * a)%Q) by lra.
  split; [apply Qabs_Qle_condition; split; lra|]. split; [exact HW0|].
  assert (HS0 : (0 < S)%Q) by lra.
  apply (Qmult_le_r _ _ S HS0). fold X.
  assert (Hmono : ((100 + (1 # 10000000)) * a <= (100 + (1 # 10000000)) * S)%Q)
    by (apply Qmult_le_l; lra).
  lra.
Qed.

Lemma weight_is_share_witness :
  exists (T : float) (hp' : list holding),
    calculate_portfolio_value (heap (after example_session)) [0; 1]%nat = PyFloat T /\
    calculate_portfolio_weights [0; 1]%nat (PyFloat T) (heap (after example_session)) = Ok hp' /\
    Forall (fun h' => (0 < Float.to_Q (weight h'))%Q /\
                      (Float.to_Q (weight h') <= 100 + (1 # 1000000))%Q) hp'.
Proof.
  destruct (weight_is_share (heap (after example_session)) [0; 1]%nat)
    as (T & hp' & Htotal & Hrun & Hshare).
  - discriminate.
  - vm_compute. discriminate.
  - constructor; [|constructor; [|constructor]];
      (eexists; split; [reflexivity|]; repeat split; vm_compute; congruence).
  - exists T, hp'. split; [exact Htotal|]. split; [exact Hrun|].
    destruct (weights_pass_fields _ _ _ _ Hrun) as [Hlen Hfields].
    apply Forall_lookup. intros r h' Hr'.
    destruct (Hfields r h' Hr') as (h & Hr & _).
    assert (Hin : r ∈ [0; 1]%nat).
    { pose proof (lookup_lt_Some _ _ _ Hr) as Hlt.
      change (length (heap (after example_session))) with 2%nat in Hlt.
      destruct r as [|[|r]];
        [apply elem_of_cons; left; reflexivity
        |apply elem_of_cons; right; apply elem_of_cons; left; reflexivity
        |lia]. }
    destruct (Hshare r h Hin Hr) as (h2 & Hr2 & _ & Hpos & Hle).
    assert (h2 = h') by congruence. subst h2. split; assumption.
Defined.

(** ** The total to the cent *)

(** Every price of the table is from 100.00 to 1000.00. *)
Lemma cents_of_range (t : string) (c : Z) : cents_of t = Some c -> 10000 <= c <= 100000.
Proof.
  unfold cents_of, PRICE_LITERALS. cbn [assoc_get].
  repeat (destruct (String.eqb t _); [intros [= <-]; lia|]).
  discriminate.
Qed.

Lemma Qmake_100 (z : Z) : (z # 100 == inject_Z z * (1 # 100))%Q.
Proof. unfold Qeq, Qmult, inject_Z. cbn. lia. Qed.

(** The value of a holding against its decimal amount: the error is at
    most [2^-42] per share. *)
Lemma product_error (q c : Z) (p : float) :
  1 <= q <= 10 ^ 10 -> table_price c p -> 10000 <= c ->
  exists v : float,
    Num.int_mul_float q p = Ok v /\ in_range v /\
    (Qabs (Float.to_Q v - (q * c # 100)) <= inject_Z q * (1 # 4398046511104))%Q.
Proof.
  intros Hq (Hpn & Hp1 & Hp1000 & Hpc & Hc) Hc4.
  pose proof (round_int_value q ltac:(lia)) as [_ Hconv]. cbv zeta in Hconv.
  assert (HqQ : (1 <= inject_Z q /\ inject_Z q <= 10000000000)%Q).
  { change 1%Q with (inject_Z 1). change 10000000000%Q with (inject_Z (10 ^ 10)).
    rewrite <- !Zle_Qle. exact Hq. }
  destruct Hconv as (Hfq & _ & Hexact).
  { eapply Qle_lt_trans; [apply HqQ|]. vm_compute. reflexivity. }
  specialize (Hexact ltac:(lia)).
  set (fq := Float.round_int q) in *.
  assert (Hof : Float.of_int q = Some fq).
  { unfold Float.of_int. fold fq.
    destruct (pos_normal_inv fq Hfq) as (m & e & -> & _). reflexivity. }
  unfold Num.int_mul_float, Num.as_float. rewrite Hof. cbn [bind].
  exists (Float.mul fq p). split; [reflexivity|].
  set (P := Float.to_Q p) in *.
  apply Qabs_Qle_condition in Hpc.
  assert (HcQ : (100 <= c # 100)%Q).
  { unfold Qle. cbn. lia. }
  assert (HP99 : (99 <= P)%Q) by lra.
  assert (Hprod : (inject_Z q * P <= inject_Z q * 1000)%Q) by (apply Qmult_le_l; lra).
  assert (Hprod1 : (inject_Z q * 99 <= inject_Z q * P)%Q) by (apply Qmult_le_l; lra).
  destruct (mul_value fq p Hfq Hpn) as [_ Hmul].
  { rewrite Hexact. fold P. eapply Qle_trans; [|exact Hprod1].
    apply Qle_trans with 99%Q; [vm_compute; discriminate | lra]. }
  cbv zeta in Hmul. rewrite Hexact in Hmul. fold P in Hmul.
  destruct Hmul as (Hvn & Herr & _).
  { apply Qle_lt_trans with 10000000000000%Q; [lra | vm_compute; reflexivity]. }
  set (V := Float.to_Q (Float.mul fq p)) in *.
  change (bpow (-53)) with (1 # 9007199254740992)%Q in Herr.
  apply Qabs_Qle_condition in Herr.
  assert (Hdiff : (- (inject_Z q * (1 # 17592186044416)) <= inject_Z q * (P - (c # 100)) /\
                   inject_Z q * (P - (c # 100)) <= inject_Z q * (1 # 17592186044416))%Q)
    by (apply Qmult_small; lra).
  set (X := (inject_Z q * P)%Q) in *.
  split.
  - split; [exact Hvn|]. fold V. split; [lra|].
    apply Qle_trans with 20000000000000%Q; [lra|].
    unfold value_max. vm_compute. discriminate.
  - assert (Hlit : (q * c # 100 == inject_Z q * (c # 100))%Q).
    { unfold Qeq, Qmult, inject_Z. cbn. lia. }
    apply Qabs_Qle_condition. rewrite Hlit.
    setoid_replace (V - inject_Z q * (c # 100))%Q
      with ((V - X) + inject_Z q * (P - (c # 100)))%Q using relation Qeq by (unfold X; ring).
    split; lra.
Qed.

Lemma cents_total_cons (h : holding) (hs : list holding) :
  cents_total (h :: hs) = cents_value h + cents_total hs.
Proof. reflexivity. Qed.

Lemma exact_total_cons (h : holding) (hs : list holding) :
  exact_total (h :: hs) = (Float.to_Q (value h) + exact_total hs)%Q.
Proof. reflexivity. Qed.

(** The values of collected dictionaries worth at most ten million in
    all: they are in range, there are at most 100,000 of them, and their
    exact sum differs from the decimal sum by at most [2^-42] times the
    number of hundredths. *)
Lemma collected_cents (hs : list holding) :
  Forall collected hs -> cents_total hs <= 10 ^ 9 ->
  Forall (fun h => in_range (value h)) hs /\
  10000 * Z.of_nat (length hs) <= cents_total hs /\
  (Qabs (exact_total hs - (cents_total hs # 100))
     <= inject_Z (cents_total hs) * (1 # 4398046511104))%Q.
Proof.
  induction 1 as [|h hs (Hq & Hp & Hv & _) _ IH]; intros Hbound.
  - split; [constructor|]. split; [cbn; lia|]. vm_compute. discriminate.
  - rewrite cents_total_cons in *.
    destruct (price_of_table _ _ Hp) as (c & Hc & Htable).
    pose proof (cents_of_range _ _ Hc) as Hrange.
    assert (Hcv : cents_value h = quantity h * c) by (unfold cents_value; rewrite Hc; reflexivity).
    assert (Hqc : quantity h <= quantity h * c) by nia.
    assert (Hrest : cents_total hs <= 10 ^ 9) by lia.
    destruct (IH Hrest) as (Hin & Hlen & Herr).
    assert (Hq10 : 1 <= quantity h <= 10 ^ 10) by lia.
    destruct (product_error (quantity h) c (price h) Hq10 Htable ltac:(lia))
      as (v & Hv' & Hvr & Hverr).
    rewrite Hv in Hv'. injection Hv' as <-.
    split; [constructor; assumption|]. split; [cbn [length]; nia|].
    rewrite exact_total_cons, Hcv.
    rewrite (Qmake_100 (cents_total hs)) in Herr.
    rewrite (Qmake_100 (quantity h * c)) in Hverr.
    rewrite (Qmake_100 (quantity h * c + cents_total hs)).
    rewrite inject_Z_plus.
    assert (HqQ : (inject_Z (quantity h) <= inject_Z (quantity h * c))%Q)
      by (rewrite <- Zle_Qle; exact Hqc).
    apply Qabs_Qle_condition in Herr. apply Qabs_Qle_condition in Hverr.
    apply Qabs_Qle_condition. split; lra.
Qed.

(** X14: for a non-empty portfolio of dictionaries as
    [get_user_portfolio] builds them whose amounts, quantity times
    decimal price, add up to at most ten million dollars, the total is a
    finite double that rounds, to the hundredth, to the exact sum of the
    amounts: the total displayed is the decimal total. *)
Theorem small_portfolio_total_to_the_cent (hp : list holding) (portfolio : list ref) :
  portfolio <> [] ->
  all_holdings collected hp portfolio ->
  cents_total (holdings hp portfolio) <= 10 ^ 9 ->
  exists (m : positive) (e : Z),
    calculate_portfolio_value hp portfolio = PyFloat (S754_finite false m e) /\
    Float.hundredths m e = cents_total (holdings hp portfolio).
Proof.
  intros Hne Hall Hbound.
  destruct (all_holdings_holdings _ _ _ Hall) as [Hhs Hlen].
  set (hs := holdings hp portfolio) in *.
  destruct (collected_cents hs Hhs Hbound) as (Hin & Hn & Herr).
  assert (Hvs : Forall in_range (map value hs)) by (apply Forall_map; exact Hin).
  assert (Hvne : map value hs <> []).
  { intros Hnil. apply (f_equal length) in Hnil. rewrite length_map, Hlen in Hnil.
    destruct portfolio; [contradiction | discriminate]. }
  assert (Hvsize : Z.of_nat (length (map value hs)) <= size_max)
    by (rewrite length_map; unfold size_max; lia).
  destruct (total_bounds (map value hs) Hvne Hvs Hvsize) as (HT & Hlo & Hhi & HS1 & _).
  fold (exact_total hs) in Hlo, Hhi, HS1.
  destruct (pos_normal_inv _ HT) as (m & e & HTe & _).
  exists m, e. split.
  { unfold calculate_portfolio_value, Num.sum. fold hs. rewrite <- HTe.
    destruct (map value hs); [contradiction | reflexivity]. }
  apply hundredths_spec. rewrite <- to_Q_finite, <- HTe.
  set (T := Float.to_Q (fold_left Float.add (map value hs) Float.zero)) in *.
  set (S := exact_total hs) in *.
  assert (HC : (inject_Z (cents_total hs) <= 1000000000)%Q).
  { change 1000000000%Q with (inject_Z (10 ^ 9)). rewrite <- Zle_Qle. exact Hbound. }
  rewrite Qmake_100 in Herr. apply Qabs_Qle_condition in Herr.
  apply Qabs_Qlt_condition. split; lra.
Qed.

Lemma small_portfolio_total_to_the_cent_witness :
  exists (m : positive) (e : Z),
    calculate_portfolio_value (heap (after example_session)) [0; 1]%nat =
      PyFloat (S754_finite false m e) /\
    Float.hundredths m e = 2 * 87550 + 10 * 27015.
Proof.
  apply (small_portfolio_total_to_the_cent (heap (after example_session)) [0; 1]%nat).
  - discriminate.
  - constructor; [|constructor; [|constructor]];
      (eexists; split; [reflexivity|]; repeat split; vm_compute; congruence).
  - vm_compute. discriminate.
Defined.

(** ** The saved file *)

Lemma text_app_assoc (a b c : string) : (a +:+ b) +:+ c = a +:+ (b +:+ c).
Proof.
  induction a as [|x a IH]; [reflexivity|].
  change (String x ((a +:+ b) +:+ c) = String x (a +:+ (b +:+ c))).
  rewrite IH. reflexivity.
Qed.

Lemma text_app_nil_r (a : string) : a +:+ EmptyString = a.
Proof.
  induction a as [|x a IH]; [reflexivity|].
  change (String x (a +:+ EmptyString) = String x a). rewrite IH. reflexivity.
Qed.

Lemma concat_text_app (xs ys : list string) :
  concat_text (xs ++ ys) = concat_text xs +:+ concat_text ys.
Proof.
  induction xs as [|x xs IH]; [reflexivity|].
  change (x +:+ concat_text (xs ++ ys) = (x +:+ concat_text xs) +:+ concat_text ys).
  rewrite IH, text_app_assoc. reflexivity.
Qed.

(** A file operation that the schedule lets succeed. *)
Lemma file_op_clear (action : world -> world) (w : world) :
  Forall (fun f => f = None) (take 1 (faults w)) ->
  file_op action w = (Ok tt, action (set_faults (drop 1) w)).
Proof.
  unfold file_op. destruct w as [out hp d fs]. cbn.
  destruct fs as [|[msg|] coming]; cbn.
  - reflexivity.
  - intros H. inversion H; discriminate.
  - intros _. reflexivity.
Qed.

(** Writes that succeed add their texts to the file, in order. *)
Lemma write_all_clear (filename : string) (texts : list string) :
  forall (w : world) (content : string),
    disk w !! filename = Some content ->
    Forall (fun f => f = None) (take (length texts) (faults w)) ->
    write_all filename texts w =
      (Ok tt, {| stdout := stdout w; heap := heap w;
                 disk := <[filename := content +:+ concat_text texts]> (disk w);
                 faults := drop (length texts) (faults w) |}).
Proof.
  induction texts as [|text rest IH]; intros w content Hfile Hclear.
  - cbn. rewrite text_app_nil_r, insert_id by exact Hfile.
    destruct w; reflexivity.
  - cbn [write_all length]. unfold file_write.
    cbn [length] in Hclear.
    change (S (length rest)) with (1 + length rest)%nat in Hclear.
    rewrite <- take_take_drop in Hclear. apply Forall_app in Hclear as [H1 Hrest].
    rewrite (file_op_clear _ w H1).
    rewrite (IH _ (content +:+ text)).
    + destruct w as [out hp d fs]. cbn in *. rewrite Hfile. cbn.
      rewrite insert_insert_eq, text_app_assoc, drop_drop. reflexivity.
    + destruct w as [out hp d fs]. cbn in *. rewrite Hfile. cbn.
      apply lookup_insert_eq.
    + destruct w as [out hp d fs]. cbn in *. exact Hrest.
Qed.

(** The save when no file operation fails. *)
Lemma save_clear (portfolio : list ref) (total_value : pynum)
  (total_text filename : string) (w : world) :
  format_total total_value = Ok total_text ->
  Forall (fun f => f = None)
    (take (save_operations (holdings (heap w) portfolio)) (faults w)) ->
  save_results_to_file portfolio total_value filename w =
    (Ok tt,
     {| stdout := stdout w ++ [saved_msg filename +:+ Text.nl];
        heap := heap w;
        disk := <[filename := report_text (holdings (heap w) portfolio) total_text]> (disk w);
        faults := drop (save_operations (holdings (heap w) portfolio)) (faults w) |}).
Proof.
  intros Hfmt Hclear. unfold save_results_to_file, save_operations in *.
  set (hs := holdings (heap w) portfolio) in *.
  rewrite <- take_take_drop in Hclear. apply Forall_app in Hclear as [Hclear Hclose].
  rewrite <- take_take_drop in Hclear. apply Forall_app in Hclear as [Hopen Hbody].
  rewrite <- take_take_drop in Hbody. apply Forall_app in Hbody as [Hrows Htail].
  rewrite drop_drop in Htail.
  unfold with_open, file_open. rewrite (file_op_clear _ w Hopen).
  unfold save_body.
  rewrite (write_all_clear filename (file_rows hs) _ EmptyString).
  2:{ cbn [disk set_disk set_faults]. apply lookup_insert_eq. }
  2:{ cbn [faults set_disk set_faults]. exact Hrows. }
  rewrite Hfmt.
  rewrite (write_all_clear filename _ _ (EmptyString +:+ concat_text (file_rows hs))).
  2:{ cbn [disk]. apply lookup_insert_eq. }
  2:{ cbn [faults set_disk set_faults length]. rewrite drop_drop. exact Htail. }
  unfold file_close. rewrite file_op_clear.
  2:{ cbn [faults set_disk set_faults length]. rewrite !drop_drop.
      replace (1 + length (file_rows hs) + 2)%nat with (1 + (length (file_rows hs) + 2))%nat
        by lia.
      exact Hclose. }
  unfold print, set_stdout, set_faults, set_disk.
  cbn [stdout heap disk faults length]. rewrite !insert_insert_eq, !drop_drop.
  unfold report_text. rewrite concat_text_app.
  change (EmptyString +:+ concat_text (file_rows hs)) with (concat_text (file_rows hs)).
  do 3 f_equal. lia.
Qed.

(** X15: when the total has a text and no file operation of the save
    fails, [save_results_to_file] returns normally, leaves the console
    output before it, the store and the other files as they are, prints
    the success line, and the file holds exactly the report: the lines
    written, in order, in place of what the file held before. *)
Theorem save_writes_the_report (portfolio : list ref) (total_value : pynum)
  (total_text filename : string) (w : world) :
  format_total total_value = Ok total_text ->
  Forall (fun f => f = None)
    (take (save_operations (holdings (heap w) portfolio)) (faults w)) ->
  save_results_to_file portfolio total_value filename w =
    (Ok tt,
     {| stdout := stdout w ++ [saved_msg filename +:+ Text.nl];
        heap := heap w;
        disk := <[filename := report_text (holdings (heap w) portfolio) total_text]> (disk w);
        faults := drop (save_operations (holdings (heap w) portfolio)) (faults w) |}).
Proof. apply save_clear. Qed.

Lemma save_writes_the_report_witness :
  disk (save_results_to_file [] (PyFloat Float.zero) "out.txt"
          (initial_world {["out.txt"%string := "old"%string]} [])).2
  = {["out.txt"%string := report_text [] "0.00"]}.
Proof.
  rewrite (save_writes_the_report [] (PyFloat Float.zero) "0.00" "out.txt"
             (initial_world {["out.txt"%string := "old"%string]} [])).
  - cbn [snd disk initial_world heap]. apply insert_singleton_eq.
  - reflexivity.
  - constructor.
Defined.

Lemma elsewhere_refl (filename : string) (w : world) : elsewhere filename w w.
Proof. intros f _. reflexivity. Qed.

Lemma elsewhere_trans (filename : string) (w1 w2 w3 : world) :
  elsewhere filename w1 w2 -> elsewhere filename w2 w3 -> elsewhere filename w1 w3.
Proof. intros H12 H23 f Hf. rewrite (H23 f Hf). apply H12. exact Hf. Qed.

(** File operations on [filename] leave the other files alone. *)
Lemma file_op_elsewhere (filename : string) (action : world -> world) (w : world) :
  (forall w0, elsewhere filename w0 (action w0)) ->
  elsewhere filename w (file_op action w).2.
Proof.
  intros Hact. unfold file_op. destruct (faults w) as [|[msg|] coming]; cbn [snd].
  - apply Hact.
  - intros f Hf. reflexivity.
  - intros f Hf. apply (Hact (set_faults (fun _ => coming) w)). exact Hf.
Qed.

Lemma file_write_elsewhere (filename text : string) (w : world) :
  elsewhere filename w (file_write filename text w).2.
Proof.
  apply file_op_elsewhere. intros w0 f Hf. cbn. apply lookup_insert_ne. congruence.
Qed.

Lemma write_all_elsewhere (filename : string) (texts : list string) :
  forall w : world, elsewhere filename w (write_all filename texts w).2.
Proof.
  induction texts as [|text rest IH]; intros w; cbn [write_all].
  - apply elsewhere_refl.
  - pose proof (file_write_elsewhere filename text w) as H1.
    destruct (file_write filename text w) as [[[]|e] w1]; cbn [snd] in *.
    + eapply elsewhere_trans; [exact H1 | apply IH].
    + exact H1.
Qed.

Lemma save_body_elsewhere (hs : list holding) (total_value : pynum) (filename : string)
  (w : world) :
  elsewhere filename w (save_body hs total_value filename w).2.
Proof.
  unfold save_body.
  pose proof (write_all_elsewhere filename (file_rows hs) w) as H1.
  destruct (write_all filename (file_rows hs) w) as [[[]|e] w1]; cbn [snd] in *; [|exact H1].
  destruct (format_total total_value) as [text|e]; cbn [snd]; [|exact H1].
  eapply elsewhere_trans; [exact H1 | apply write_all_elsewhere].
Qed.

Lemma save_body_heap (hs : list holding) (total_value : pynum) (filename : string)
  (w : world) :
  heap (save_body hs total_value filename w).2 = heap w.
Proof.
  unfold save_body.
  pose proof (write_all_effect filename (file_rows hs) w) as (_ & H1 & _).
  destruct (write_all filename (file_rows hs) w) as [[[]|e] w1]; cbn [snd] in *; [|exact H1].
  destruct (format_total total_value) as [text|e]; cbn [snd]; [|exact H1].
  match goal with |- context [write_all filename ?ts w1] =>
    pose proof (write_all_effect filename ts w1) as (_ & H2 & _) end.
  congruence.
Qed.

(** The save changes neither the other files nor the store. *)
Lemma save_results_frame (portfolio : list ref) (total_value : pynum)
  (filename : string) (w : world) :
  elsewhere filename w (save_results_to_file portfolio total_value filename w).2 /\
  heap (save_results_to_file portfolio total_value filename w).2 = heap w.
Proof.
  unfold save_results_to_file.
  set (body := save_body (holdings (heap w) portfolio) total_value filename).
  assert (Hwith : elsewhere filename w (with_open filename body w).2 /\
                  heap (with_open filename body w).2 = heap w).
  { unfold with_open.
    pose proof (file_op_elsewhere filename
                  (set_disk (fun d => <[filename := EmptyString]> d)) w) as Hopen.
    assert (Hopen_heap : heap (file_open filename w).2 = heap w).
    { unfold file_open, file_op. destruct (faults w) as [|[msg|] coming]; reflexivity. }
    fold (file_open filename w) in Hopen.
    destruct (file_open filename w) as [[[]|e] w1]; cbn [snd] in *.
    2:{ split; [|exact Hopen_heap]. apply Hopen. intros w0 f Hf. cbn.
        apply lookup_insert_ne. congruence. }
    pose proof (save_body_elsewhere (holdings (heap w) portfolio) total_value filename w1)
      as Hbody.
    pose proof (save_body_heap (holdings (heap w) portfolio) total_value filename w1)
      as Hbody_heap.
    fold body in Hbody, Hbody_heap. destruct (body w1) as [r w2]. cbn [snd] in *.
    assert (Hclose : disk (file_close w2).2 = disk w2 /\ heap (file_close w2).2 = heap w2).
    { unfold file_close, file_op. destruct (faults w2) as [|[msg|] coming]; split; reflexivity. }
    destruct (file_close w2) as [[[]|e] w3]; cbn [snd] in *; destruct Hclose as [Hd Hh];
      (split; [|congruence]);
      (intros f Hf; rewrite Hd, (Hbody f Hf); apply Hopen; [|exact Hf];
       intros w0 f0 Hf0; cbn; apply lookup_insert_ne; congruence). }
  destruct Hwith as [Helse Hheap].
  destruct (with_open filename body w) as [[[]|[]] w1]; cbn [snd] in *; split; assumption.
Qed.

(** X16: whatever the file operations do and whatever the total is,
    [save_results_to_file] changes no file other than [filename] and
    does not change the store; when the opening fails no file changes at
    all, and the function returns normally after printing the error
    line. *)
Theorem save_touches_one_file (portfolio : list ref) (total_value : pynum)
  (filename : string) (w : world) :
  let w' := (save_results_to_file portfolio total_value filename w).2 in
  (forall f : string, f <> filename -> disk w' !! f = disk w !! f) /\
  heap w' = heap w /\
  (forall (msg : string) (coming : list (option string)),
     faults w = Some msg :: coming ->
     save_results_to_file portfolio total_value filename w =
       (Ok tt, print (save_error_msg msg) (set_faults (fun _ => coming) w))).
Proof.
  cbv zeta. destruct (save_results_frame portfolio total_value filename w) as [Helse Hheap].
  split; [exact Helse|]. split; [exact Hheap|].
  intros msg coming Hf.
  unfold save_results_to_file, with_open, file_open, file_op. rewrite Hf. reflexivity.
Qed.

Lemma save_touches_one_file_witness :
  save_results_to_file [] (PyFloat Float.zero) "out.txt"
    (initial_world {["out.txt"%string := "old"%string]} [Some "Permission denied"%string]) =
  (Ok tt, print (save_error_msg "Permission denied")
            (initial_world {["out.txt"%string := "old"%string]} [])).
Proof.
  destruct (save_touches_one_file [] (PyFloat Float.zero) "out.txt"
              (initial_world {["out.txt"%string := "old"%string]}
                 [Some "Permission denied"%string])) as (_ & _ & Hopen).
  apply (Hopen "Permission denied"%string []). reflexivity.
Defined.

(** ** How [main] ends and what it writes *)

(** On collected dictionaries the total is a double and the weight pass
    completes. *)
Lemma collected_weights_pass (hp : list holding) (portfolio : list ref) :
  all_holdings collected hp portfolio -> portfolio <> [] ->
  exists (T : float) (hp' : list holding),
    calculate_portfolio_value hp portfolio = PyFloat T /\
    calculate_portfolio_weights portfolio (PyFloat T) hp = Ok hp'.
Proof.
  intros Hall Hne.
  destruct (all_holdings_holdings _ _ _ Hall) as [Hcoll Hlen].
  assert (Hvals : Forall (fun v => pos_or_inf v = true) (map value (holdings hp portfolio))).
  { apply Forall_map. eapply Forall_impl; [exact Hcoll|]. apply collected_value. }
  unfold calculate_portfolio_value, Num.sum.
  destruct (map value (holdings hp portfolio)) as [|v vs] eqn:Hmap.
  { apply (f_equal length) in Hmap. rewrite length_map, Hlen in Hmap.
    destruct portfolio; [contradiction | discriminate]. }
  assert (Hpos : pos_or_inf (fold_left Float.add (v :: vs) Float.zero) = true).
  { cbn [fold_left]. inversion Hvals as [|? ? Hv Hrest]; subst.
    rewrite add_zero_l by exact Hv. apply sum_pos_or_inf; assumption. }
  destruct (pos_or_inf_nonzero _ Hpos) as [Hnz _].
  destruct (weights_pass hp portfolio
              (PyFloat (fold_left Float.add (v :: vs) Float.zero)) _ Hnz eq_refl)
    as (hp' & Hrun & _).
  eexists _, hp'. split; [reflexivity | exact Hrun].
Qed.

(** Printing the report changes neither files nor store. *)
Lemma rows_frame (hs : list holding) :
  forall w : world,
    disk (fold_left (fun w h => print (report_row h) w) hs w) = disk w /\
    faults (fold_left (fun w h => print (report_row h) w) hs w) = faults w /\
    heap (fold_left (fun w h => print (report_row h) w) hs w) = heap w.
Proof.
  induction hs as [|h hs IH]; intros w; cbn [fold_left]; [repeat split; reflexivity|].
  destruct (IH (print (report_row h) w)) as (Hd & Hf & Hh). rewrite Hd, Hf, Hh.
  repeat split; reflexivity.
Qed.

Lemma display_report_frame (hs : list holding) (total_text : string) (w : world) :
  disk (display_report hs total_text w) = disk w /\
  faults (display_report hs total_text w) = faults w /\
  heap (display_report hs total_text w) = heap w.
Proof.
  unfold display_report. cbn [disk faults heap print set_stdout].
  match goal with |- context [fold_left _ hs ?w0] =>
    destruct (rows_frame hs w0) as (Hd & Hf & Hh) end.
  rewrite Hd, Hf, Hh. repeat split; reflexivity.
Qed.

(** X17: how a run of [main] ends is settled by the collector and by
    the input left.  When the collector raises, which it does with
    [EOFError] or [OverflowError] only, [main] ends on that exception,
    uncaught, in the world the collector left; when it returns the empty
    list, [main] calls [sys.exit()]; when it returns a non-empty list,
    [main] ends on an uncaught [EOFError] if no line is left for the
    save question, and returns normally otherwise, whatever the answer
    and whatever the file operations do.  So no run ends on
    [ZeroDivisionError], [KeyError] or [OSError]. *)
Theorem main_ends_in_four_ways (lines : list string) (w : world) :
  let o := get_user_portfolio lines (print welcome_msg w) in
  match res o with
  | Raise e =>
      main lines w = Run (Uncaught e) (unread o) (after o) /\
      (e = EOFError \/ e = OverflowError)
  | Ok [] =>
      ending_of (main lines w) = SysExit /\ unread_of (main lines w) = unread o
  | Ok (_ :: _) =>
      match unread o with
      | [] =>
          ending_of (main lines w) = Uncaught EOFError /\ unread_of (main lines w) = []
      | _ :: rest =>
          ending_of (main lines w) = Returned /\ unread_of (main lines w) = rest
      end
  end.
Proof.
  cbv zeta. unfold main.
  pose proof (resume_ends lines AwaitingTicker []) as Hends.
  pose proof (resume_collected lines AwaitingTicker []) as Hcoll.
  cbn [resume] in Hends, Hcoll. unfold get_user_portfolio.
  match goal with |- context [ticker_loop lines [] ?w0] =>
    specialize (Hends w0 I);
    pose proof (fun p rest w1 => Hcoll p rest w0 w1) as Hcoll';
    destruct (ticker_loop lines [] w0) as [[p|e] rest w1] end.
  2:{ cbn in *. split; [reflexivity|].
      destruct Hends as [[-> _]|(-> & _)]; [left | right]; reflexivity. }
  destruct p as [|r p]; [cbn; auto|].
  assert (Hall : all_holdings collected (heap w1) (r :: p)).
  { apply (Hcoll' (r :: p) rest w1); [reflexivity | constructor]. }
  destruct (collected_weights_pass (heap w1) (r :: p) Hall ltac:(discriminate))
    as (T & hp' & -> & ->).
  cbn [format_total Num.as_float bind res unread]. cbv zeta.
  match goal with |- context [save_step _ _ rest ?w2] => generalize w2 end.
  intros w2. destruct rest as [|line rest]; cbn [save_step].
  { cbn. auto. }
  destruct (String.eqb _ _).
  - destruct (save_results_effect (r :: p) (PyFloat T) _ default_filename
                (show_prompt save_prompt w2) eq_refl) as (w' & -> & _).
    cbn. auto.
  - cbn. auto.
Qed.

(** X18: [main] changes no file other than [portfolio_summary.txt]; and
    unless it returns after the save question was answered with [y], in
    either letter case and with blanks around it allowed, it changes no
    file at all and performs no file operation. *)
Theorem main_writes_only_on_yes (lines : list string) (w : world) :
  (forall f : string, f <> default_filename ->
     disk (world_of (main lines w)) !! f = disk w !! f) /\
  ((disk (world_of (main lines w)) = disk w /\ faults (world_of (main lines w)) = faults w) \/
   (ending_of (main lines w) = Returned /\
    exists (pre : list string) (answer : string),
      lines = pre ++ answer :: unread_of (main lines w) /\
      Text.lower (Text.strip answer) = "y"%string)).
Proof.
  unfold main.
  pose proof (resume_frame lines AwaitingTicker []) as Hframe.
  pose proof (resume_collected lines AwaitingTicker []) as Hcoll.
  cbn [resume] in Hframe, Hcoll. unfold get_user_portfolio.
  match goal with |- context [ticker_loop lines [] ?w0] =>
    specialize (Hframe w0);
    pose proof (fun p rest w1 => Hcoll p rest w0 w1) as Hcoll';
    destruct (ticker_loop lines [] w0) as [[p|e] rest w1] end.
  all: destruct Hframe as (Hd & Hf & _ & Hsuffix & _); cbn in Hd, Hf, Hsuffix.
  2:{ cbn. split; [intros; rewrite Hd; reflexivity | left; auto]. }
  destruct p as [|r p].
  { cbn. split; [intros; rewrite Hd; reflexivity | left; auto]. }
  assert (Hall : all_holdings collected (heap w1) (r :: p)).
  { apply (Hcoll' (r :: p) rest w1); [reflexivity | constructor]. }
  destruct (collected_weights_pass (heap w1) (r :: p) Hall ltac:(discriminate))
    as (T & hp' & -> & ->).
  cbn [format_total Num.as_float bind]. cbv zeta.
  match goal with |- context [save_step _ _ rest (display_report ?hs ?text ?w2)] =>
    destruct (display_report_frame hs text w2) as (Hd2 & Hf2 & _);
    set (w3 := display_report hs text w2) in * end.
  cbn [disk faults set_heap] in Hd2, Hf2. clearbody w3.
  destruct rest as [|line rest]; cbn [save_step].
  { cbn. rewrite Hd2, Hf2, Hd, Hf. split; [reflexivity | left; auto]. }
  destruct (String.eqb_spec (Text.lower (Text.strip line)) "y") as [Hy|_].
  - destruct (save_results_frame (r :: p) (PyFloat T) default_filename
                (show_prompt save_prompt w3)) as [Helse _].
    destruct (save_results_effect (r :: p) (PyFloat T) _ default_filename
                (show_prompt save_prompt w3) eq_refl) as (w' & Hsave & _).
    rewrite Hsave in *. cbn [snd] in Helse. cbn [world_of ending_of unread_of].
    split.
    + intros f Hne. rewrite (Helse f Hne). cbn. rewrite Hd2, Hd. reflexivity.
    + right. split; [reflexivity|]. destruct Hsuffix as [pre Hpre].
      exists pre, line. split; assumption.
  - cbn. rewrite Hd2, Hf2, Hd, Hf. split; [reflexivity | left; auto].
Qed.

Lemma main_writes_only_on_yes_witness :
  disk (world_of (main ["v"; "1"; "done"; "y"]%string
                    (initial_world {["notes.txt"%string := "kept"%string]} [])))
    !! "notes.txt"%string = Some "kept"%string.
Proof.
  destruct (main_writes_only_on_yes ["v"; "1"; "done"; "y"]%string
              (initial_world {["notes.txt"%string := "kept"%string]} [])) as [Hother _].
  rewrite (Hother "notes.txt"%string); [reflexivity | discriminate].
Defined.

(** ** Integers as printed and as read *)

(** The character of a digit is a digit and has its value. *)
Lemma digit_char_spec (d : Z) :
  0 <= d < 10 ->
  Text.is_digit (Text.digit_char d) = true /\ Text.digit_val (Text.digit_char d) = d.
Proof.
  intros Hd.
  assert (H : d = 0 \/ d = 1 \/ d = 2 \/ d = 3 \/ d = 4 \/ d = 5 \/ d = 6 \/ d = 7 \/
              d = 8 \/ d = 9) by lia.
  repeat (destruct H as [->|H]; [split; reflexivity|]). subst d. split; reflexivity.
Qed.

Lemma digit_not_space (c : ascii) : Text.is_digit c = true -> Text.isspace c = false.
Proof.
  destruct c as [[] [] [] [] [] [] [] []]; intros H; vm_compute in H; try discriminate H;
    reflexivity.
Qed.

(** Reading the digits written for [n] in front of a text continues, on
    that text, with [n] accumulated. *)
Lemma digits_fuel_parse (k : nat) :
  forall (n : Z) (tail : string) (b : bool),
    0 <= n < 2 ^ Z.of_nat (S k) ->
    Text.parse_digits (Text.digits_fuel (S k) n tail) 0 b = Text.parse_digits tail n true.
Proof.
  induction k as [|k IH]; intros n tail b Hn.
  - assert (Hsmall : n / 10 = 0) by (apply Z.div_small; change (2 ^ Z.of_nat 1) with 2 in Hn; lia).
    cbn [Text.digits_fuel]. rewrite Hsmall. cbn [Z.eqb].
    assert (Hmod : n mod 10 = n) by (apply Z.mod_small; change (2 ^ Z.of_nat 1) with 2 in Hn; lia).
    rewrite Hmod. cbn [Text.parse_digits].
    destruct (digit_char_spec n) as [Hd Hv]; [change (2 ^ Z.of_nat 1) with 2 in Hn; lia|].
    rewrite Hd, Hv. f_equal; lia.
  - remember (S k) as k1 eqn:Hk1. cbn [Text.digits_fuel].
    pose proof (Z.mod_pos_bound n 10 ltac:(lia)) as Hmod.
    destruct (digit_char_spec (n mod 10) Hmod) as [Hd Hv].
    destruct (Z.eqb_spec (n / 10) 0) as [Hsmall|Hbig].
    + cbn [Text.parse_digits]. rewrite Hd, Hv. f_equal.
      pose proof (Z.div_mod n 10 ltac:(lia)). lia.
    + subst k1. rewrite IH.
      * cbn [Text.parse_digits]. rewrite Hd, Hv. f_equal.
        pose proof (Z.div_mod n 10 ltac:(lia)). lia.
      * split; [apply Z.div_pos; lia|].
        rewrite (Nat2Z.inj_succ (S k)), Z.pow_succ_r in Hn by lia.
        apply Z.div_lt_upper_bound; [lia|].
        pose proof (Z.pow_pos_nonneg 2 (Z.of_nat (S k)) ltac:(lia) ltac:(lia)). lia.
Qed.

Lemma digits_fuel_chars (fuel : nat) :
  forall (n : Z) (tail : string),
    0 <= n -> all_chars Text.is_digit tail = true ->
    all_chars Text.is_digit (Text.digits_fuel fuel n tail) = true.
Proof.
  induction fuel as [|k IH]; intros n tail Hn Htail; [exact Htail|].
  cbn [Text.digits_fuel].
  pose proof (Z.mod_pos_bound n 10 ltac:(lia)) as Hmod.
  destruct (digit_char_spec (n mod 10) Hmod) as [Hd _].
  assert (Hacc : all_chars Text.is_digit (String (Text.digit_char (n mod 10)) tail) = true)
    by (cbn [all_chars]; rewrite Hd, Htail; reflexivity).
  destruct (n / 10 =? 0); [exact Hacc|].
  apply IH; [apply Z.div_pos; lia | exact Hacc].
Qed.

(** The digits of a non-negative integer are digits and read as it. *)
Lemma digits_spec (n : Z) :
  0 <= n ->
  all_chars Text.is_digit (Text.digits n) = true /\
  Text.parse_digits (Text.digits n) 0 false = Some n.
Proof.
  intros Hn. unfold Text.digits. split; [apply digits_fuel_chars; [exact Hn | reflexivity]|].
  rewrite digits_fuel_parse; [reflexivity|].
  split; [exact Hn|]. rewrite Nat2Z.inj_succ, Z2Nat.id by apply Z.log2_nonneg.
  destruct (Z.eq_dec n 0) as [->|Hne]; [reflexivity|].
  apply Z.log2_spec. lia.
Qed.

Lemma rstrip_no_space (s : string) :
  all_chars (fun c => negb (Text.isspace c)) s = true -> Text.rstrip s = s.
Proof.
  induction s as [|c s IH]; [reflexivity|]. cbn [all_chars Text.rstrip].
  intros H. apply andb_true_iff in H as [Hc Hs]. rewrite (IH Hs).
  destruct s; [|reflexivity]. apply negb_true_iff in Hc. rewrite Hc. reflexivity.
Qed.

(** [strip] leaves a text without blanks as it is. *)
Lemma strip_no_space (s : string) :
  all_chars (fun c => negb (Text.isspace c)) s = true -> Text.strip s = s.
Proof.
  intros H. unfold Text.strip.
  assert (Hl : Text.lstrip s = s).
  { destruct s as [|c s]; [reflexivity|]. cbn [all_chars] in H.
    apply andb_true_iff in H as [Hc _]. apply negb_true_iff in Hc.
    cbn [Text.lstrip]. rewrite Hc. reflexivity. }
  rewrite Hl. apply rstrip_no_space. exact H.
Qed.

Lemma digits_no_space (s : string) :
  all_chars Text.is_digit s = true ->
  all_chars (fun c => negb (Text.isspace c)) s = true.
Proof.
  induction s as [|c s IH]; [reflexivity|]. cbn [all_chars].
  intros H. apply andb_true_iff in H as [Hc Hs].
  rewrite (digit_not_space c Hc), (IH Hs). reflexivity.
Qed.

(** A text that starts with a digit has no sign. *)
Lemma parse_int_digits (s : string) :
  all_chars Text.is_digit s = true -> Text.parse_int s = Text.parse_digits s 0 false.
Proof.
  destruct s as [|c s]; [reflexivity|]. cbn [all_chars].
  intros H. apply andb_true_iff in H as [Hc _].
  destruct c as [[] [] [] [] [] [] [] []]; vm_compute in Hc; try discriminate Hc; reflexivity.
Qed.

(** [int(str(n).strip()) == n] *)
Lemma str_int_reads_back (n : Z) :
  Text.strip (Text.str_int n) = Text.str_int n /\
  Text.parse_int (Text.strip (Text.str_int n)) = Some n.
Proof.
  unfold Text.str_int. destruct (Z.ltb_spec n 0) as [Hneg|Hpos].
  - destruct (digits_spec (- n) ltac:(lia)) as [Hchars Hparse].
    change ("-" +:+ Text.digits (- n)) with (String "-"%char (Text.digits (- n))).
    assert (Hstrip : Text.strip (String "-"%char (Text.digits (- n))) =
                     String "-"%char (Text.digits (- n))).
    { apply strip_no_space. cbn [all_chars]. rewrite (digits_no_space _ Hchars). reflexivity. }
    rewrite Hstrip. split; [reflexivity|].
    cbn [Text.parse_int]. rewrite Hparse. cbn. f_equal. lia.
  - destruct (digits_spec n Hpos) as [Hchars Hparse].
    rewrite (strip_no_space _ (digits_no_space _ Hchars)). split; [reflexivity|].
    rewrite (parse_int_digits _ Hchars). exact Hparse.
Qed.

(** X19: for an integer of at most 4300 digits, which is as far as
    [str] and [int] go before they raise [ValueError], the decimal text
    that the program prints contains no blank and reads back, through
    [strip] and [int], as the same integer; so a quantity above 0 typed
    as the program prints it is taken as that quantity. *)
Theorem printed_integer_reads_back (n : Z) :
  Z.abs n < 10 ^ 4300 ->
  Text.strip (Text.str_int n) = Text.str_int n /\
  Text.parse_int (Text.strip (Text.str_int n)) = Some n /\
  (0 < n ->
   forall (t : string) (rest : list string) (portfolio : list ref) (w : world),
     quantity_loop t (Text.str_int n :: rest) portfolio w =
       match add_holding t n portfolio (show_prompt (quantity_prompt t) w) with
       | (Ok portfolio', w') => ticker_loop rest portfolio' w'
       | (Raise e, w') => Outcome (Raise e) rest w'
       end).
Proof.
  intros _. destruct (str_int_reads_back n) as [Hstrip Hparse].
  split; [exact Hstrip|]. split; [exact Hparse|].
  intros Hn t rest portfolio w. cbn [quantity_loop]. rewrite Hparse.
  destruct (String.eqb_spec (Text.strip (Text.str_int n)) EmptyString) as [He|_].
  { rewrite He in Hparse. discriminate. }
  destruct (Z.leb_spec n 0) as [|_]; [lia | reflexivity].
Qed.

Lemma printed_integer_reads_back_witness :
  Text.str_int 12 = "12"%string /\
  Text.parse_int (Text.strip (Text.str_int 12)) = Some 12 /\
  quantity_loop "V" [Text.str_int 12; "done"]%string [] (initial_world ∅ []) =
    match add_holding "V" 12 [] (show_prompt (quantity_prompt "V") (initial_world ∅ [])) with
    | (Ok portfolio', w') => ticker_loop ["done"%string] portfolio' w'
    | (Raise e, w') => Outcome (Raise e) ["done"%string] w'
    end.
Proof.
  destruct (printed_integer_reads_back 12) as (_ & Hparse & Hloop).
  - vm_compute. reflexivity.
  - split; [vm_compute; reflexivity|]. split; [exact Hparse|].
    apply Hloop. lia.
Defined.

(** ** The whole program on a complete session *)

(** The rows of the report, as output. *)
Lemma rows_output (hs : list holding) :
  forall w : world,
    fold_left (fun w h => print (report_row h) w) hs w =
    set_stdout (fun out => out ++ map (fun h => report_row h +:+ Text.nl) hs) w.
Proof.
  induction hs as [|h hs IH]; intros w; cbn [fold_left map].
  - destruct w as [out hp d fs]. unfold set_stdout. cbn. rewrite app_nil_r. reflexivity.
  - rewrite IH. destruct w as [out hp d fs]. unfold print, set_stdout. cbn.
    rewrite <- app_assoc. reflexivity.
Qed.

Lemma display_report_output (hs : list holding) (total_text : string) (w : world) :
  display_report hs total_text w =
  set_stdout (fun out => out ++ report_output hs total_text) w.
Proof.
  unfold display_report. rewrite rows_output. destruct w as [out hp d fs].
  unfold report_output, print, set_stdout. cbn [stdout heap disk faults].
  f_equal. rewrite <- !app_assoc. reflexivity.
Qed.

(** The program on a complete session, up to the save question. *)
Lemma main_reports (typed : list (string * string)) (hs : list holding)
  (done : string) (rest : list string) (files : gmap string string)
  (fs : list (option string)) :
  Forall2 accepted typed hs -> hs <> [] ->
  Text.upper (Text.strip done) = "DONE"%string ->
  exists (T : float) (hs' : list holding),
    calculate_portfolio_value hs (seq 0 (length hs)) = PyFloat T /\
    calculate_portfolio_weights (seq 0 (length hs)) (PyFloat T) hs = Ok hs' /\
    holdings hs' (seq 0 (length hs)) = hs' /\
    forall w3 : world,
      w3 = {| stdout := session_output hs hs' (Float.fixed2 true T);
              heap := hs'; disk := files; faults := fs |} ->
      main (entry_lines typed ++ done :: rest) (initial_world files fs) =
      match rest with
      | [] => Run (Uncaught EOFError) [] w3
      | line :: rest' =>
          if String.eqb (Text.lower (Text.strip line)) "y" then
            match save_results_to_file (seq 0 (length hs)) (PyFloat T) default_filename w3 with
            | (Ok _, w') => Run Returned rest' w'
            | (Raise e, w') => Run (Uncaught e) rest' w'
            end
          else Run Returned rest' (print skipped_msg w3)
      end.
Proof.
  intros Hall Hne Hdone.
  set (w0 := print welcome_msg (initial_world files fs)).
  pose proof (get_user_portfolio_session typed hs done rest w0 Hall Hdone) as Hrun.
  cbn [heap w0 print set_stdout initial_world length app disk faults stdout] in Hrun.
  assert (Hcoll : all_holdings collected hs (seq 0 (length hs))).
  { pose proof (resume_collected (entry_lines typed ++ done :: rest)
                  AwaitingTicker [] (seq 0 (length hs)) rest
                  (initial_world files fs)) as Hc.
    cbn [resume] in Hc.
    rewrite (ticker_loop_session done rest typed hs Hall Hdone) in Hc.
    apply (Hc _ eq_refl). constructor. }
  assert (Hpne : seq 0 (length hs) <> []) by (destruct hs; [contradiction | discriminate]).
  destruct (collected_weights_pass hs (seq 0 (length hs)) Hcoll Hpne) as (T & hs' & HT & Hw).
  exists T, hs'. split; [exact HT|]. split; [exact Hw|].
  destruct (weights_pass_fields _ _ _ _ Hw) as [Hlen _].
  assert (Hhold : holdings hs' (seq 0 (length hs)) = hs').
  { rewrite <- Hlen. apply (holdings_seq hs' []). }
  split; [exact Hhold|]. intros w3 Hw3.
  unfold main. fold w0. rewrite Hrun.
  destruct (seq 0 (length hs)) as [|r p] eqn:Hseq; [contradiction|].
  cbn [heap]. rewrite HT, Hw. cbn [format_total Num.as_float bind]. cbv zeta.
  rewrite Hhold, display_report_output.
  match goal with |- save_step _ _ _ ?w2 = _ =>
    assert (Hw3' : show_prompt save_prompt w2 = w3) end.
  { rewrite Hw3. unfold session_output, show_prompt, set_stdout, set_heap.
    cbn [stdout heap disk faults]. f_equal.
    cbn [app]. rewrite <- !app_assoc. cbn [app]. reflexivity. }
  unfold save_step. cbv zeta. rewrite Hw3'. destruct rest; reflexivity.
Qed.

(** X20: the whole program on a session of accepted entries, at least
    one, closed by the sentinel and answered [y], started with an empty
    store: the total and the weights are those of
    [calculate_portfolio_value] and [calculate_portfolio_weights] on the
    dictionaries of the entries, and when no file operation of the save
    fails, [main] returns normally, the lines after the answer are
    unread, the console shows the welcome, the collection, the report
    with one row per entry in order of entry, the save question and the
    success line, the store holds the weighted dictionaries, and the file
    [portfolio_summary.txt] holds the report of exactly these
    dictionaries and of their total, the other files being as they
    were. *)
Theorem main_saves_the_report (typed : list (string * string)) (hs : list holding)
  (done answer : string) (rest : list string) (files : gmap string string)
  (fs : list (option string)) :
  Forall2 accepted typed hs -> hs <> [] ->
  Text.upper (Text.strip done) = "DONE"%string ->
  Text.lower (Text.strip answer) = "y"%string ->
  exists (T : float) (hs' : list holding),
    calculate_portfolio_value hs (seq 0 (length hs)) = PyFloat T /\
    calculate_portfolio_weights (seq 0 (length hs)) (PyFloat T) hs = Ok hs' /\
    (Forall (fun f => f = None) (take (save_operations hs') fs) ->
     main (entry_lines typed ++ done :: answer :: rest) (initial_world files fs) =
       Run Returned rest
         {| stdout := session_output hs hs' (Float.fixed2 true T) ++
                      [saved_msg default_filename +:+ Text.nl];
            heap := hs';
            disk := <[default_filename := report_text hs' (Float.fixed2 true T)]> files;
            faults := drop (save_operations hs') fs |}).
Proof.
  intros Hall Hne Hdone Hy.
  destruct (main_reports typed hs done (answer :: rest) files fs Hall Hne Hdone)
    as (T & hs' & HT & Hw & Hhold & Hmain).
  exists T, hs'. split; [exact HT|]. split; [exact Hw|]. intros Hclear.
  rewrite (Hmain _ eq_refl). rewrite Hy. cbn [String.eqb Ascii.eqb Bool.eqb].
  rewrite (save_clear (seq 0 (length hs)) (PyFloat T) (Float.fixed2 true T) default_filename
             _ eq_refl).
  2:{ cbn [heap faults]. rewrite Hhold. exact Hclear. }
  cbn [heap faults stdout disk]. rewrite Hhold. reflexivity.
Qed.

Lemma main_saves_the_report_witness :
  exists text : string,
    disk (world_of (main ["ry"; "3"; "done"; "Y"]%string (initial_world ∅ []))) =
      {[default_filename := text]}.
Proof.
  destruct (new_holding "RY" 3) as [h1|] eqn:H1; [|vm_compute in H1; discriminate].
  destruct (main_saves_the_report [("ry", "3")]%string [h1] "done" "Y" [] ∅ [])
    as (T & hs' & _ & _ & Hmain).
  - constructor; [|constructor]. exists 3. split; [reflexivity|]. split; [lia | exact H1].
  - discriminate.
  - reflexivity.
  - reflexivity.
  - eexists. cbn [entry_lines app] in Hmain. rewrite Hmain.
    + cbn [world_of disk]. apply insert_empty.
    + rewrite take_nil. constructor.
Defined.

(** X21: the same session answered with anything that is not [y] once
    stripped and put in lower case: [main] returns normally having
    printed the same report and then [File saving skipped.]; no file is
    changed and no file operation is performed. *)
Theorem main_skips_the_save (typed : list (string * string)) (hs : list holding)
  (done answer : string) (rest : list string) (files : gmap string string)
  (fs : list (option string)) :
  Forall2 accepted typed hs -> hs <> [] ->
  Text.upper (Text.strip done) = "DONE"%string ->
  Text.lower (Text.strip answer) <> "y"%string ->
  exists (T : float) (hs' : list holding),
    calculate_portfolio_value hs (seq 0 (length hs)) = PyFloat T /\
    calculate_portfolio_weights (seq 0 (length hs)) (PyFloat T) hs = Ok hs' /\
    main (entry_lines typed ++ done :: answer :: rest) (initial_world files fs) =
      Run Returned rest
        {| stdout := session_output hs hs' (Float.fixed2 true T) ++
                     [skipped_msg +:+ Text.nl];
           heap := hs'; disk := files; faults := fs |}.
Proof.
  intros Hall Hne Hdone Hy.
  destruct (main_reports typed hs done (answer :: rest) files fs Hall Hne Hdone)
    as (T & hs' & HT & Hw & Hhold & Hmain).
  exists T, hs'. split; [exact HT|]. split; [exact Hw|].
  rewrite (Hmain _ eq_refl).
  destruct (String.eqb_spec (Text.lower (Text.strip answer)) "y") as [Heq|_];
    [contradiction | reflexivity].
Qed.

Lemma main_skips_the_save_witness :
  disk (world_of (main ["ry"; "3"; "done"; "yes"]%string (initial_world ∅ []))) = ∅ /\
  last (stdout (world_of (main ["ry"; "3"; "done"; "yes"]%string (initial_world ∅ [])))) =
    Some (skipped_msg +:+ Text.nl).
Proof.
  destruct (new_holding "RY" 3) as [h1|] eqn:H1; [|vm_compute in H1; discriminate].
  destruct (main_skips_the_save [("ry", "3")]%string [h1] "done" "yes" [] ∅ [])
    as (T & hs' & _ & _ & Hmain).
  - constructor; [|constructor]. exists 3. split; [reflexivity|]. split; [lia | exact H1].
  - discriminate.
  - reflexivity.
  - discriminate.
  - cbn [entry_lines app] in Hmain. rewrite Hmain. cbn [world_of disk stdout].
    split; [reflexivity | apply last_snoc].
Defined.

(** ** Amounts as displayed *)

(** One hundred times a double against an integer [h], as inequalities
    and equations on integers: [d] is the denominator of the double, [n]
    one hundred times its mantissa. *)
Lemma nearest_from_integers (x : Q) (n d h : Z) :
  0 < d -> (x * inject_Z d == inject_Z n)%Q ->
  2 * n <= d + 2 * (h * d) -> 2 * (h * d) <= d + 2 * n ->
  (Qabs (x - inject_Z h) <= 1 # 2)%Q.
Proof.
  intros Hd Hx H1 H2.
  assert (HD : (0 < inject_Z d)%Q) by (change 0%Q with (inject_Z 0); rewrite <- Zlt_Qlt; exact Hd).
  rewrite Zle_Qle, !inject_Z_plus, !inject_Z_mult in H1, H2.
  change (inject_Z 2) with 2%Q in H1, H2.
  apply Qabs_Qle_condition. split; apply (Qmult_le_r _ _ (inject_Z d) HD).
  - setoid_replace ((x - inject_Z h) * inject_Z d)%Q
      with (x * inject_Z d - inject_Z h * inject_Z d)%Q using relation Qeq by ring.
    rewrite Hx. lra.
  - setoid_replace ((x - inject_Z h) * inject_Z d)%Q
      with (x * inject_Z d - inject_Z h * inject_Z d)%Q using relation Qeq by ring.
    rewrite Hx. lra.
Qed.

Lemma tie_from_integers (x : Q) (n d h : Z) :
  (x * inject_Z d == inject_Z n)%Q -> (Qabs (x - inject_Z h) == 1 # 2)%Q ->
  2 * n = 2 * (h * d) + d \/ 2 * n + d = 2 * (h * d).
Proof.
  intros Hx Ht.
  assert (Hcases : (x == inject_Z h + (1 # 2) \/ x == inject_Z h - (1 # 2))%Q).
  { destruct (Qlt_le_dec (x - inject_Z h) 0) as [Hneg|Hpos].
    - right. rewrite Qabs_neg in Ht by lra. lra.
    - left. rewrite Qabs_pos in Ht by exact Hpos. lra. }
  destruct Hcases as [Hxe|Hxe]; [left | right];
    apply (proj1 (inject_Z_injective _ _));
    rewrite !inject_Z_plus, !inject_Z_mult, <- Hx, Hxe;
    change (inject_Z 2) with 2%Q; ring.
Qed.

(** X22: the amounts that the confirmation line, the report and the
    file show with two decimals are the doubles stored, rounded to the
    nearest hundredth, ties to the even one: the number of hundredths
    shown for a positive finite double is at most half a hundredth away
    from it, and is even when it is exactly half a hundredth away. *)
Theorem displayed_amount_is_nearest_hundredth (m : positive) (e : Z) :
  (Qabs (Float.to_Q (S754_finite false m e) * 100 - inject_Z (Float.hundredths m e))
     <= 1 # 2)%Q /\
  ((Qabs (Float.to_Q (S754_finite false m e) * 100 - inject_Z (Float.hundredths m e))
      == 1 # 2)%Q ->
   Z.even (Float.hundredths m e) = true).
Proof.
  rewrite to_Q_finite.
  unfold Float.hundredths. destruct (Z.leb_spec 0 e) as [He|He].
  - assert (Hx : (F2Q (Z.pos m) e * 100 == inject_Z (Z.pos m * 100 * 2 ^ e))%Q).
    { unfold F2Q. rewrite (bpow_inject e) by exact He. rewrite !inject_Z_mult. ring. }
    rewrite Hx.
    setoid_replace (inject_Z (Z.pos m * 100 * 2 ^ e) - inject_Z (Z.pos m * 100 * 2 ^ e))%Q
      with 0%Q using relation Qeq by ring.
    split; discriminate.
  - cbv zeta. set (d := 2 ^ (- e)). set (n := Z.pos m * 100).
    assert (Hd : 0 < d) by (apply Z.pow_pos_nonneg; lia).
    pose proof (Z.div_mod n d ltac:(lia)) as Hdiv.
    pose proof (Z.mod_pos_bound n d Hd) as Hmod.
    assert (Hx : (F2Q (Z.pos m) e * 100 * inject_Z d == inject_Z n)%Q).
    { unfold F2Q, n, d. rewrite <- (bpow_inject (- e)) by lia. rewrite inject_Z_mult.
      setoid_replace (inject_Z (Z.pos m) * bpow e * 100 * bpow (- e))%Q
        with (inject_Z (Z.pos m) * 100 * (bpow e * bpow (- e)))%Q using relation Qeq by ring.
      rewrite bpow_cancel. change (inject_Z 100) with 100%Q. ring. }
    destruct (Z.compare_spec (2 * (n mod d)) d) as [Hc|Hc|Hc].
    + destruct (Z.even (n / d)) eqn:Heven; split;
        try (apply (nearest_from_integers _ n d); try assumption; nia).
      * intros _. exact Heven.
      * intros _. rewrite Z.even_add, Heven. reflexivity.
    + split; [apply (nearest_from_integers _ n d); try assumption; nia|].
      intros Ht. exfalso. destruct (tie_from_integers _ n d _ Hx Ht); nia.
    + split; [apply (nearest_from_integers _ n d); try assumption; nia|].
      intros Ht. exfalso. destruct (tie_from_integers _ n d _ Hx Ht); nia.
Qed.

Lemma displayed_amount_is_nearest_hundredth_witness :
  Float.fixed2 false (S754_finite false 1 (-3)) = "0.12"%string /\
  Z.even (Float.hundredths 1 (-3)) = true.
Proof.
  split; [reflexivity|].
  destruct (displayed_amount_is_nearest_hundredth 1 (-3)) as [_ Htie].
  apply Htie. vm_compute. reflexivity.
Defined.
